(** * Incident grouping of HDFS log records: a shallow embedding

    This development embeds [src/incident_grouper.py] (class
    [IncidentGrouper]) and states its specification as theorems.

    - Python dictionaries holding one log line become the record
      [LogRecord]; the dictionary built by [_create_incident] becomes the
      record [Incident]; the dictionary returned by [get_incident_stats]
      is a [gmap] from field names to values.
    - A Python exception is a value [Raise e] of the type [result].
    - [datetime.fromisoformat] and [datetime.isoformat] belong to the
      Python library, not to the repository: the generic development takes
      them as the section variables [fromisoformat] and [isoformat]. A naive
      [datetime] is the integer number of microseconds since the start of
      the proleptic Gregorian calendar, a [timedelta] an integer number of
      microseconds, so that subtraction and comparison are exact as they
      are in Python. The module [Iso] gives the instance for the format
      [YYYY-MM-DDTHH:MM:SS] that [hdfs_parser.py] emits.
    - A Python [float] obtained by true division is the exact rational
      number of type [Q]; rounding to a double is not modelled. *)

From Stdlib Require Import ZArith QArith Lia Ascii String OrderedTypeEx.
From stdpp Require Import base option list strings gmap sorting.

Local Open Scope string_scope.
Local Open Scope list_scope.
Local Open Scope Z_scope.

(** ** Exceptions *)

Inductive exn : Type :=
| ValueError
| ZeroDivisionError.

Inductive result (A : Type) : Type :=
| Ok (a : A)
| Raise (e : exn).
Arguments Ok {A} a.
Arguments Raise {A} e.

Global Instance result_bind : MBind result := λ A B k m,
  match m with
  | Ok a => k a
  | Raise e => Raise e
  end.

Global Instance result_ret : MRet result := λ A a, Ok a.

(** ** Data model *)

(** One parsed log line, as [HDFSLogParser.parse_line] builds it.
    [block_id] is [None] when the message names no block. *)
Record LogRecord : Type := mkLog {
  line_number : Z;
  timestamp : string;
  thread_id : string;
  level : string;
  component : string;
  message : string;
  block_id : option string;
  raw_line : string
}.

Global Instance LogRecord_eq_dec : EqDecision LogRecord.
Proof. solve_decision. Defined.

(** The dictionary returned by [_create_incident]; the key ["block_id"] of
    the incident is the field [inc_block_id]. *)
Record Incident : Type := mkIncident {
  incident_id : Z;
  inc_block_id : string;
  start_time : string;
  end_time : string;
  duration_seconds : Q;
  num_logs : Z;
  severity : string;
  components : list string;
  logs : list LogRecord
}.

(** [self.time_window], a [timedelta] in microseconds. *)
Record IncidentGrouper : Type := mkGrouper {
  time_window : Z
}.

Definition timedelta_minutes (m : Z) : Z := m * 60000000.

(** [__init__]: [self.time_window = timedelta(minutes=time_window_minutes)] *)
Definition __init__ (time_window_minutes : Z) : IncidentGrouper :=
  {| time_window := timedelta_minutes time_window_minutes |}.

(** [timedelta.total_seconds()] *)
Definition total_seconds (d : Z) : Q := d # 1000000.

(** ** Python built-ins used by the grouper *)

(** [min(l)]: raises [ValueError] on an empty sequence; the scan keeps the
    current candidate unless a strictly smaller item shows up. *)
Definition py_min (l : list Z) : result Z :=
  match l with
  | [] => Raise ValueError
  | x :: xs => Ok (fold_left (fun best y => if y <? best then y else best) xs x)
  end.

(** [max(l)] *)
Definition py_max (l : list Z) : result Z :=
  match l with
  | [] => Raise ValueError
  | x :: xs => Ok (fold_left (fun best y => if best <? y then y else best) xs x)
  end.

(** [max(l, key=f)]: the candidate is replaced only by an item whose key is
    strictly greater, so the first item attaining the maximum wins. *)
Definition py_max_by {A : Type} (key : A → Z) (l : list A) : result A :=
  match l with
  | [] => Raise ValueError
  | x :: xs =>
      Ok (fold_left (fun best y => if key best <? key y then y else best) xs x)
  end.

(** [a / b] on numbers (true division) *)
Definition py_div (a b : Q) : result Q :=
  if Qeq_bool b 0 then Raise ZeroDivisionError else Ok (a / b)%Q.

(** [sum(l)] over integers and over floats *)
Definition sumZ (l : list Z) : Z := fold_left Z.add l 0.
Definition sumQ (l : list Q) : Q := fold_left Qplus l (0 : Q).

(** [l.count(x)] *)
Definition py_count (x : string) (l : list string) : Z :=
  Z.of_nat (length (filter (fun y => y = x) l)).

(** ** Entity partitioner (lines 36-43) *)

(** Truthiness of [log.get('block_id')]: [None] and the empty string are
    falsy. *)
Definition has_block_id (log : LogRecord) : bool :=
  match block_id log with
  | Some s => negb (String.eqb s "")
  | None => false
  end.

(** [log\['block_id'\]] of a record that passed the filter *)
Definition block_key (log : LogRecord) : string := default "" (block_id log).

Definition logs_with_blocks (logs : list LogRecord) : list LogRecord :=
  filter (fun log => has_block_id log = true) logs.

(** [blocks\[k\].append(log)] on a [defaultdict(list)]. A Python dictionary
    iterates in insertion order, which decides the numbering of incidents,
    so [blocks] is an association list in insertion order. *)
Fixpoint blocks_append (k : string) (log : LogRecord)
    (blocks : list (string * list LogRecord)) : list (string * list LogRecord) :=
  match blocks with
  | [] => [(k, [log])]
  | (k', ls) :: rest =>
      if String.eqb k' k then (k', ls ++ [log]) :: rest
      else (k', ls) :: blocks_append k log rest
  end.

Definition partition_blocks (lwb : list LogRecord) : list (string * list LogRecord) :=
  fold_left (fun blocks log => blocks_append (block_key log) log blocks) lwb [].

(** ** [block_logs.sort(key=lambda x: x\['timestamp'\])] (line 53)

    The key is the timestamp *string*; Python strings compare code point by
    code point, which on UTF-8 bytes is [String.leb]. [list.sort] is stable,
    and a stable sort has one possible result, computed here by insertion:
    a record is put in front of the first record whose key is not
    smaller, hence in front of the records with an equal key that followed
    it in the input. *)
Fixpoint insert_by_timestamp (x : LogRecord) (l : list LogRecord) : list LogRecord :=
  match l with
  | [] => [x]
  | y :: l' =>
      if String.leb (timestamp x) (timestamp y) then x :: l
      else y :: insert_by_timestamp x l'
  end.

Definition sort_by_timestamp (l : list LogRecord) : list LogRecord :=
  foldr insert_by_timestamp [] l.

(** ** Severity scale (line 95) *)

Definition level_priority : gmap string Z :=
  <["FATAL" := 4]> (<["ERROR" := 3]> (<["WARN" := 2]> (<["INFO" := 1]>
    (<["DEBUG" := 0]> ∅)))).

(** [level_priority.get(x, 0)] *)
Definition level_priority_get (x : string) : Z :=
  default 0 (level_priority !! x).

Section Grouper.

(** [datetime.fromisoformat], [None] standing for its [ValueError], and
    [datetime.isoformat]. *)
Variable fromisoformat : string → option Z.
Variable isoformat : Z → string.

Definition parse_timestamp (log : LogRecord) : result Z :=
  match fromisoformat (timestamp log) with
  | Some t => Ok t
  | None => Raise ValueError
  end.

(** ** Incident aggregator: [_create_incident] (lines 87-111)

    The list comprehension over the timestamps, [min], [max] and the scan
    for the severity run in this order, so an empty [logs] fails at [min].
    [list(set(...))] enumerates a set in an order Python leaves open; the
    model takes the order of [elements], and nothing below depends on it. *)
Definition _create_incident (id : Z) (bid : string) (ls : list LogRecord)
    : result Incident :=
  timestamps ← mapM parse_timestamp ls;
  start ← py_min timestamps;
  end_ ← py_max timestamps;
  let levels := level <$> ls in
  sev ← py_max_by level_priority_get levels;
  let comps := elements (list_to_set (component <$> ls) : gset string) in
  Ok {| incident_id := id;
        inc_block_id := bid;
        start_time := isoformat start;
        end_time := isoformat end_;
        duration_seconds := total_seconds (end_ - start);
        num_logs := Z.of_nat (length ls);
        severity := sev;
        components := comps;
        logs := ls |}.

(** ** Temporal clusterer (lines 48-80) *)

(** [incidents] and [incident_id], shared by all blocks *)
Record GroupState : Type := mkGroup {
  incidents : list Incident;
  next_incident_id : Z
}.

(** [current_incident] and [current_start_time], reset for every block *)
Record ClusterState : Type := mkCluster {
  current_incident : list LogRecord;
  current_start_time : option Z
}.

(** [if current_incident: incidents.append(self._create_incident(...));
    incident_id += 1] (lines 71-73 and 78-80); an empty list is falsy. *)
Definition flush_incident (bid : string) (cur : list LogRecord) (g : GroupState)
    : result GroupState :=
  match cur with
  | [] => Ok g
  | _ :: _ =>
      inc ← _create_incident (next_incident_id g) bid cur;
      Ok {| incidents := incidents g ++ [inc];
            next_incident_id := next_incident_id g + 1 |}
  end.

(** Body of the loop over [block_logs] (lines 59-75). A [datetime] is
    always truthy, so [not current_start_time] holds exactly for [None]. *)
Definition cluster_step (self : IncidentGrouper) (bid : string)
    (st : ClusterState * GroupState) (log : LogRecord)
    : result (ClusterState * GroupState) :=
  let '(c, g) := st in
  log_time ← parse_timestamp log;
  match current_start_time c with
  | None =>
      Ok ({| current_incident := [log]; current_start_time := Some log_time |}, g)
  | Some t0 =>
      if log_time - t0 <=? time_window self then
        Ok ({| current_incident := current_incident c ++ [log];
               current_start_time := Some t0 |}, g)
      else
        g' ← flush_incident bid (current_incident c) g;
        Ok ({| current_incident := [log]; current_start_time := Some log_time |}, g')
  end.

Fixpoint cluster_loop (self : IncidentGrouper) (bid : string)
    (st : ClusterState * GroupState) (block_logs : list LogRecord)
    : result (ClusterState * GroupState) :=
  match block_logs with
  | [] => Ok st
  | log :: rest =>
      st' ← cluster_step self bid st log;
      cluster_loop self bid st' rest
  end.

(** Body of the loop over [blocks.items()] (lines 51-80) *)
Definition cluster_block (self : IncidentGrouper) (g : GroupState)
    (entry : string * list LogRecord) : result GroupState :=
  let '(bid, block_logs) := entry in
  let sorted := sort_by_timestamp block_logs in
  '(c, g') ← cluster_loop self bid
       ({| current_incident := []; current_start_time := None |}, g) sorted;
  flush_incident bid (current_incident c) g'.

Fixpoint cluster_blocks (self : IncidentGrouper) (g : GroupState)
    (blocks : list (string * list LogRecord)) : result GroupState :=
  match blocks with
  | [] => Ok g
  | entry :: rest =>
      g' ← cluster_block self g entry;
      cluster_blocks self g' rest
  end.

(** Lines 36-80: the list [incidents] as it stands before the two summary
    lines are printed. *)
Definition build_incidents (self : IncidentGrouper) (logs : list LogRecord)
    : result (list Incident) :=
  let blocks := partition_blocks (logs_with_blocks logs) in
  g ← cluster_blocks self {| incidents := []; next_incident_id := 1 |} blocks;
  Ok (incidents g).

(** [group_incidents] (lines 26-85). Of the [print] calls only the one at
    line 83 can raise: it divides by [len(incidents)]. *)
Definition group_incidents (self : IncidentGrouper) (logs : list LogRecord)
    : result (list Incident) :=
  incs ← build_incidents self logs;
  _ ← py_div (inject_Z (Z.of_nat (length (logs_with_blocks logs))))
             (inject_Z (Z.of_nat (length incs)));
  Ok incs.

End Grouper.

(** ** Statistics reporter: [get_incident_stats] (lines 119-139) *)

(** A value stored in the statistics dictionary *)
Inductive StatValue : Type :=
| VInt (n : Z)
| VFloat (q : Q)
| VDict (d : gmap string Z).

(** [{level: severities.count(level) for level in set(severities)}] *)
Definition severity_distribution (severities : list string) : gmap string Z :=
  set_to_map (fun lvl => (lvl, py_count lvl severities))
             (list_to_set severities : gset string).

(** The entries of the dictionary literal are evaluated in the order in
    which they are written; the method does not read [self]. *)
Definition get_incident_stats (incs : list Incident)
    : result (gmap string StatValue) :=
  match incs with
  | [] => Ok ∅
  | _ :: _ =>
      let num_logs_per_incident := num_logs <$> incs in
      let durations := duration_seconds <$> incs in
      let severities := severity <$> incs in
      let total_incidents := Z.of_nat (length incs) in
      let total_logs := sumZ num_logs_per_incident in
      avg_logs ← py_div (inject_Z (sumZ num_logs_per_incident))
                        (inject_Z (Z.of_nat (length incs)));
      min_logs ← py_min num_logs_per_incident;
      max_logs ← py_max num_logs_per_incident;
      avg_duration ← py_div (sumQ durations)
                            (inject_Z (Z.of_nat (length durations)));
      Ok (<["total_incidents" := VInt total_incidents]>
         (<["total_logs" := VInt total_logs]>
         (<["avg_logs_per_incident" := VFloat avg_logs]>
         (<["min_logs_per_incident" := VInt min_logs]>
         (<["max_logs_per_incident" := VInt max_logs]>
         (<["avg_duration_seconds" := VFloat avg_duration]>
         (<["severity_distribution" := VDict (severity_distribution severities)]>
          ∅)))))))
  end.

(** ** The timestamp format of the parser

    [HDFSLogParser.parse_line] stores [timestamp.isoformat()] of a
    [datetime] without microseconds: nineteen characters
    [YYYY-MM-DDTHH:MM:SS]. The functions below read and write this format
    (and the fractional form [isoformat] uses for a non-zero microsecond
    field); they are the instance at which the generic development is
    run on concrete records. *)
Module Iso.

Definition is_leap (y : Z) : bool :=
  (y mod 4 =? 0) && (negb (y mod 100 =? 0) || (y mod 400 =? 0)).

Definition days_in_month (y m : Z) : Z :=
  if m =? 2 then (if is_leap y then 29 else 28)
  else if (m =? 4) || (m =? 6) || (m =? 9) || (m =? 11) then 30
  else 31.

Definition days_before_year (y : Z) : Z :=
  (y - 1) * 365 + (y - 1) / 4 - (y - 1) / 100 + (y - 1) / 400.

(** Days of a common year before the first of month [m]; the entry for
    [m = 13] is the length of the year. *)
Definition DAYS_BEFORE_MONTH : list Z :=
  [0; 0; 31; 59; 90; 120; 151; 181; 212; 243; 273; 304; 334; 365].

Definition days_before_month (y m : Z) : Z :=
  nth (Z.to_nat m) DAYS_BEFORE_MONTH 0
  + (if (2 <? m) && is_leap y then 1 else 0).

(** Proleptic Gregorian ordinal, 1 for 0001-01-01 *)
Definition ymd2ord (y m d : Z) : Z :=
  days_before_year y + days_before_month y m + d.

Definition usec_per_day : Z := 86400000000.

(** The fields of a [datetime] without microseconds *)
Record Civil : Type := mkCivil {
  year : Z; month : Z; day : Z; hour : Z; minute : Z; second : Z
}.

Definition to_microseconds (c : Civil) : Z :=
  (ymd2ord (year c) (month c) (day c) - 1) * usec_per_day
  + ((hour c * 60 + minute c) * 60 + second c) * 1000000.

Definition digit (c : ascii) : option Z :=
  let n := Z.of_N (Ascii.N_of_ascii c) in
  if (48 <=? n) && (n <=? 57) then Some (n - 48) else None.

Definition digits2 (a b : ascii) : option Z :=
  x ← digit a; y ← digit b; Some (10 * x + y).

Definition digits4 (a b c d : ascii) : option Z :=
  x ← digits2 a b; y ← digits2 c d; Some (100 * x + y).

(** The layout: four, two and two digits joined by [-], a [T], two, two
    and two digits joined by [:]. *)
Definition read (str : string) : option Civil :=
  match list_ascii_of_string str with
  | [y1; y2; y3; y4; p1; m1; m2; p2; d1; d2; pt; h1; h2; p3; n1; n2; p4; s1; s2] =>
      if Ascii.eqb p1 "-" && Ascii.eqb p2 "-" && Ascii.eqb pt "T"
         && Ascii.eqb p3 ":" && Ascii.eqb p4 ":"
      then
        y ← digits4 y1 y2 y3 y4;
        mo ← digits2 m1 m2;
        d ← digits2 d1 d2;
        h ← digits2 h1 h2;
        mi ← digits2 n1 n2;
        s ← digits2 s1 s2;
        Some (mkCivil y mo d h mi s)
      else None
  | _ => None
  end.

(** The ranges the constructor of [datetime] accepts *)
Definition valid (c : Civil) : bool :=
  (1 <=? year c) && (1 <=? month c) && (month c <=? 12) && (1 <=? day c)
  && (day c <=? days_in_month (year c) (month c))
  && (hour c <=? 23) && (minute c <=? 59) && (second c <=? 59).

Definition fromisoformat (str : string) : option Z :=
  c ← read str;
  if valid c then Some (to_microseconds c) else None.

(** The fields read as one decimal number: its order is the order of the
    strings of the layout. *)
Definition composite (c : Civil) : Z :=
  ((((year c * 100 + month c) * 100 + day c) * 100 + hour c) * 100
   + minute c) * 100 + second c.

Definition digit_char (n : Z) : ascii :=
  Ascii.ascii_of_N (Z.to_N (48 + n mod 10)).

(** [n] in decimal, zero-padded to [w] digits *)
Fixpoint pad (w : nat) (n : Z) (acc : string) : string :=
  match w with
  | O => acc
  | S w' => pad w' (n / 10) (String (digit_char n) acc)
  end.

(** Year of the day with zero-based index [n] *)
Definition year_of_day (n : Z) : Z :=
  let n400 := n / 146097 in
  let r400 := n mod 146097 in
  let n100 := Z.min 3 (r400 / 36524) in
  let r100 := r400 - n100 * 36524 in
  let n4 := r100 / 1461 in
  let r4 := r100 mod 1461 in
  let n1 := Z.min 3 (r4 / 365) in
  n400 * 400 + n100 * 100 + n4 * 4 + n1 + 1.

Fixpoint month_of_day (y : Z) (k : nat) (m : Z) (n : Z) : Z * Z :=
  match k with
  | O => (m, n)
  | S k' =>
      let dim := days_in_month y m in
      if n <? dim then (m, n) else month_of_day y k' (m + 1) (n - dim)
  end.

Definition isoformat (t : Z) : string :=
  let day := t / usec_per_day in
  let us := t mod usec_per_day in
  let y := year_of_day day in
  let '(mo, d0) := month_of_day y 11 1 (day - days_before_year y) in
  let secs := us / 1000000 in
  let frac := us mod 1000000 in
  let tail := if frac =? 0 then "" else String "."%char (pad 6 frac "") in
  pad 4 y (String "-"%char (pad 2 mo (String "-"%char (pad 2 (d0 + 1)
    (String "T"%char (pad 2 (secs / 3600) (String ":"%char
      (pad 2 (secs / 60 mod 60) (String ":"%char (pad 2 (secs mod 60) tail)))))))))).

End Iso.

(** The point in time a record denotes, for a record whose timestamp
    [fromisoformat] reads. *)
Definition time_of (fromisoformat : string → option Z) (r : LogRecord) : Z :=
  default 0 (fromisoformat (timestamp r)).

(** ** The clustering rule in the words of the specification (§4.2)

    Records are taken in ascending order of their points in time [time].
    The first unassigned record opens an incident and is its anchor; a later
    record joins the current incident iff its time minus the anchor is at
    most the window; otherwise the current incident is closed and the
    record opens the next one, anchored at its own time. Every cluster is
    returned with its anchor. *)
Fixpoint clusters_from (window : Z) (time : LogRecord → Z) (anchor : Z)
    (cur : list LogRecord) (rest : list LogRecord) : list (Z * list LogRecord) :=
  match rest with
  | [] => [(anchor, cur)]
  | r :: rest' =>
      if time r - anchor <=? window
      then clusters_from window time anchor (cur ++ [r]) rest'
      else (anchor, cur) :: clusters_from window time (time r) [r] rest'
  end.

Definition temporal_clusters (window : Z) (time : LogRecord → Z)
    (recs : list LogRecord) : list (Z * list LogRecord) :=
  match recs with
  | [] => []
  | r :: rest => clusters_from window time (time r) [r] rest
  end.

(** The aggregator applied to a sequence of clusters of one block, with
    consecutive identifiers starting at [id]. *)
Fixpoint create_incidents (fromisoformat : string → option Z)
    (isoformat : Z → string) (id : Z) (bid : string)
    (clusters : list (list LogRecord)) : result (list Incident) :=
  match clusters with
  | [] => Ok []
  | c :: rest =>
      inc ← _create_incident fromisoformat isoformat id bid c;
      incs ← create_incidents fromisoformat isoformat (id + 1) bid rest;
      Ok (inc :: incs)
  end.

(** The order of two timestamp strings agrees with the order of the points
    in time they denote. It does for two strings in the format of the
    parser; [fromisoformat] also reads other layouts, and the sort at
    line 53 compares the strings. *)
Definition order_agrees (fromisoformat : string → option Z)
    (r1 r2 : LogRecord) : bool :=
  match fromisoformat (timestamp r1), fromisoformat (timestamp r2) with
  | Some t1, Some t2 =>
      implb (String.leb (timestamp r1) (timestamp r2)) (t1 <=? t2)
  | _, _ => true
  end.

Definition chronological (fromisoformat : string → option Z)
    (l : list LogRecord) : bool :=
  forallb (fun r1 => forallb (order_agrees fromisoformat r1) l) l.

(** All timestamps of the records that pass the filter are read by
    [fromisoformat]. *)
Definition timestamps_parse (fromisoformat : string → option Z)
    (l : list LogRecord) : bool :=
  forallb (fun r => bool_decide (is_Some (fromisoformat (timestamp r)))) l.

(** The dictionary [_create_incident] returns for a cluster, given the
    results of its three scans. *)
Definition incident_fields (isoformat : Z → string) (id : Z) (bid : string)
    (ls : list LogRecord) (mn mx : Z) (sev : string) : Incident :=
  {| incident_id := id;
     inc_block_id := bid;
     start_time := isoformat mn;
     end_time := isoformat mx;
     duration_seconds := total_seconds (mx - mn);
     num_logs := Z.of_nat (length ls);
     severity := sev;
     components := elements (list_to_set (component <$> ls) : gset string);
     logs := ls |}.

(** The state [incidents], [incident_id] after the incidents [incs] have
    been appended. *)
Definition extend (g : GroupState) (incs : list Incident) : GroupState :=
  {| incidents := incidents g ++ incs;
     next_incident_id := next_incident_id g + Z.of_nat (length incs) |}.

(** A cluster with its anchor: the first member is the anchor record, and
    every other member lies within the window of the anchor. *)
Definition anchored (window : Z) (time : LogRecord → Z)
    (c : Z * list LogRecord) : Prop :=
  ∃ r0 tl, c.2 = r0 :: tl ∧ time r0 = c.1
           ∧ Forall (fun r => time r - c.1 ≤ window) tl.

(** The incidents of one entry of [blocks]: the aggregator applied to the
    clusters that the rule finds in the sorted records of the key. *)
Definition block_incidents (fromisoformat : string → option Z)
    (isoformat : Z → string) (window : Z)
    (b : string * list LogRecord) (incs : list Incident) : Prop :=
  Forall (fun r => is_Some (fromisoformat (timestamp r))) b.2
  ∧ ∃ id, create_incidents fromisoformat isoformat id b.1
            (temporal_clusters window (time_of fromisoformat)
                               (sort_by_timestamp b.2)).*2 = Ok incs.

(** The order of the sort key and the records of a block *)
Definition ts_le (r1 r2 : LogRecord) : Prop :=
  String.leb (timestamp r1) (timestamp r2) = true.

Definition same_block (k : string) (r : LogRecord) : Prop := block_key r = k.

Global Instance ts_le_dec r1 r2 : Decision (ts_le r1 r2).
Proof. unfold ts_le. apply _. Defined.

Global Instance same_block_dec k r : Decision (same_block k r).
Proof. unfold same_block. apply _. Defined.

(** ** Sample records *)

Definition sample (n : Z) (ts lvl comp : string) (b : option string) : LogRecord :=
  {| line_number := n; timestamp := ts; thread_id := "143"; level := lvl;
     component := comp; message := "Receiving block"; block_id := b;
     raw_line := "081109 000000 143 INFO dfs.DataNode: Receiving block" |}.

(** The scenario of §8: one key, records at 00:00:00, 00:03:00, 00:06:30 *)
Definition scenario : list LogRecord :=
  [ sample 1 "2008-11-09T00:00:00" "ERROR" "dfs.DataNode" (Some "blk_A");
    sample 2 "2008-11-09T00:03:00" "WARN" "dfs.FSNamesystem" (Some "blk_A");
    sample 3 "2008-11-09T00:06:30" "INFO" "dfs.DataNode" (Some "blk_A") ].

(** Two keys interleaved, a record without a key, one with an empty key,
    and a tie in timestamp. *)
Definition mixed_batch : list LogRecord :=
  [ sample 1 "2008-11-09T20:35:20" "INFO" "dfs.DataNode" (Some "blk_B");
    sample 2 "2008-11-09T20:35:18" "WARN" "dfs.DataNode" (Some "blk_A");
    sample 3 "2008-11-09T20:35:19" "INFO" "dfs.FSNamesystem" None;
    sample 4 "2008-11-09T20:35:18" "ERROR" "dfs.FSNamesystem" (Some "blk_A");
    sample 5 "2008-11-09T20:41:00" "INFO" "dfs.DataNode" (Some "blk_A");
    sample 6 "2008-11-09T20:35:21" "FATAL" "dfs.DataNode" (Some "") ].

(** The two incidents of the scenario *)
Definition scenario_incidents : list Incident :=
  [ {| incident_id := 1; inc_block_id := "blk_A";
       start_time := "2008-11-09T00:00:00"; end_time := "2008-11-09T00:03:00";
       duration_seconds := 180; num_logs := 2; severity := "ERROR";
       components := ["dfs.DataNode"; "dfs.FSNamesystem"];
       logs := take 2 scenario |};
    {| incident_id := 2; inc_block_id := "blk_A";
       start_time := "2008-11-09T00:06:30"; end_time := "2008-11-09T00:06:30";
       duration_seconds := 0; num_logs := 1; severity := "INFO";
       components := ["dfs.DataNode"];
       logs := drop 2 scenario |} ].

(** An unrecognised label in front of [DEBUG] *)
Definition trace_then_debug : list LogRecord :=
  [ sample 1 "2008-11-09T20:35:18" "TRACE" "dfs.DataNode" (Some "blk_A");
    sample 2 "2008-11-09T20:35:19" "DEBUG" "dfs.DataNode" (Some "blk_A") ].


(** * The parser of [src/hdfs_parser.py] (class [HDFSLogParser])

    - A Python [str] is a [string] whose characters are code points below
      256; the character classes of [re] and of [str.strip] are those
      Python gives these code points.
    - [re.match] with the pattern of [__init__] is the function
      [pattern_match]: every quantifier of the pattern is followed by a
      character its class excludes, so the match, when there is one, takes
      the longest run at every step.
    - [datetime.strptime] and [datetime.isoformat] are library functions;
      [strptime] gives the result of the first for the format
      [%y%m%d %H%M%S] and two strings of six digits, with the fields of
      the [datetime] as a [Iso.Civil].
    - [print] is not modelled, except for the figures of the summary of
      [parse_file], which [parse_summary] returns.
    - The file that [parse_file] opens is the list of the lines its
      iteration yields. *)

Module HDFSLogParser.

(** ** Character classes *)

Definition code (c : ascii) : Z := Z.of_N (N_of_ascii c).

Definition between (lo hi : Z) (c : ascii) : bool :=
  (lo <=? code c) && (code c <=? hi).

(** [\s], and the characters [str.strip] removes *)
Definition is_space (c : ascii) : bool :=
  between 9 13 c || between 28 32 c || between 133 133 c || between 160 160 c.

(** [\d] *)
Definition is_digit (c : ascii) : bool := between 48 57 c.

(** [\w] *)
Definition is_word (c : ascii) : bool :=
  is_digit c || between 65 90 c || between 95 95 c || between 97 122 c
  || between 170 170 c || between 178 179 c || between 181 181 c
  || between 185 186 c || between 188 190 c || between 192 214 c
  || between 216 246 c || between 248 255 c.

(** [\[\w.$\]] *)
Definition is_component (c : ascii) : bool :=
  is_word c || between 46 46 c || between 36 36 c.

(** [.] matches every character but the line feed *)
Definition is_any (c : ascii) : bool := negb (code c =? 10).

(** ** Strings *)

Fixpoint lstrip (s : string) : string :=
  match s with
  | EmptyString => EmptyString
  | String c s' => if is_space c then lstrip s' else s
  end.

Fixpoint rstrip (s : string) : string :=
  match s with
  | EmptyString => EmptyString
  | String c s' =>
      match rstrip s' with
      | EmptyString => if is_space c then EmptyString else String c EmptyString
      | t => String c t
      end
  end.

(** [str.strip()] *)
Definition strip (s : string) : string := rstrip (lstrip s).

(** [s\[i:j\]] for [0 <= i <= j] *)
Definition slice (i j : nat) (s : string) : string := substring i (j - i) s.

Fixpoint all_chars (p : ascii → bool) (s : string) : bool :=
  match s with
  | EmptyString => true
  | String c s' => p c && all_chars p s'
  end.

Definition is_empty (s : string) : bool :=
  match s with
  | EmptyString => true
  | String _ _ => false
  end.

(** The longest prefix in the class [p], and what follows it *)
Fixpoint span (p : ascii → bool) (s : string) : string * string :=
  match s with
  | EmptyString => (EmptyString, EmptyString)
  | String c s' =>
      if p c
      then let '(a, b) := span p s' in (String c a, b)
      else (EmptyString, s)
  end.

(** ** The pattern of [__init__] *)

(** [\d{6}] *)
Definition digits6 (s : string) : option (string * string) :=
  match s with
  | String a (String b (String c (String d (String e (String f rest))))) =>
      if is_digit a && is_digit b && is_digit c
         && is_digit d && is_digit e && is_digit f
      then Some (String a (String b (String c (String d
                  (String e (String f EmptyString))))), rest)
      else None
  | _ => None
  end.

(** A class with [+] *)
Definition plus (p : ascii → bool) (s : string) : option (string * string) :=
  let '(a, b) := span p s in
  if is_empty a then None else Some (a, b).

Definition colon (s : string) : option string :=
  match s with
  | String ":" rest => Some rest
  | _ => None
  end.

(** The groups of a match *)
Record Groups : Type := mkGroups {
  date_str : string;
  time_str : string;
  g_thread_id : string;
  g_level : string;
  g_component : string;
  g_message : string
}.

(** [self.pattern.match(line)] for a line that does not end in white
    space, which is what [strip] returns:
    [^(\d{6})\s+(\d{6})\s+(\d+)\s+(\w+)\s+(\[\w.$\]+):\s+(.+)$] *)
Definition pattern_match (line : string) : option Groups :=
  '(date, s) ← digits6 line;
  '(_, s) ← plus is_space s;
  '(time, s) ← digits6 s;
  '(_, s) ← plus is_space s;
  '(thread, s) ← plus is_digit s;
  '(_, s) ← plus is_space s;
  '(lvl, s) ← plus is_word s;
  '(_, s) ← plus is_space s;
  '(comp, s) ← plus is_component s;
  s ← colon s;
  '(_, s) ← plus is_space s;
  if negb (is_empty s) && all_chars is_any s
  then Some (mkGroups date time thread lvl comp s)
  else None.

(** [blk_-?\d+] at the start of [s] *)
Definition block_at (s : string) : option string :=
  match s with
  | String "b" (String "l" (String "k" (String "_" rest))) =>
      match rest with
      | String "-" rest' =>
          let '(ds, _) := span is_digit rest' in
          if is_empty ds then None else Some ("blk_-" +:+ ds)
      | _ =>
          let '(ds, _) := span is_digit rest in
          if is_empty ds then None else Some ("blk_" +:+ ds)
      end
  | _ => None
  end.

(** [self.block_pattern.search(message)], with [group(0)] of the match:
    the match at the leftmost position that has one *)
Fixpoint block_search (s : string) : option string :=
  match block_at s with
  | Some b => Some b
  | None =>
      match s with
      | EmptyString => None
      | String _ s' => block_search s'
      end
  end.

(** ** Timestamps *)

(** [datetime.strptime(f"{date_str} {time_str}", "%y%m%d %H%M%S")] for two
    strings of six digits; [None] stands for [ValueError]. The format takes
    two digits for every field, a year up to 68 lies in the century of
    2000 and a later one in that of 1900, and the constructor of
    [datetime] checks the ranges. *)
Definition strptime (date time : string) : option Iso.Civil :=
  match list_ascii_of_string date, list_ascii_of_string time with
  | [y1; y2; m1; m2; d1; d2], [h1; h2; n1; n2; s1; s2] =>
      y ← Iso.digits2 y1 y2;
      mo ← Iso.digits2 m1 m2;
      d ← Iso.digits2 d1 d2;
      h ← Iso.digits2 h1 h2;
      mi ← Iso.digits2 n1 n2;
      s ← Iso.digits2 s1 s2;
      let c := Iso.mkCivil (if y <=? 68 then 2000 + y else 1900 + y) mo d h mi s in
      if Iso.valid c then Some c else None
  | _, _ => None
  end.

(** [timestamp.isoformat()] of a [datetime] without microseconds *)
Definition isoformat (c : Iso.Civil) : string :=
  Iso.pad 4 (Iso.year c) (String "-"
    (Iso.pad 2 (Iso.month c) (String "-"
      (Iso.pad 2 (Iso.day c) (String "T"
        (Iso.pad 2 (Iso.hour c) (String ":"
          (Iso.pad 2 (Iso.minute c) (String ":"
            (Iso.pad 2 (Iso.second c) EmptyString)))))))))).

(** The string of the [except ValueError] branch *)
Definition fallback_timestamp (date time : string) : string :=
  "20" +:+ slice 0 2 date +:+ "-" +:+ slice 2 4 date +:+ "-" +:+ slice 4 6 date
  +:+ "T" +:+ slice 0 2 time +:+ ":" +:+ slice 2 4 time +:+ ":" +:+ slice 4 6 time.

Definition timestamp_of (date time : string) : string :=
  match strptime date time with
  | Some t => isoformat t
  | None => fallback_timestamp date time
  end.

(** ** [parse_line] (lines 32-73) *)

Definition parse_line (line : string) (line_number : Z) : option LogRecord :=
  let line := strip line in
  if is_empty line then None
  else
    match pattern_match line with
    | None => None
    | Some g =>
        Some {| line_number := line_number;
                timestamp := timestamp_of (date_str g) (time_str g);
                thread_id := g_thread_id g;
                level := g_level g;
                component := g_component g;
                message := g_message g;
                block_id := block_search (g_message g);
                raw_line := line |}
    end.

(** ** [parse_file] (lines 75-106) *)

(** The local variables of [parse_file]; [line_num] is [None] until the
    loop assigns it. *)
Record FileState : Type := mkFileState {
  parsed_logs : list LogRecord;
  failed_count : Z;
  line_num : option Z
}.

(** Truthiness of [max_lines and line_num > max_lines] *)
Definition over_limit (max_lines : option Z) (n : Z) : bool :=
  match max_lines with
  | None => false
  | Some m => negb (m =? 0) && (m <? n)
  end.

(** The loop over [enumerate(f, 1)], from the line with number [n] on *)
Fixpoint parse_loop (max_lines : option Z) (lines : list string) (n : Z)
    (st : FileState) : FileState :=
  match lines with
  | [] => st
  | line :: rest =>
      if over_limit max_lines n
      then {| parsed_logs := parsed_logs st;
              failed_count := failed_count st;
              line_num := Some n |}
      else
        match parse_line line n with
        | Some parsed =>
            parse_loop max_lines rest (n + 1)
              {| parsed_logs := parsed_logs st ++ [parsed];
                 failed_count := failed_count st;
                 line_num := Some n |}
        | None =>
            parse_loop max_lines rest (n + 1)
              {| parsed_logs := parsed_logs st;
                 failed_count := failed_count st + 1;
                 line_num := Some n |}
        end
  end.

Definition run (lines : list string) (max_lines : option Z) : FileState :=
  parse_loop max_lines lines 1
    {| parsed_logs := []; failed_count := 0; line_num := None |}.

(** What a call produces: a value, or the [UnboundLocalError] that reading
    [line_num] raises when the loop has not assigned it. *)
Inductive outcome (A : Type) : Type :=
| Returns (a : A)
| UnboundLocalError.
Arguments Returns {A} a.
Arguments UnboundLocalError {A}.

(** The figures of the summary (lines 100-104) *)
Record Summary : Type := mkSummary {
  total_lines_processed : Z;
  successfully_parsed : Z;
  failed_to_parse : Z;
  success_rate : Q
}.

Definition parse_summary (lines : list string) (max_lines : option Z)
    : outcome Summary :=
  let st := run lines max_lines in
  match line_num st with
  | None => UnboundLocalError
  | Some n =>
      Returns {| total_lines_processed := n;
                 successfully_parsed := Z.of_nat (length (parsed_logs st));
                 failed_to_parse := failed_count st;
                 success_rate :=
                   (inject_Z (Z.of_nat (length (parsed_logs st))) / inject_Z n
                    * 100)%Q |}
  end.

Definition parse_file (lines : list string) (max_lines : option Z)
    : outcome (list LogRecord) :=
  let st := run lines max_lines in
  match line_num st with
  | None => UnboundLocalError
  | Some _ => Returns (parsed_logs st)
  end.

End HDFSLogParser.

(** ** The sample of [test_parser.py] *)

Definition line_feed : string := String (ascii_of_nat 10) EmptyString.

(** The lines of [SAMPLE_LOGS] as the iteration of the file yields them:
    each but the last ends in a line feed. *)
Definition SAMPLE_LOGS : list string :=
  [ "081109 203518 143 INFO dfs.DataNode$DataXceiver: Receiving block blk_-1608999687919862906 src: /10.250.19.102:54106 dest: /10.250.19.102:50010" +:+ line_feed;
    "081109 203518 148 INFO dfs.DataNode$DataXceiver: Receiving block blk_-1608999687919862906 src: /10.250.19.102:54108 dest: /10.250.19.102:50010" +:+ line_feed;
    "081109 203519 150 INFO dfs.DataNode$PacketResponder: PacketResponder 1 for block blk_-1608999687919862906 terminating" +:+ line_feed;
    "081109 203520 148 INFO dfs.DataNode$DataXceiver: Receiving block blk_3540344223099725891 src: /10.250.10.6:49890 dest: /10.250.10.6:50010" +:+ line_feed;
    "081109 203521 148 INFO dfs.DataNode$PacketResponder: PacketResponder 2 for block blk_3540344223099725891 terminating" +:+ line_feed;
    "081109 203522 143 INFO dfs.DataNode$DataXceiver: Receiving block blk_-1608999687919862906 src: /10.250.19.102:54110 dest: /10.250.19.102:50010" +:+ line_feed;
    "081109 203522 148 WARN dfs.DataNode: DataNode lost connection to block blk_-1608999687919862906" +:+ line_feed;
    "081109 203523 148 ERROR dfs.DataNode: DataNode error processing block blk_-1608999687919862906" +:+ line_feed;
    "081109 203524 150 INFO dfs.DataNode$PacketResponder: PacketResponder 3 for block blk_-1608999687919862906 terminating" +:+ line_feed;
    "081109 203525 151 INFO dfs.FSNamesystem: BLOCK* NameSystem.allocateBlock: /user/root/randtxt4/_temporary/_task_200811092030_0001_m_000005_0/part-00005. blk_-8611209185556947820" +:+ line_feed;
    "081109 203526 143 INFO dfs.DataNode$DataXceiver: Receiving block blk_5080623248220211130 src: /10.251.73.220:54338 dest: /10.251.73.220:50010" +:+ line_feed;
    "081109 203527 143 INFO dfs.DataNode$PacketResponder: PacketResponder 1 for block blk_5080623248220211130 terminating" +:+ line_feed;
    "081109 203528 148 INFO dfs.DataNode$DataXceiver: Receiving block blk_3540344223099725891 src: /10.250.10.6:49892 dest: /10.250.10.6:50010" +:+ line_feed;
    "081109 203529 148 INFO dfs.DataNode$PacketResponder: PacketResponder 2 for block blk_3540344223099725891 terminating" +:+ line_feed;
    "081109 203530 150 INFO dfs.DataNode$DataXceiver: Receiving block blk_-1608999687919862906 src: /10.250.19.102:54112 dest: /10.250.19.102:50010" ].

(** ** The format of a line, in the words of the docstring of the class

    [DATE TIME THREAD_ID LEVEL COMPONENT: MESSAGE] *)

(** A non-empty string of characters of the class [p] *)
Definition run_of (p : ascii → bool) (s : string) : bool :=
  negb (HDFSLogParser.is_empty s) && HDFSLogParser.all_chars p s.

(** The first character of [s], if any, is not in the class [p] *)
Definition stops (p : ascii → bool) (s : string) : bool :=
  match s with
  | EmptyString => true
  | String c _ => negb (p c)
  end.

Definition six_digits (s : string) : bool :=
  (String.length s =? 6)%nat && HDFSLogParser.all_chars HDFSLogParser.is_digit s.

(** A line with the fields [g], separated by the runs of white space
    [w1] ... [w5] *)
Definition assemble (g : HDFSLogParser.Groups) (w1 w2 w3 w4 w5 : string) : string :=
  HDFSLogParser.date_str g +:+ w1 +:+ HDFSLogParser.time_str g +:+ w2
  +:+ HDFSLogParser.g_thread_id g +:+ w3 +:+ HDFSLogParser.g_level g +:+ w4
  +:+ HDFSLogParser.g_component g +:+ ":" +:+ w5 +:+ HDFSLogParser.g_message g.

Definition well_formed (g : HDFSLogParser.Groups) (w1 w2 w3 w4 w5 : string) : bool :=
  six_digits (HDFSLogParser.date_str g) && six_digits (HDFSLogParser.time_str g)
  && run_of HDFSLogParser.is_digit (HDFSLogParser.g_thread_id g)
  && run_of HDFSLogParser.is_word (HDFSLogParser.g_level g)
  && run_of HDFSLogParser.is_component (HDFSLogParser.g_component g)
  && run_of HDFSLogParser.is_any (HDFSLogParser.g_message g)
  && stops HDFSLogParser.is_space (HDFSLogParser.g_message g)
  && run_of HDFSLogParser.is_space w1 && run_of HDFSLogParser.is_space w2
  && run_of HDFSLogParser.is_space w3 && run_of HDFSLogParser.is_space w4
  && run_of HDFSLogParser.is_space w5.

(** The number of lines the loop of [parse_file] handles before it ends *)
Definition lines_handled (max_lines : option Z) (lines : list string) : nat :=
  match max_lines with
  | None => length lines
  | Some m => if m =? 0 then length lines else Nat.min (length lines) (Z.to_nat m)
  end.

(** The records of the first [k] lines, each parsed with its number *)
Definition records_of (lines : list string) (k : nat) : list LogRecord :=
  omap id (imap (fun i line => HDFSLogParser.parse_line line (Z.of_nat i + 1))
                (take k lines)).

(** The same from the line with number [n] on, for the lines [ls] that
    remain *)
Definition handled_from (max_lines : option Z) (n : Z) (ls : list string) : nat :=
  match max_lines with
  | None => length ls
  | Some m => if m =? 0 then length ls
              else Nat.min (length ls) (Z.to_nat (m - n + 1))
  end.

Definition records_from (n : Z) (ls : list string) (k : nat) : list LogRecord :=
  omap id (imap (fun i line => HDFSLogParser.parse_line line (Z.of_nat i + n)) (take k ls)).


(** ** Timestamps outside the layout of the parser *)

(** [datetime.fromisoformat] accepts any single character between the date
    and the time, not only [T]: the reading of [Iso.read] without the test
    of the separator. *)
Definition read_any_separator (str : string) : option Iso.Civil :=
  match list_ascii_of_string str with
  | [y1; y2; y3; y4; p1; m1; m2; p2; d1; d2; _; h1; h2; p3; n1; n2; p4; s1; s2] =>
      if Ascii.eqb p1 "-" && Ascii.eqb p2 "-"
         && Ascii.eqb p3 ":" && Ascii.eqb p4 ":"
      then
        y ← Iso.digits4 y1 y2 y3 y4;
        mo ← Iso.digits2 m1 m2;
        d ← Iso.digits2 d1 d2;
        h ← Iso.digits2 h1 h2;
        mi ← Iso.digits2 n1 n2;
        s ← Iso.digits2 s1 s2;
        Some (Iso.mkCivil y mo d h mi s)
      else None
  | _ => None
  end.

Definition fromisoformat_any_separator (str : string) : option Z :=
  c ← read_any_separator str;
  if Iso.valid c then Some (Iso.to_microseconds c) else None.

(** One key, one timestamp written with [T] and two later ones written
    with a space, which sorts before [T] *)
Definition separators_batch : list LogRecord :=
  [ sample 1 "2008-11-09T00:00:00" "INFO" "dfs.DataNode" (Some "blk_A");
    sample 2 "2008-11-09 00:10:00" "INFO" "dfs.DataNode" (Some "blk_A");
    sample 3 "2008-11-09 00:12:00" "INFO" "dfs.DataNode" (Some "blk_A") ].

(** Every timestamp has the layout [YYYY-MM-DDTHH:MM:SS] of the parser; such
    a string carries no UTC offset, so a [datetime] read from it is naive *)
Definition parser_layout (l : list LogRecord) : bool :=
  forallb (fun r => bool_decide (is_Some (Iso.read (timestamp r)))) l.
(** * Proofs *)

(** ** The exception monad *)

Lemma bind_Ok {A B : Type} (m : result A) (k : A → result B) (b : B) :
  m ≫= k = Ok b ↔ ∃ a, m = Ok a ∧ k a = Ok b.
Proof.
  destruct m as [a|e]; simpl; split.
  - eauto.
  - intros (a' & Ha & Hk). by inversion Ha.
  - discriminate.
  - intros (a' & Ha & _). discriminate.
Qed.

Ltac inv_bind H :=
  repeat match type of H with
  | _ ≫= _ = Ok _ =>
      let x := fresh "x" in
      let Hx := fresh "Hx" in
      apply bind_Ok in H as (x & Hx & H)
  | Ok _ = Ok _ => injection H as H
  | mret _ = Ok _ => injection H as H
  end.

(** ** Built-ins *)

Lemma fold_min_spec (xs : list Z) (x : Z) :
  let m := fold_left (fun best y => if y <? best then y else best) xs x in
  m ∈ x :: xs ∧ ∀ y, y ∈ x :: xs → m ≤ y.
Proof.
  revert x. induction xs as [|z xs IH]; intros x; simpl.
  - split; [left|]. intros y Hy. apply list_elem_of_singleton in Hy. lia.
  - destruct (IH (if z <? x then z else x)) as [Hin Hle]. split.
    + apply elem_of_cons in Hin as [Hin|Hin].
      * rewrite Hin. destruct (z <? x); [right; left|left].
      * by do 2 right.
    + intros y Hy.
      assert (Hc : (if z <? x then z else x) ≤ x ∧ (if z <? x then z else x) ≤ z)
        by (destruct (Z.ltb_spec z x); lia).
      pose proof (Hle _ (list_elem_of_here _ _)) as H0.
      apply elem_of_cons in Hy as [->|Hy]; [lia|].
      apply elem_of_cons in Hy as [->|Hy]; [lia|].
      apply Hle. by right.
Qed.

Lemma fold_max_spec (xs : list Z) (x : Z) :
  let m := fold_left (fun best y => if best <? y then y else best) xs x in
  m ∈ x :: xs ∧ ∀ y, y ∈ x :: xs → y ≤ m.
Proof.
  revert x. induction xs as [|z xs IH]; intros x; simpl.
  - split; [left|]. intros y Hy. apply list_elem_of_singleton in Hy. lia.
  - destruct (IH (if x <? z then z else x)) as [Hin Hle]. split.
    + apply elem_of_cons in Hin as [Hin|Hin].
      * rewrite Hin. destruct (x <? z); [right; left|left].
      * by do 2 right.
    + intros y Hy.
      assert (Hc : x ≤ (if x <? z then z else x) ∧ z ≤ (if x <? z then z else x))
        by (destruct (Z.ltb_spec x z); lia).
      pose proof (Hle _ (list_elem_of_here _ _)) as H0.
      apply elem_of_cons in Hy as [->|Hy]; [lia|].
      apply elem_of_cons in Hy as [->|Hy]; [lia|].
      apply Hle. by right.
Qed.

Lemma py_min_spec (l : list Z) (m : Z) :
  py_min l = Ok m → m ∈ l ∧ ∀ y, y ∈ l → m ≤ y.
Proof.
  destruct l as [|x xs]; [discriminate|]. intros [= <-]. apply fold_min_spec.
Qed.

Lemma py_max_spec (l : list Z) (m : Z) :
  py_max l = Ok m → m ∈ l ∧ ∀ y, y ∈ l → y ≤ m.
Proof.
  destruct l as [|x xs]; [discriminate|]. intros [= <-]. apply fold_max_spec.
Qed.

Lemma py_min_is_Ok (l : list Z) : l ≠ [] → ∃ m, py_min l = Ok m.
Proof. destruct l; [done|]. eauto. Qed.

Lemma py_max_is_Ok (l : list Z) : l ≠ [] → ∃ m, py_max l = Ok m.
Proof. destruct l; [done|]. eauto. Qed.

(** The scan of [max(l, key=f)] stops at the first item whose key is
    maximal. *)
Lemma fold_max_by_first {A : Type} (key : A → Z) (xs : list A) (x : A) :
  let r := fold_left (fun best y => if key best <? key y then y else best) xs x in
  ∃ i : nat, (x :: xs) !! i = Some r
    ∧ (∀ y, y ∈ x :: xs → key y ≤ key r)
    ∧ (∀ (j : nat) y, (j < i)%nat → (x :: xs) !! j = Some y → key y < key r).
Proof.
  induction xs as [|z xs IH] using rev_ind; simpl.
  - exists 0%nat. split; [done|]. split.
    + intros y Hy. apply list_elem_of_singleton in Hy. subst. lia.
    + intros j y Hj. lia.
  - rewrite fold_left_app. simpl.
    destruct IH as (i & Hi & Hmax & Hfirst).
    set (r0 := fold_left _ xs x) in *.
    destruct (Z.ltb_spec (key r0) (key z)) as [Hlt|Hge].
    + exists (length (x :: xs)). split.
      * change (x :: xs ++ [z]) with ((x :: xs) ++ [z]).
        rewrite lookup_app_r by lia. by rewrite Nat.sub_diag.
      * split.
        -- intros y Hy. change (x :: xs ++ [z]) with ((x :: xs) ++ [z]) in Hy.
           apply elem_of_app in Hy as [Hy|Hy].
           ++ specialize (Hmax _ Hy). lia.
           ++ apply list_elem_of_singleton in Hy. subst. lia.
        -- intros j y Hj Hy. change (x :: xs ++ [z]) with ((x :: xs) ++ [z]) in Hy.
           rewrite lookup_app_l in Hy by done.
           apply list_elem_of_lookup_2 in Hy. specialize (Hmax _ Hy). lia.
    + exists i. split.
      * change (x :: xs ++ [z]) with ((x :: xs) ++ [z]).
        apply lookup_app_l_Some. done.
      * split.
        -- intros y Hy. change (x :: xs ++ [z]) with ((x :: xs) ++ [z]) in Hy.
           apply elem_of_app in Hy as [Hy|Hy]; [by apply Hmax|].
           apply list_elem_of_singleton in Hy. subst. lia.
        -- intros j y Hj Hy. change (x :: xs ++ [z]) with ((x :: xs) ++ [z]) in Hy.
           apply lookup_lt_Some in Hi as Hil.
           rewrite lookup_app_l in Hy by lia. by eapply Hfirst.
Qed.

Lemma py_max_by_spec {A : Type} (key : A → Z) (l : list A) (r : A) :
  py_max_by key l = Ok r →
  ∃ i : nat, l !! i = Some r
    ∧ (∀ y, y ∈ l → key y ≤ key r)
    ∧ (∀ (j : nat) y, (j < i)%nat → l !! j = Some y → key y < key r).
Proof.
  destruct l as [|x xs]; [discriminate|]. intros [= <-]. apply fold_max_by_first.
Qed.

Lemma py_max_by_is_Ok {A : Type} (key : A → Z) (l : list A) :
  l ≠ [] → ∃ r, py_max_by key l = Ok r.
Proof. destruct l; [done|]. eauto. Qed.

Lemma py_div_Ok (a b : Q) :
  ¬ (b == 0)%Q → py_div a b = Ok (a / b)%Q.
Proof.
  intros Hb. unfold py_div. destruct (Qeq_bool b 0) eqn:E; [|done].
  apply Qeq_bool_iff in E. done.
Qed.

Lemma fold_left_add (l : list Z) (a : Z) :
  fold_left Z.add l a = a + foldr Z.add 0 l.
Proof.
  revert a. induction l as [|x l IH]; intros a; simpl; [lia|]. rewrite IH. lia.
Qed.

Lemma sumZ_foldr (l : list Z) : sumZ l = foldr Z.add 0 l.
Proof. unfold sumZ. by rewrite fold_left_add. Qed.

Lemma fold_left_Qplus (l : list Q) (a : Q) :
  (fold_left Qplus l a == a + foldr Qplus 0 l)%Q.
Proof.
  revert a. induction l as [|x l IH]; intros a; simpl; [ring|]. rewrite IH. ring.
Qed.

Lemma sumQ_foldr (l : list Q) : (sumQ l == foldr Qplus 0 l)%Q.
Proof. unfold sumQ. rewrite fold_left_Qplus. ring. Qed.

Lemma elem_of_concat {A : Type} (x : A) (ls : list (list A)) :
  x ∈ concat ls ↔ ∃ l, x ∈ l ∧ l ∈ ls.
Proof.
  rewrite list_elem_of_In, in_concat. split.
  - intros (l & Hl & Hx). exists l. by rewrite !list_elem_of_In.
  - intros (l & Hx & Hl). exists l. by rewrite <- !list_elem_of_In.
Qed.

Lemma sublist_concat_elem {A : Type} (l : list A) (ls : list (list A)) :
  l ∈ ls → l `sublist_of` concat ls.
Proof.
  induction ls as [|l' ls IH]; intros H; [by apply elem_of_nil in H|].
  cbn. apply elem_of_cons in H as [->|H].
  - by apply sublist_inserts_r.
  - by apply sublist_inserts_l, IH.
Qed.

Lemma sublist_filter_mono {A : Type} (P : A → Prop) `{!∀ x, Decision (P x)}
    (l1 l2 : list A) :
  l1 `sublist_of` l2 → filter P l1 `sublist_of` filter P l2.
Proof.
  induction 1 as [|x l1 l2 _ IH|x l1 l2 _ IH]; [constructor| |].
  - rewrite !filter_cons. case_decide; [by constructor|done].
  - rewrite filter_cons. case_decide; [by constructor|done].
Qed.

Lemma StronglySorted_sublist {A : Type} (R : relation A) (l1 l2 : list A) :
  l1 `sublist_of` l2 → StronglySorted R l2 → StronglySorted R l1.
Proof.
  induction 1 as [|x l1 l2 Hsub IH|x l1 l2 Hsub IH]; intros Hs; [done| |].
  - apply StronglySorted_inv in Hs as [Hs Hall]. constructor; [by apply IH|].
    apply Forall_forall. intros y Hy. eapply Forall_forall in Hall; [done|].
    by eapply elem_of_sublist.
  - apply StronglySorted_inv in Hs as [Hs _]. by apply IH.
Qed.

Lemma NoDup_concat_index {A : Type} (ls : list (list A)) (i j : nat)
    (l1 l2 : list A) (x : A) :
  NoDup (concat ls) → ls !! i = Some l1 → ls !! j = Some l2 →
  x ∈ l1 → x ∈ l2 → i = j.
Proof.
  revert i j. induction ls as [|l ls IH]; intros i j Hnd Hi Hj H1 H2; [done|].
  cbn in Hnd. apply NoDup_app in Hnd as (_ & Hdisj & Hnd).
  assert (Hin : ∀ k l', ls !! k = Some l' → x ∈ l' → x ∈ concat ls).
  { intros k l' Hk Hx. apply elem_of_concat. exists l'. split; [done|].
    by eapply list_elem_of_lookup_2. }
  destruct i as [|i], j as [|j]; cbn in *.
  - done.
  - injection Hi as ->. exfalso. eapply Hdisj; eauto.
  - injection Hj as ->. exfalso. eapply Hdisj; eauto.
  - f_equal. by eapply IH.
Qed.

(** ** The order on timestamp strings *)

Lemma string_leb_iff (a b : string) :
  String.leb a b = true ↔ a = b ∨ String_as_OT.lt a b.
Proof.
  unfold String.leb. destruct (String.compare a b) eqn:E.
  - apply String_as_OT.cmp_eq in E. tauto.
  - apply String_as_OT.cmp_lt in E. tauto.
  - split; [discriminate|]. intros [->|Hlt].
    + assert (String.compare b b = Eq) by (by apply String_as_OT.cmp_eq). congruence.
    + apply String_as_OT.cmp_lt in Hlt. unfold String_as_OT.cmp in Hlt. congruence.
Qed.

Lemma string_leb_refl (a : string) : String.leb a a = true.
Proof. apply string_leb_iff. by left. Qed.

Lemma string_leb_trans (a b c : string) :
  String.leb a b = true → String.leb b c = true → String.leb a c = true.
Proof.
  rewrite !string_leb_iff. intros [->|H1] [->|H2]; auto.
  right. eapply String_as_OT.lt_trans; eauto.
Qed.

Lemma string_leb_false (a b : string) :
  String.leb a b = false → String.leb b a = true ∧ a ≠ b.
Proof.
  intros H. split.
  - destruct (String.leb_total a b) as [H'|H']; congruence.
  - intros ->. rewrite string_leb_refl in H. discriminate.
Qed.

Global Instance ts_le_trans : Transitive ts_le.
Proof. intros x y z. unfold ts_le. apply string_leb_trans. Qed.

(** ** The sort of line 53: a stable sort by timestamp *)

Lemma insert_by_timestamp_perm (x : LogRecord) (l : list LogRecord) :
  insert_by_timestamp x l ≡ₚ x :: l.
Proof.
  induction l as [|y l IH]; simpl; [done|].
  destruct (String.leb _ _); [done|]. rewrite IH. apply Permutation_swap.
Qed.

Lemma sort_by_timestamp_perm (l : list LogRecord) : sort_by_timestamp l ≡ₚ l.
Proof.
  induction l as [|x l IH]; simpl; [done|].
  rewrite insert_by_timestamp_perm. by rewrite IH.
Qed.

Lemma insert_by_timestamp_sorted (x : LogRecord) (l : list LogRecord) :
  Sorted ts_le l → Sorted ts_le (insert_by_timestamp x l).
Proof.
  induction l as [|y l IH]; simpl; intros Hs.
  - by repeat constructor.
  - destruct (String.leb (timestamp x) (timestamp y)) eqn:E.
    + constructor; [done|]. by constructor.
    + apply string_leb_false in E as [E _]. inversion Hs as [|? ? Hs' Hhd]; subst.
      constructor; [by apply IH|].
      destruct l as [|z l]; simpl; [by constructor|].
      destruct (String.leb (timestamp x) (timestamp z)); constructor; [done|].
      by inversion Hhd.
Qed.

Lemma sort_by_timestamp_sorted (l : list LogRecord) :
  StronglySorted ts_le (sort_by_timestamp l).
Proof.
  apply Sorted_StronglySorted; [apply _|].
  induction l as [|x l IH]; simpl; [constructor|].
  by apply insert_by_timestamp_sorted.
Qed.

(** Stability: the records that carry one timestamp keep the order they
    had before the sort. *)
Lemma insert_by_timestamp_stable (s : string) (x : LogRecord) (l : list LogRecord) :
  filter (fun r => timestamp r = s) (insert_by_timestamp x l)
  = filter (fun r => timestamp r = s) (x :: l).
Proof.
  induction l as [|y l IH]; simpl; [done|].
  destruct (String.leb (timestamp x) (timestamp y)) eqn:E; [done|].
  apply string_leb_false in E as [_ Hne].
  rewrite filter_cons, IH, !filter_cons.
  repeat case_decide; congruence.
Qed.

Lemma sort_by_timestamp_stable (s : string) (l : list LogRecord) :
  filter (fun r => timestamp r = s) (sort_by_timestamp l)
  = filter (fun r => timestamp r = s) l.
Proof.
  induction l as [|x l IH]; simpl; [done|].
  rewrite insert_by_timestamp_stable, !filter_cons, IH. done.
Qed.

(** A stable sort has one possible result: a list that is sorted by
    timestamp and keeps, for every timestamp, the records that carry it in
    the order of [l] is [sort_by_timestamp l], by whatever algorithm it was
    obtained. *)
Lemma stable_sorted_unique (l1 l2 : list LogRecord) :
  StronglySorted ts_le l1 → StronglySorted ts_le l2 →
  (∀ s, filter (fun r => timestamp r = s) l1 = filter (fun r => timestamp r = s) l2) →
  l1 = l2.
Proof.
  revert l2. induction l1 as [|x l1 IH]; intros l2 Hs1 Hs2 Hf.
  - destruct l2 as [|y l2]; [done|].
    specialize (Hf (timestamp y)). rewrite filter_cons_True in Hf by done. done.
  - apply StronglySorted_inv in Hs1 as [Hs1 Hx].
    destruct l2 as [|y l2].
    { specialize (Hf (timestamp x)). rewrite filter_cons_True in Hf by done. done. }
    apply StronglySorted_inv in Hs2 as [Hs2 Hy].
    assert (x = y) as <-.
    { pose proof (Hf (timestamp x)) as Hfx. rewrite filter_cons_True in Hfx by done.
      destruct (decide (timestamp y = timestamp x)) as [Heq|Hne].
      { rewrite filter_cons_True in Hfx by done. by injection Hfx. }
      exfalso. rewrite filter_cons_False in Hfx by done.
      assert (Hxin : x ∈ l2).
      { assert (H : x ∈ filter (fun r => timestamp r = timestamp x) l2)
          by (rewrite <- Hfx; left).
        by apply list_elem_of_filter in H as [_ ?]. }
      assert (Hyin : y ∈ l1).
      { pose proof (Hf (timestamp y)) as Hfy.
        rewrite filter_cons_False in Hfy by done.
        rewrite (filter_cons_True _ y) in Hfy by done.
        assert (H : y ∈ filter (fun r => timestamp r = timestamp y) l1)
          by (rewrite Hfy; left).
        by apply list_elem_of_filter in H as [_ ?]. }
      eapply Forall_forall in Hx; [|done]. eapply Forall_forall in Hy; [|done].
      apply Hne. by apply String.leb_antisym. }
    f_equal. apply IH; [done|done|]. intros s. specialize (Hf s).
    rewrite !filter_cons in Hf. case_decide; [by injection Hf|done].
Qed.

Lemma sort_by_timestamp_unique (l l' : list LogRecord) :
  StronglySorted ts_le l' →
  (∀ s, filter (fun r => timestamp r = s) l' = filter (fun r => timestamp r = s) l) →
  l' = sort_by_timestamp l.
Proof.
  intros Hs Hf. apply stable_sorted_unique; [done|apply sort_by_timestamp_sorted|].
  intros s. by rewrite sort_by_timestamp_stable.
Qed.

(** ** The partitioner *)

Lemma blocks_append_keys (k : string) (r : LogRecord)
    (bs : list (string * list LogRecord)) :
  (blocks_append k r bs).*1 = if decide (k ∈ bs.*1) then bs.*1 else bs.*1 ++ [k].
Proof.
  induction bs as [|[k' ls] bs IH]; [done|].
  cbn [blocks_append].
  destruct (String.eqb_spec k' k) as [->|Hne]; rewrite !fmap_cons; cbn [fst].
    + rewrite decide_True by left. done.
    + rewrite IH. destruct (decide (k ∈ bs.*1)) as [Hin|Hnin].
      * rewrite decide_True by (by right). done.
      * rewrite decide_False; [done|]. intros [?|?]%elem_of_cons; congruence.
Qed.

Lemma blocks_append_elem (k : string) (r : LogRecord)
    (bs : list (string * list LogRecord)) (k' : string) (ls' : list LogRecord) :
  NoDup bs.*1 →
  (k', ls') ∈ blocks_append k r bs →
  (k' ≠ k ∧ (k', ls') ∈ bs)
  ∨ (k' = k ∧ ∃ ls, ls' = ls ++ [r] ∧ ((k, ls) ∈ bs ∨ (ls = [] ∧ k ∉ bs.*1))).
Proof.
  induction bs as [|[k0 ls0] bs IH]; simpl; intros Hnd Hin.
  - apply list_elem_of_singleton in Hin as [= -> ->]. right. split; [done|].
    exists []. split; [done|]. right. split; [done|]. apply not_elem_of_nil.
  - apply NoDup_cons in Hnd as [Hk0 Hnd].
    destruct (String.eqb_spec k0 k) as [->|Hne].
    + apply elem_of_cons in Hin as [[= -> ->]|Hin].
      * right. split; [done|]. exists ls0. split; [done|]. left. left.
      * left. split; [|by right]. intros ->. apply Hk0.
        apply list_elem_of_fmap. by exists (k, ls').
    + apply elem_of_cons in Hin as [[= -> ->]|Hin].
      * left. split; [done|]. left.
      * destruct (IH Hnd Hin) as [[? ?]|(-> & ls & -> & H)].
        -- left. split; [done|]. by right.
        -- right. split; [done|]. exists ls. split; [done|].
           destruct H as [H|[-> H]]; [left; by right|right].
           split; [done|]. intros [?|?]%elem_of_cons; [congruence|by apply H].
Qed.

Lemma blocks_append_concat (k : string) (r : LogRecord)
    (bs : list (string * list LogRecord)) :
  concat (blocks_append k r bs).*2 ≡ₚ r :: concat bs.*2.
Proof.
  induction bs as [|[k' ls] bs IH]; simpl; [done|].
  destruct (String.eqb k' k); simpl.
  - rewrite <- app_assoc. simpl. by rewrite <- Permutation_middle.
  - rewrite IH. by rewrite <- Permutation_middle.
Qed.

(** What the dictionary [blocks] holds once the records [seen] have been
    appended: one entry per key, each holding the records of that key in
    the order of the input. *)
Definition blocks_inv (bs : list (string * list LogRecord))
    (seen : list LogRecord) : Prop :=
  NoDup bs.*1
  ∧ (∀ k ls, (k, ls) ∈ bs → ls = filter (same_block k) seen ∧ ls ≠ [])
  ∧ (∀ r, r ∈ seen → block_key r ∈ bs.*1).

Lemma blocks_append_inv (r : LogRecord) (bs : list (string * list LogRecord))
    (seen : list LogRecord) :
  blocks_inv bs seen → blocks_inv (blocks_append (block_key r) r bs) (seen ++ [r]).
Proof.
  intros (Hnd & Hblk & Hcov). split; [|split].
  - rewrite blocks_append_keys. case_decide as Hin; [done|].
    apply NoDup_app. split; [done|]. split; [|apply NoDup_singleton].
    intros x Hx Hx'. apply list_elem_of_singleton in Hx'. by subst.
  - intros k ls Hin. apply blocks_append_elem in Hin; [|done].
    rewrite filter_app, filter_cons, filter_nil. unfold same_block at 2 4.
    destruct Hin as [[Hne Hin]|(-> & ls0 & -> & Hin)].
    + destruct (Hblk _ _ Hin) as [-> Hnil].
      rewrite decide_False by congruence. by rewrite app_nil_r.
    + rewrite decide_True by done. split; [|by destruct ls0].
      f_equal. destruct Hin as [Hin|[-> Hnin]]; [by apply Hblk|].
      destruct (filter (same_block (block_key r)) seen) as [|x l] eqn:E; [done|].
      exfalso. assert (Hx : x ∈ filter (same_block (block_key r)) seen)
        by (rewrite E; left).
      apply list_elem_of_filter in Hx as [Hk Hx].
      apply Hnin. rewrite <- Hk. by apply Hcov.
  - intros x Hx. rewrite blocks_append_keys.
    apply elem_of_app in Hx as [Hx|Hx].
    + case_decide; [by apply Hcov|]. apply elem_of_app. left. by apply Hcov.
    + apply list_elem_of_singleton in Hx. subst x.
      case_decide; [done|]. apply elem_of_app. right. left.
Qed.

Lemma partition_blocks_fold (todo : list LogRecord)
    (bs : list (string * list LogRecord)) (seen : list LogRecord) :
  blocks_inv bs seen →
  blocks_inv (fold_left (fun blocks log => blocks_append (block_key log) log blocks)
                        todo bs) (seen ++ todo).
Proof.
  revert bs seen. induction todo as [|r todo IH]; intros bs seen Hinv; simpl.
  - by rewrite app_nil_r.
  - replace (seen ++ r :: todo) with ((seen ++ [r]) ++ todo)
      by (by rewrite <- app_assoc).
    apply IH. by apply blocks_append_inv.
Qed.

Lemma partition_blocks_inv (lwb : list LogRecord) :
  blocks_inv (partition_blocks lwb) lwb.
Proof.
  apply (partition_blocks_fold lwb [] []). split; [constructor|]. split.
  - intros k ls H. by apply elem_of_nil in H.
  - intros r H. by apply elem_of_nil in H.
Qed.

Lemma partition_blocks_perm (lwb : list LogRecord) :
  concat (partition_blocks lwb).*2 ≡ₚ lwb.
Proof.
  unfold partition_blocks.
  enough (H : ∀ todo bs,
    concat (fold_left (fun blocks log => blocks_append (block_key log) log blocks)
                      todo bs).*2 ≡ₚ concat bs.*2 ++ todo)
    by (by rewrite H).
  induction todo as [|r todo IH]; intros bs; simpl.
  - by rewrite app_nil_r.
  - rewrite IH, blocks_append_concat. by rewrite <- Permutation_middle.
Qed.

(** ** The aggregator *)

Section GrouperProofs.

Variable fromisoformat : string → option Z.
Variable isoformat : Z → string.

Local Abbreviation parse := (parse_timestamp fromisoformat).
Local Abbreviation create := (_create_incident fromisoformat isoformat).
Local Abbreviation time := (time_of fromisoformat).
Local Abbreviation parses := (fun r : LogRecord => is_Some (fromisoformat (timestamp r))).
Local Abbreviation fields := (incident_fields isoformat).

Lemma parse_Ok (r : LogRecord) : parses r → parse r = Ok (time r).
Proof.
  intros [t Ht]. unfold parse_timestamp, time_of. by rewrite Ht.
Qed.

Lemma parse_inv (r : LogRecord) (t : Z) :
  parse r = Ok t → parses r ∧ t = time r.
Proof.
  unfold parse_timestamp, time_of.
  destruct (fromisoformat (timestamp r)) as [t'|]; [|discriminate].
  intros [= <-]. by eauto.
Qed.

Lemma mapM_parse_Ok (ls : list LogRecord) :
  Forall parses ls → mapM parse ls = Ok (time <$> ls).
Proof.
  induction 1 as [|r ls Hr _ IH]; [done|].
  cbn. rewrite (parse_Ok r Hr). cbn. rewrite IH. done.
Qed.

Lemma mapM_parse_inv (ls : list LogRecord) (ts : list Z) :
  mapM parse ls = Ok ts → Forall parses ls ∧ ts = time <$> ls.
Proof.
  revert ts. induction ls as [|r ls IH]; intros ts H.
  - injection H as <-. by split.
  - cbn in H. inv_bind H. apply parse_inv in Hx as [Hr ->].
    destruct (IH _ Hx0) as [Hls ->]. subst ts. split; [by constructor|done].
Qed.

Lemma create_incident_inv (id : Z) (bid : string) (ls : list LogRecord)
    (inc : Incident) :
  create id bid ls = Ok inc →
  ls ≠ [] ∧ Forall parses ls ∧ ∃ mn mx sev,
    py_min (time <$> ls) = Ok mn ∧ py_max (time <$> ls) = Ok mx
    ∧ py_max_by level_priority_get (level <$> ls) = Ok sev
    ∧ inc = fields id bid ls mn mx sev.
Proof.
  unfold _create_incident. intros H. inv_bind H.
  apply mapM_parse_inv in Hx as [Hp ->].
  split; [by intros ->|]. split; [done|]. exists x0, x1, x2. by subst.
Qed.

Lemma create_incident_Ok (id : Z) (bid : string) (ls : list LogRecord) :
  ls ≠ [] → Forall parses ls → ∃ inc, create id bid ls = Ok inc.
Proof.
  intros Hne Hp. unfold _create_incident. rewrite (mapM_parse_Ok _ Hp). cbn.
  destruct ls as [|r ls]; [done|]. cbn. eauto.
Qed.

Lemma create_incident_logs (id : Z) (bid : string) (ls : list LogRecord)
    (inc : Incident) :
  create id bid ls = Ok inc →
  logs inc = ls ∧ incident_id inc = id ∧ inc_block_id inc = bid.
Proof.
  intros H. apply create_incident_inv in H as (_ & _ & mn & mx & sev & _ & _ & _ & ->).
  done.
Qed.

(** ** The clusterer refines the rule of the specification *)

Variable self : IncidentGrouper.
Local Abbreviation window := (time_window self).
Local Abbreviation creates := (create_incidents fromisoformat isoformat).
Local Abbreviation loop := (cluster_loop fromisoformat isoformat self).

Local Arguments _create_incident : simpl never.

Lemma extend_nil (g : GroupState) : extend g [] = g.
Proof. destruct g. unfold extend. cbn. f_equal; [apply app_nil_r|lia]. Qed.

Lemma extend_extend (g : GroupState) (l1 l2 : list Incident) :
  extend (extend g l1) l2 = extend g (l1 ++ l2).
Proof.
  unfold extend. cbn. f_equal; [by rewrite app_assoc|].
  rewrite length_app. lia.
Qed.

Lemma flush_incident_nonempty (bid : string) (cur : list LogRecord) (g : GroupState) :
  cur ≠ [] →
  flush_incident fromisoformat isoformat bid cur g
  = (inc ← create (next_incident_id g) bid cur; Ok (extend g [inc])).
Proof. destruct cur; [done|]. intros _. reflexivity. Qed.

Lemma cluster_loop_refines (bid : string) (rest cur : list LogRecord)
    (anchor : Z) (g : GroupState) :
  cur ≠ [] → Forall parses rest →
  ('(c, g') ← loop bid ({| current_incident := cur;
                           current_start_time := Some anchor |}, g) rest;
   flush_incident fromisoformat isoformat bid (current_incident c) g')
  = (incs ← creates (next_incident_id g) bid
              (clusters_from window time anchor cur rest).*2;
     Ok (extend g incs)).
Proof.
  intros Hne Hp. revert cur anchor g Hne.
  induction Hp as [|r rest Hr _ IH]; intros cur anchor g Hne.
  - cbn. rewrite flush_incident_nonempty by done.
    destruct (create _ _ _); reflexivity.
  - cbn [cluster_loop clusters_from]. unfold cluster_step at 1.
    rewrite (parse_Ok r Hr). cbn.
    destruct (time r - anchor <=? window).
    + cbn. apply IH. by destruct cur.
    + rewrite flush_incident_nonempty by done. cbn.
      destruct (create (next_incident_id g) bid cur) as [inc|e]; [|done]. cbn.
      rewrite IH by done. cbn.
      destruct (creates _ _ _) as [incs|e]; [|done]. cbn.
      by rewrite extend_extend.
Qed.

Lemma cluster_loop_parses (bid : string) (rest : list LogRecord)
    (st st' : ClusterState * GroupState) :
  loop bid st rest = Ok st' → Forall parses rest.
Proof.
  revert st. induction rest as [|r rest IH]; intros st H; [constructor|].
  cbn in H. inv_bind H. constructor; [|by eapply IH].
  unfold cluster_step in Hx. destruct st as [c g]. inv_bind Hx.
  by apply parse_inv in Hx0 as [? _].
Qed.

Lemma Forall_parses_sort (bl : list LogRecord) :
  Forall parses (sort_by_timestamp bl) ↔ Forall parses bl.
Proof. by rewrite sort_by_timestamp_perm. Qed.

Lemma cluster_block_parses (bid : string) (bl : list LogRecord) (g g' : GroupState) :
  cluster_block fromisoformat isoformat self g (bid, bl) = Ok g' →
  Forall parses bl.
Proof.
  unfold cluster_block. intros H. inv_bind H. destruct x as [c g1].
  apply Forall_parses_sort. by eapply cluster_loop_parses.
Qed.

Lemma cluster_block_refines (bid : string) (bl : list LogRecord) (g : GroupState) :
  Forall parses bl →
  cluster_block fromisoformat isoformat self g (bid, bl)
  = (incs ← creates (next_incident_id g) bid
              (temporal_clusters window time (sort_by_timestamp bl)).*2;
     Ok (extend g incs)).
Proof.
  intros Hp. apply Forall_parses_sort in Hp. unfold cluster_block.
  destruct (sort_by_timestamp bl) as [|r rest]; cbn.
  - by rewrite extend_nil.
  - apply Forall_cons in Hp as [Hr Hp]. rewrite (parse_Ok r Hr). cbn.
    by apply cluster_loop_refines.
Qed.

(** *** Properties of the rule *)

Lemma clusters_from_concat (w a : Z) (f : LogRecord → Z) (cur rest : list LogRecord) :
  concat (clusters_from w f a cur rest).*2 = cur ++ rest.
Proof.
  revert a cur. induction rest as [|r rest IH]; intros a cur; cbn.
  - by rewrite app_nil_r.
  - destruct (f r - a <=? w); cbn.
    + rewrite IH. by rewrite <- app_assoc.
    + by rewrite IH.
Qed.

Lemma temporal_clusters_concat (w : Z) (f : LogRecord → Z) (l : list LogRecord) :
  concat (temporal_clusters w f l).*2 = l.
Proof. destruct l as [|r l]; [done|]. cbn. by rewrite clusters_from_concat. Qed.

Lemma clusters_from_head (w a : Z) (f : LogRecord → Z) (cur rest : list LogRecord) :
  ∃ m tl, clusters_from w f a cur rest = (a, m) :: tl.
Proof.
  revert cur. induction rest as [|r rest IH]; intros cur; cbn; [by eauto|].
  destruct (f r - a <=? w); eauto.
Qed.

Lemma clusters_from_anchored (w a : Z) (f : LogRecord → Z) (cur rest : list LogRecord) :
  anchored w f (a, cur) → Forall (anchored w f) (clusters_from w f a cur rest).
Proof.
  revert a cur. induction rest as [|r rest IH]; intros a cur Hc; cbn.
  - by constructor.
  - destruct (Z.leb_spec (f r - a) w) as [Hle|Hgt].
    + apply IH. destruct Hc as (r0 & tl & Hcur & Ha & Htl). cbn in *. subst cur.
      exists r0, (tl ++ [r]). cbn. split; [done|]. split; [done|].
      apply Forall_app. split; [done|]. by repeat constructor.
    + constructor; [done|]. apply IH. exists r, []. cbn. by repeat split.
Qed.

Lemma temporal_clusters_anchored (w : Z) (f : LogRecord → Z) (l : list LogRecord) :
  Forall (anchored w f) (temporal_clusters w f l).
Proof.
  destruct l as [|r l]; [constructor|]. cbn. apply clusters_from_anchored.
  exists r, []. cbn. by repeat split.
Qed.

(** A cluster is closed only by a record that lies beyond the window of its
    anchor, and that record is the anchor of the next cluster. *)
Lemma clusters_from_gap (w a : Z) (f : LogRecord → Z) (cur rest : list LogRecord)
    (i : nat) (c1 c2 : Z * list LogRecord) :
  clusters_from w f a cur rest !! i = Some c1 →
  clusters_from w f a cur rest !! S i = Some c2 →
  w < c2.1 - c1.1.
Proof.
  revert a cur i. induction rest as [|r rest IH]; intros a cur i; cbn.
  - intros _ H. by destruct i.
  - destruct (Z.leb_spec (f r - a) w) as [Hle|Hgt]; [by apply IH|].
    destruct i as [|i]; cbn.
    + intros [= <-].
      destruct (clusters_from_head w (f r) f [r] rest) as (m & tl & ->).
      intros [= <-]. cbn. lia.
    + apply IH.
Qed.

Lemma temporal_clusters_gap (w : Z) (f : LogRecord → Z) (l : list LogRecord)
    (i : nat) (c1 c2 : Z * list LogRecord) :
  temporal_clusters w f l !! i = Some c1 →
  temporal_clusters w f l !! S i = Some c2 →
  w < c2.1 - c1.1.
Proof. destruct l as [|r l]; [done|]. apply clusters_from_gap. Qed.

(** *** The aggregator over a sequence of clusters *)

Lemma creates_inv (id : Z) (bid : string) (cls : list (list LogRecord))
    (incs : list Incident) :
  creates id bid cls = Ok incs →
  Forall2 (fun c inc => ∃ id', create id' bid c = Ok inc) cls incs.
Proof.
  revert id incs. induction cls as [|c cls IH]; intros id incs H.
  - injection H as <-. constructor.
  - cbn in H. inv_bind H. subst incs. constructor; [by eauto|by eapply IH].
Qed.

Lemma creates_Ok (id : Z) (bid : string) (cls : list (list LogRecord)) :
  Forall (fun c => c ≠ [] ∧ Forall parses c) cls →
  ∃ incs, creates id bid cls = Ok incs.
Proof.
  intros H. revert id. induction H as [|c cls [Hne Hp] _ IH]; intros id.
  - by exists [].
  - cbn. destruct (create_incident_Ok id bid c Hne Hp) as [inc ->].
    destruct (IH (id + 1)) as [incs ->]. cbn. eauto.
Qed.

Lemma creates_logs (id : Z) (bid : string) (cls : list (list LogRecord))
    (incs : list Incident) :
  creates id bid cls = Ok incs → logs <$> incs = cls.
Proof.
  intros H. apply creates_inv in H. induction H as [|c inc cls incs [id' Hc] _ IH].
  - done.
  - cbn. apply create_incident_logs in Hc as (-> & _ & _). by rewrite IH.
Qed.

(** *** All blocks *)

Local Abbreviation of_block := (block_incidents fromisoformat isoformat window).

Lemma cluster_blocks_inv (bs : list (string * list LogRecord)) (g g' : GroupState) :
  cluster_blocks fromisoformat isoformat self g bs = Ok g' →
  ∃ incss, g' = extend g (concat incss) ∧ Forall2 of_block bs incss.
Proof.
  revert g. induction bs as [|[bid bl] bs IH]; intros g H.
  - injection H as <-. exists []. split; [by rewrite extend_nil|constructor].
  - cbn [cluster_blocks] in H. inv_bind H.
    pose proof (cluster_block_parses _ _ _ _ Hx) as Hp.
    rewrite cluster_block_refines in Hx by done. inv_bind Hx. subst x.
    destruct (IH _ H) as (incss & -> & Hall).
    exists (x0 :: incss). split; [by rewrite extend_extend|].
    constructor; [|done]. split; [done|]. by eauto.
Qed.

Lemma temporal_clusters_creatable (bl : list LogRecord) :
  Forall parses bl →
  Forall (fun c => c ≠ [] ∧ Forall parses c)
         (temporal_clusters window time (sort_by_timestamp bl)).*2.
Proof.
  intros Hp. apply Forall_parses_sort in Hp.
  rewrite <- (temporal_clusters_concat window time (sort_by_timestamp bl)) in Hp.
  pose proof (temporal_clusters_anchored window time (sort_by_timestamp bl)) as Ha.
  induction Ha as [|[a c] cls (r0 & tl & Hc & _) _ IH]; [constructor|].
  cbn in *. apply Forall_app in Hp as [Hc' Hp]. constructor; [|by apply IH].
  split; [by subst c|done].
Qed.

Lemma cluster_blocks_Ok (bs : list (string * list LogRecord)) (g : GroupState) :
  Forall (fun b => Forall parses b.2) bs →
  ∃ g', cluster_blocks fromisoformat isoformat self g bs = Ok g'.
Proof.
  intros H. revert g. induction H as [|[bid bl] bs Hp _ IH]; intros g.
  - by exists g.
  - cbn [cluster_blocks]. cbn in Hp. rewrite cluster_block_refines by done.
    destruct (creates_Ok (next_incident_id g) bid _ (temporal_clusters_creatable bl Hp))
      as [incs ->]. cbn. apply IH.
Qed.

Lemma build_incidents_inv (batch : list LogRecord) (incs : list Incident) :
  build_incidents fromisoformat isoformat self batch = Ok incs →
  ∃ incss, incs = concat incss
    ∧ Forall2 of_block (partition_blocks (logs_with_blocks batch)) incss.
Proof.
  unfold build_incidents. intros H. inv_bind H. subst incs.
  apply cluster_blocks_inv in Hx as (incss & -> & Hall). by exists incss.
Qed.

Lemma partition_blocks_subset (lwb : list LogRecord) (k : string)
    (bl : list LogRecord) :
  (k, bl) ∈ partition_blocks lwb → bl = filter (same_block k) lwb ∧ bl ≠ [].
Proof. intros H. by apply (partition_blocks_inv lwb). Qed.

Lemma build_incidents_Ok (batch : list LogRecord) :
  Forall parses (logs_with_blocks batch) →
  ∃ incs, build_incidents fromisoformat isoformat self batch = Ok incs.
Proof.
  intros Hp. unfold build_incidents.
  destruct (cluster_blocks_Ok (partition_blocks (logs_with_blocks batch))
              {| incidents := []; next_incident_id := 1 |}) as [g' ->]; [|by eauto].
  apply Forall_forall. intros [k bl] Hin. cbn.
  apply partition_blocks_subset in Hin as [-> _].
  apply Forall_forall. intros r Hr. apply list_elem_of_filter in Hr as [_ Hr].
  by eapply Forall_forall in Hp.
Qed.

(** The member records of the incidents, in the order of the incidents, are
    the sorted blocks in the order of the dictionary. *)
Lemma of_block_logs (b : string * list LogRecord) (incs : list Incident) :
  of_block b incs → concat (logs <$> incs) = sort_by_timestamp b.2.
Proof.
  intros [_ [id H]]. apply creates_logs in H. rewrite H.
  apply temporal_clusters_concat.
Qed.

Lemma build_incidents_concat (batch : list LogRecord) (incs : list Incident) :
  build_incidents fromisoformat isoformat self batch = Ok incs →
  concat (logs <$> incs)
  = concat (sort_by_timestamp <$> (partition_blocks (logs_with_blocks batch)).*2).
Proof.
  intros H. apply build_incidents_inv in H as (incss & -> & Hall).
  induction Hall as [|b incs bs incss Hb _ IH]; [done|].
  cbn. rewrite fmap_app, concat_app, IH. f_equal. by apply of_block_logs.
Qed.

Lemma build_incidents_perm (batch : list LogRecord) (incs : list Incident) :
  build_incidents fromisoformat isoformat self batch = Ok incs →
  concat (logs <$> incs) ≡ₚ logs_with_blocks batch.
Proof.
  intros H. rewrite (build_incidents_concat _ _ H).
  rewrite <- (partition_blocks_perm (logs_with_blocks batch)) at 2.
  generalize (partition_blocks (logs_with_blocks batch)).*2.
  induction l as [|bl l IH]; [done|]. cbn.
  by rewrite IH, sort_by_timestamp_perm.
Qed.

(** Where an incident comes from. *)
Lemma incident_origin (batch : list LogRecord) (incs : list Incident)
    (inc : Incident) :
  build_incidents fromisoformat isoformat self batch = Ok incs →
  inc ∈ incs →
  ∃ k bl a, (k, bl) ∈ partition_blocks (logs_with_blocks batch)
    ∧ Forall parses bl
    ∧ (a, logs inc) ∈ temporal_clusters window time (sort_by_timestamp bl)
    ∧ create (incident_id inc) k (logs inc) = Ok inc.
Proof.
  intros H Hin. apply build_incidents_inv in H as (incss & -> & Hall).
  apply elem_of_concat in Hin as (incs & Hin & Hincs).
  apply list_elem_of_lookup in Hincs as [i Hi].
  destruct (Forall2_lookup_r _ _ _ _ _ Hall Hi) as ([k bl] & Hb & Hp & id & Hcr).
  cbn in *. exists k, bl.
  apply creates_inv in Hcr.
  apply list_elem_of_lookup in Hin as [j Hj].
  destruct (Forall2_lookup_r _ _ _ _ _ Hcr Hj) as (c & Hc & id' & Hcreate).
  apply list_lookup_fmap_Some in Hc as ([a c'] & -> & Hc). cbn in *.
  pose proof (create_incident_logs _ _ _ _ Hcreate) as (Hl & Hid & _).
  exists a. split; [by eapply list_elem_of_lookup_2|]. split; [done|].
  rewrite Hl, Hid. split; [by eapply list_elem_of_lookup_2|done].
Qed.

(** *** The summary line 83 *)

Lemma py_div_length (a : Q) (n : nat) :
  py_div a (inject_Z (Z.of_nat n))
  = match n with
    | O => Raise ZeroDivisionError
    | S _ => Ok (a / inject_Z (Z.of_nat n))%Q
    end.
Proof. destruct n; reflexivity. Qed.

Lemma group_incidents_inv (batch : list LogRecord) (incs : list Incident) :
  group_incidents fromisoformat isoformat self batch = Ok incs →
  build_incidents fromisoformat isoformat self batch = Ok incs ∧ incs ≠ [].
Proof.
  unfold group_incidents. intros H. inv_bind H. subst x.
  split; [done|]. intros ->. discriminate.
Qed.

Lemma group_incidents_build (batch : list LogRecord) (incs : list Incident) :
  build_incidents fromisoformat isoformat self batch = Ok incs →
  logs_with_blocks batch ≠ [] →
  group_incidents fromisoformat isoformat self batch = Ok incs.
Proof.
  intros H Hne. unfold group_incidents. rewrite H. cbn [mbind result_bind].
  rewrite py_div_length. destruct incs as [|inc incs]; [|done].
  apply build_incidents_perm in H. cbn in H.
  apply Permutation_nil_l in H. done.
Qed.

Lemma group_incidents_no_keys (batch : list LogRecord) :
  logs_with_blocks batch = [] →
  group_incidents fromisoformat isoformat self batch = Raise ZeroDivisionError.
Proof. intros H. unfold group_incidents, build_incidents. by rewrite H. Qed.

(** *** Every incident of a run is the aggregate of its own members *)

Lemma incident_created (batch : list LogRecord) (incs : list Incident)
    (inc : Incident) :
  build_incidents fromisoformat isoformat self batch = Ok incs →
  inc ∈ incs →
  create (incident_id inc) (inc_block_id inc) (logs inc) = Ok inc.
Proof.
  intros H Hin.
  destruct (incident_origin _ _ _ H Hin) as (k & bl & a & _ & _ & _ & Hc).
  pose proof (create_incident_logs _ _ _ _ Hc) as (_ & _ & ->). done.
Qed.

Lemma timestamps_parse_Forall (l : list LogRecord) :
  timestamps_parse fromisoformat l = true ↔ Forall parses l.
Proof.
  unfold timestamps_parse. rewrite forallb_forall, Forall_forall.
  split; intros H r Hr.
  - apply list_elem_of_In, H in Hr. by apply bool_decide_eq_true in Hr.
  - apply bool_decide_eq_true, H. by apply list_elem_of_In.
Qed.

(** *** Severity *)

Lemma create_incident_severity (id : Z) (bid : string) (ls : list LogRecord)
    (inc : Incident) :
  create id bid ls = Ok inc →
  ∃ (i : nat) r, ls !! i = Some r ∧ severity inc = level r
    ∧ (∀ r', r' ∈ ls →
         level_priority_get (level r') ≤ level_priority_get (level r))
    ∧ (∀ (j : nat) r', (j < i)%nat → ls !! j = Some r' →
         level_priority_get (level r') < level_priority_get (level r)).
Proof.
  intros H.
  apply create_incident_inv in H as (_ & _ & mn & mx & sev & _ & _ & Hsev & ->).
  apply py_max_by_spec in Hsev as (i & Hi & Hmax & Hfirst).
  apply list_lookup_fmap_Some in Hi as (r & -> & Hi).
  exists i, r. split; [done|]. split; [done|]. split.
  - intros r' Hr'. apply Hmax. apply list_elem_of_fmap. by exists r'.
  - intros j r' Hj Hr'. apply (Hfirst j); [done|].
    by rewrite list_lookup_fmap, Hr'.
Qed.

(** *** Members of an incident *)

Lemma incident_members (batch : list LogRecord) (incs : list Incident)
    (inc : Incident) :
  build_incidents fromisoformat isoformat self batch = Ok incs →
  inc ∈ incs →
  ∃ bl a,
    bl = filter (same_block (inc_block_id inc)) (logs_with_blocks batch)
    ∧ Forall parses bl
    ∧ logs inc `sublist_of` sort_by_timestamp bl
    ∧ anchored window time (a, logs inc)
    ∧ create (incident_id inc) (inc_block_id inc) (logs inc) = Ok inc.
Proof.
  intros H Hin.
  destruct (incident_origin _ _ _ H Hin) as (k & bl & a & Hbl & Hp & Hcl & Hc).
  pose proof (create_incident_logs _ _ _ _ Hc) as (_ & _ & Hk).
  apply partition_blocks_subset in Hbl as [Hbl _].
  exists bl, a. rewrite Hk. split; [done|]. split; [done|]. split; [|split; [|done]].
  - rewrite <- (temporal_clusters_concat window time (sort_by_timestamp bl)).
    apply sublist_concat_elem. apply list_elem_of_fmap. by exists (a, logs inc).
  - pose proof (temporal_clusters_anchored window time (sort_by_timestamp bl)) as Ha.
    by eapply Forall_forall in Ha.
Qed.

Lemma incident_member_of_batch (batch : list LogRecord) (incs : list Incident)
    (inc : Incident) (r : LogRecord) :
  build_incidents fromisoformat isoformat self batch = Ok incs →
  inc ∈ incs → r ∈ logs inc →
  r ∈ logs_with_blocks batch ∧ block_key r = inc_block_id inc ∧ parses r.
Proof.
  intros H Hin Hr.
  destruct (incident_members _ _ _ H Hin) as (bl & a & Hbl & Hp & Hsub & _).
  eapply elem_of_sublist in Hr; [|done].
  rewrite sort_by_timestamp_perm in Hr.
  split; [|split].
  - subst bl. by apply list_elem_of_filter in Hr as [_ ?].
  - subst bl. by apply list_elem_of_filter in Hr as [? _].
  - by eapply Forall_forall in Hp.
Qed.

Lemma chronological_spec (l : list LogRecord) (r1 r2 : LogRecord) :
  chronological fromisoformat l = true →
  r1 ∈ l → r2 ∈ l → parses r1 → parses r2 → ts_le r1 r2 → time r1 ≤ time r2.
Proof.
  unfold chronological. rewrite forallb_forall. intros H H1 H2 [t1 Ht1] [t2 Ht2] Hle.
  apply list_elem_of_In, H in H1. rewrite forallb_forall in H1.
  apply list_elem_of_In, H1 in H2. unfold order_agrees in H2.
  unfold time_of. rewrite Ht1, Ht2 in *. cbn. unfold ts_le in Hle.
  rewrite Hle in H2. cbn in H2. lia.
Qed.

Lemma StronglySorted_impl_elem {A : Type} (R R' : relation A) (l : list A) :
  (∀ x y, x ∈ l → y ∈ l → R x y → R' x y) →
  StronglySorted R l → StronglySorted R' l.
Proof.
  intros Himp Hs. induction Hs as [|x l Hs IH Hall]; [constructor|].
  constructor.
  - apply IH. intros y z Hy Hz. apply Himp; by right.
  - apply Forall_forall. intros y Hy. apply Himp; [left|by right|].
    by eapply Forall_forall in Hall.
Qed.

(** *** Identifiers *)

Lemma creates_ids (id : Z) (bid : string) (cls : list (list LogRecord))
    (incs : list Incident) :
  creates id bid cls = Ok incs →
  ∀ (i : nat) inc, incs !! i = Some inc → incident_id inc = id + Z.of_nat i.
Proof.
  revert id incs. induction cls as [|c cls IH]; intros id incs H i inc Hi.
  - injection H as <-. done.
  - cbn in H. inv_bind H. subst incs. destruct i as [|i]; cbn in Hi.
    + injection Hi as <-. apply create_incident_logs in Hx as (_ & -> & _). lia.
    + rewrite (IH _ _ Hx0 i inc Hi). lia.
Qed.

Lemma cluster_blocks_ids (bs : list (string * list LogRecord)) (g g' : GroupState) :
  cluster_blocks fromisoformat isoformat self g bs = Ok g' →
  ∃ incs, g' = extend g incs
    ∧ ∀ (i : nat) inc, incs !! i = Some inc →
        incident_id inc = next_incident_id g + Z.of_nat i.
Proof.
  revert g. induction bs as [|[bid bl] bs IH]; intros g H.
  - injection H as <-. exists []. split; [by rewrite extend_nil|done].
  - cbn [cluster_blocks] in H. inv_bind H.
    pose proof (cluster_block_parses _ _ _ _ Hx) as Hp.
    rewrite cluster_block_refines in Hx by done. inv_bind Hx. subst x.
    destruct (IH _ H) as (incs & -> & Hids).
    exists (x0 ++ incs). split; [by rewrite extend_extend|].
    intros i inc Hi. apply lookup_app_Some in Hi as [Hi|[Hlen Hi]].
    + by eapply creates_ids.
    + rewrite (Hids _ _ Hi). cbn. lia.
Qed.

(** *** What can be raised *)

Lemma bind_Raise {A B : Type} (m : result A) (k : A → result B) (e : exn) :
  m ≫= k = Raise e ↔ m = Raise e ∨ ∃ a, m = Ok a ∧ k a = Raise e.
Proof.
  destruct m as [a|e']; cbn; split.
  - intros H. right. by exists a.
  - intros [H|(a' & [= <-] & H)]; done.
  - intros [= <-]. by left.
  - intros [[= <-]|(a' & H & _)]; done.
Qed.

Lemma mapM_parse_Raise (ls : list LogRecord) (e : exn) :
  mapM parse ls = Raise e → e = ValueError.
Proof.
  induction ls as [|r ls IH]; [done|]. intros H.
  change (mapM parse (r :: ls))
    with (y ← parse r; k ← mapM parse ls; mret (y :: k)) in H.
  apply bind_Raise in H as [H|(t & _ & H)].
  - unfold parse_timestamp in H. destruct (fromisoformat _); [done|].
    by injection H as <-.
  - apply bind_Raise in H as [H|(k & _ & H)]; [by apply IH|done].
Qed.

Lemma create_incident_Raise (id : Z) (bid : string) (ls : list LogRecord) (e : exn) :
  create id bid ls = Raise e → e = ValueError.
Proof.
  unfold _create_incident. intros H.
  apply bind_Raise in H as [H|(ts & _ & H)]; [by eapply mapM_parse_Raise|].
  apply bind_Raise in H as [H|(mn & _ & H)].
  { destruct ts; [by injection H as <-|done]. }
  apply bind_Raise in H as [H|(mx & _ & H)].
  { destruct ts; [by injection H as <-|done]. }
  apply bind_Raise in H as [H|(sev & _ & H)]; [|done].
  destruct (level <$> ls); [by injection H as <-|done].
Qed.

Lemma flush_incident_Raise (bid : string) (cur : list LogRecord) (g : GroupState)
    (e : exn) :
  flush_incident fromisoformat isoformat bid cur g = Raise e → e = ValueError.
Proof.
  destruct cur as [|r cur]; [done|]. cbn [flush_incident]. intros H.
  apply bind_Raise in H as [H|(inc & _ & H)]; [by eapply create_incident_Raise|done].
Qed.

Lemma cluster_loop_Raise (bid : string) (rest : list LogRecord)
    (st : ClusterState * GroupState) (e : exn) :
  loop bid st rest = Raise e → e = ValueError.
Proof.
  revert st. induction rest as [|r rest IH]; intros st H; [done|].
  cbn [cluster_loop] in H. apply bind_Raise in H as [H|(st' & _ & H)]; [|by eapply IH].
  unfold cluster_step in H. destruct st as [c g].
  apply bind_Raise in H as [H|(t & _ & H)].
  { unfold parse_timestamp in H. destruct (fromisoformat _); [done|]. by injection H as <-. }
  destruct (current_start_time c); [|done].
  destruct (_ <=? _); [done|].
  apply bind_Raise in H as [H|(g' & _ & H)]; [by eapply flush_incident_Raise|done].
Qed.

Lemma cluster_blocks_Raise (bs : list (string * list LogRecord)) (g : GroupState)
    (e : exn) :
  cluster_blocks fromisoformat isoformat self g bs = Raise e → e = ValueError.
Proof.
  revert g. induction bs as [|[bid bl] bs IH]; intros g H; [done|].
  cbn [cluster_blocks] in H. apply bind_Raise in H as [H|(g' & _ & H)]; [|by eapply IH].
  unfold cluster_block in H. apply bind_Raise in H as [H|([c g'] & _ & H)].
  - by eapply cluster_loop_Raise.
  - by eapply flush_incident_Raise.
Qed.

Lemma build_incidents_Raise (batch : list LogRecord) (e : exn) :
  build_incidents fromisoformat isoformat self batch = Raise e →
  e = ValueError ∧ ¬ Forall parses (logs_with_blocks batch).
Proof.
  intros H. split.
  - unfold build_incidents in H.
    apply bind_Raise in H as [H|(g & _ & H)]; [by eapply cluster_blocks_Raise|done].
  - intros Hp. destruct (build_incidents_Ok batch Hp) as [incs Hincs]. congruence.
Qed.

(** *** Sizes *)

Lemma incident_num_logs (batch : list LogRecord) (incs : list Incident)
    (inc : Incident) :
  build_incidents fromisoformat isoformat self batch = Ok incs →
  inc ∈ incs →
  num_logs inc = Z.of_nat (length (logs inc)) ∧ logs inc ≠ [].
Proof.
  intros H Hin. pose proof (incident_created _ _ _ H Hin) as Hc.
  apply create_incident_inv in Hc as (Hne & _ & mn & mx & sev & _ & _ & _ & Hinc).
  split; [by rewrite Hinc at 1|done].
Qed.

Lemma length_concat_sum {A : Type} (ls : list (list A)) :
  Z.of_nat (length (concat ls)) = foldr (fun l acc => Z.of_nat (length l) + acc) 0 ls.
Proof.
  induction ls as [|l ls IH]; [done|]. cbn. rewrite length_app. lia.
Qed.

Lemma length_concat_ge {A : Type} (ls : list (list A)) :
  Forall (fun l => l ≠ []) ls → (length ls ≤ length (concat ls))%nat.
Proof.
  induction 1 as [|l ls Hl _ IH]; [done|]. cbn. rewrite length_app.
  destruct l; [done|]. cbn. lia.
Qed.

Lemma build_incidents_total_logs (batch : list LogRecord) (incs : list Incident) :
  build_incidents fromisoformat isoformat self batch = Ok incs →
  foldr (fun inc acc => num_logs inc + acc) 0 incs
  = Z.of_nat (length (logs_with_blocks batch)).
Proof.
  intros H. rewrite <- (build_incidents_perm _ _ H), length_concat_sum.
  assert (Hall : ∀ inc, inc ∈ incs → num_logs inc = Z.of_nat (length (logs inc))).
  { intros inc Hin. by apply (incident_num_logs batch incs). }
  clear H. induction incs as [|inc incs IH]; [done|]. cbn.
  rewrite IH, (Hall inc) by set_solver. done.
Qed.

(** *** The anchor of an incident *)

Lemma incident_anchor (batch : list LogRecord) (incs : list Incident)
    (inc : Incident) :
  chronological fromisoformat (logs_with_blocks batch) = true →
  build_incidents fromisoformat isoformat self batch = Ok incs →
  inc ∈ incs →
  ∃ r0 tl mx,
    logs inc = r0 :: tl
    ∧ start_time inc = isoformat (time r0) ∧ end_time inc = isoformat mx
    ∧ duration_seconds inc = total_seconds (mx - time r0)
    ∧ mx ∈ time <$> logs inc
    ∧ (∀ r, r ∈ logs inc → time r0 ≤ time r ≤ mx)
    ∧ Forall (fun r => time r - time r0 ≤ window) tl.
Proof.
  intros Hchr H Hin.
  destruct (incident_members _ _ _ H Hin)
    as (bl & a & Hbl & Hp & Hsub & (r0 & tl & Hl & Ha & Htl) & Hc).
  cbn in Hl, Ha, Htl. subst a.
  assert (Hmem : ∀ r, r ∈ logs inc → r ∈ logs_with_blocks batch ∧ parses r).
  { intros r Hr. by destruct (incident_member_of_batch _ _ _ _ H Hin Hr) as (? & _ & ?). }
  assert (Hsorted : StronglySorted ts_le (logs inc)).
  { eapply StronglySorted_sublist; [done|]. apply sort_by_timestamp_sorted. }
  assert (Hfirst : ∀ r, r ∈ logs inc → time r0 ≤ time r).
  { intros r Hr. rewrite Hl in Hr, Hsorted.
    apply elem_of_cons in Hr as [->|Hr]; [lia|].
    apply StronglySorted_inv in Hsorted as [_ Hall].
    eapply chronological_spec; [done| | | | |].
    - apply Hmem. rewrite Hl. left.
    - apply Hmem. rewrite Hl. by right.
    - apply Hmem. rewrite Hl. left.
    - apply Hmem. rewrite Hl. by right.
    - by eapply Forall_forall in Hall. }
  pose proof (create_incident_inv _ _ _ _ Hc)
    as (_ & _ & mn & mx & sev & Hmn & Hmx & _ & Hinc).
  apply py_min_spec in Hmn as [Hmn1 Hmn2]. apply py_max_spec in Hmx as [Hmx1 Hmx2].
  assert (mn = time r0) as ->.
  { apply list_elem_of_fmap in Hmn1 as (r & -> & Hr).
    pose proof (Hfirst r Hr).
    assert (time r ≤ time r0); [|lia].
    apply Hmn2. apply list_elem_of_fmap. exists r0. split; [done|].
    rewrite Hl. left. }
  exists r0, tl, mx. rewrite Hinc at 2 3 4. cbn.
  repeat split; try done.
  - by apply Hfirst.
  - apply Hmx2, list_elem_of_fmap. by exists r.
Qed.

(** *** Keys and incidents *)

Lemma of_block_keys (b : string * list LogRecord) (incs : list Incident) :
  of_block b incs →
  (b.2 ≠ [] → incs ≠ []) ∧ ∀ inc, inc ∈ incs → inc_block_id inc = b.1.
Proof.
  intros [_ [id H]]. split.
  - intros Hne ->. apply creates_logs in H. cbn in H.
    pose proof (temporal_clusters_concat window time (sort_by_timestamp b.2)) as Hc.
    rewrite <- H in Hc. cbn in Hc.
    apply Hne, Permutation_nil_r. by rewrite <- sort_by_timestamp_perm, <- Hc.
  - intros inc Hin. apply creates_inv in H.
    apply list_elem_of_lookup in Hin as [i Hi].
    destruct (Forall2_lookup_r _ _ _ _ _ H Hi) as (c & _ & id' & Hc).
    by apply create_incident_logs in Hc as (_ & _ & ?).
Qed.

Lemma build_incidents_count (batch : list LogRecord) (incs : list Incident) :
  build_incidents fromisoformat isoformat self batch = Ok incs →
  (length (partition_blocks (logs_with_blocks batch)) ≤ length incs)%nat
  ∧ (length incs ≤ length (logs_with_blocks batch))%nat.
Proof.
  intros H. split.
  - apply build_incidents_inv in H as (incss & -> & Hall).
    rewrite (Forall2_length _ _ _ Hall). apply length_concat_ge.
    apply Forall_forall. intros l Hl. apply list_elem_of_lookup in Hl as [i Hi].
    destruct (Forall2_lookup_r _ _ _ _ _ Hall Hi) as ([k bl] & Hb & Hof).
    apply of_block_keys in Hof as [Hne _]. apply Hne. cbn.
    apply list_elem_of_lookup_2 in Hb. by apply partition_blocks_subset in Hb as [_ ?].
  - rewrite <- (build_incidents_perm _ _ H).
    transitivity (length (logs <$> incs)); [by rewrite length_fmap|].
    apply length_concat_ge. apply Forall_forall. intros l Hl.
    apply list_elem_of_fmap in Hl as (inc & -> & Hin).
    by apply (incident_num_logs batch incs).
Qed.

Lemma partition_blocks_key_set (lwb : list LogRecord) :
  size (list_to_set (block_key <$> lwb) : gset string)
  = length (partition_blocks lwb).
Proof.
  destruct (partition_blocks_inv lwb) as (Hnd & Hblk & Hcov).
  rewrite <- (length_fmap fst (partition_blocks lwb)).
  rewrite <- (size_list_to_set (C:=gset string) (partition_blocks lwb).*1) by done.
  f_equal. apply set_eq. intros k. rewrite !elem_of_list_to_set. split.
  - intros (r & -> & Hr)%list_elem_of_fmap. by apply Hcov.
  - intros ([k' bl] & -> & Hin)%list_elem_of_fmap. cbn.
    destruct (Hblk _ _ Hin) as [Hbl Hne].
    destruct bl as [|r bl]; [done|].
    assert (Hr : r ∈ filter (same_block k') lwb) by (rewrite <- Hbl; left).
    apply list_elem_of_filter in Hr as [Hk Hr].
    apply list_elem_of_fmap. by exists r.
Qed.

(** *** A key whose records all lie within the window *)

Lemma clusters_from_within (w a : Z) (f : LogRecord → Z) (cur rest : list LogRecord) :
  Forall (fun r => f r - a ≤ w) rest →
  clusters_from w f a cur rest = [(a, cur ++ rest)].
Proof.
  intros H. revert cur. induction H as [|r rest Hr _ IH]; intros cur; cbn.
  - by rewrite app_nil_r.
  - destruct (Z.leb_spec (f r - a) w); [|lia]. rewrite IH. by rewrite <- app_assoc.
Qed.

Lemma filter_concat_block (k : string) (bs : list (string * list LogRecord))
    (incss : list (list Incident)) (i : nat) (bl : list LogRecord)
    (incs : list Incident) :
  NoDup bs.*1 →
  Forall2 (fun b incs => ∀ inc, inc ∈ incs → inc_block_id inc = b.1) bs incss →
  bs !! i = Some (k, bl) → incss !! i = Some incs →
  filter (fun inc => inc_block_id inc = k) (concat incss) = incs.
Proof.
  intros Hnd Hall. revert i. induction Hall as [|b l bs incss Hb Hall IH]; intros i Hi Hj.
  { done. }
  rewrite fmap_cons in Hnd. apply NoDup_cons in Hnd as [Hfresh Hnd].
  cbn. rewrite filter_app. destruct i as [|i]; cbn in Hi, Hj.
  - injection Hi as ->. injection Hj as ->. cbn in Hb, Hfresh.
    assert (filter (fun inc => inc_block_id inc = k) incs = incs) as ->.
    { clear -Hb. induction incs as [|inc incs IH]; [done|].
      rewrite filter_cons_True by (apply Hb; left). f_equal. apply IH.
      intros inc' H'. apply Hb. by right. }
    assert (filter (fun inc => inc_block_id inc = k) (concat incss) = []) as ->;
      [|by rewrite app_nil_r].
    destruct (filter _ (concat incss)) as [|inc rest] eqn:E; [done|]. exfalso.
    assert (Hinc : inc ∈ filter (fun inc => inc_block_id inc = k) (concat incss))
      by (rewrite E; left).
    apply list_elem_of_filter in Hinc as [Hk Hinc].
    apply elem_of_concat in Hinc as (l' & Hinc & Hl').
    apply list_elem_of_lookup in Hl' as [j Hj].
    destruct (Forall2_lookup_r _ _ _ _ _ Hall Hj) as (b' & Hb' & Hkey).
    apply Hfresh. apply list_elem_of_fmap. exists b'. split.
    + rewrite <- Hk. cbn. by apply Hkey.
    + by eapply list_elem_of_lookup_2.
  - assert (filter (fun inc => inc_block_id inc = k) l = []) as ->.
    { destruct (filter _ l) as [|inc rest] eqn:E; [done|]. exfalso.
      assert (Hinc : inc ∈ filter (fun inc => inc_block_id inc = k) l)
        by (rewrite E; left).
      apply list_elem_of_filter in Hinc as [Hk Hinc].
      apply Hfresh. rewrite <- (Hb _ Hinc), Hk.
      apply list_elem_of_fmap. exists (k, bl). split; [done|].
      by eapply list_elem_of_lookup_2. }
    cbn. by eapply IH.
Qed.

Lemma incidents_of_key (batch : list LogRecord) (incs : list Incident)
    (k : string) (bl : list LogRecord) :
  build_incidents fromisoformat isoformat self batch = Ok incs →
  (k, bl) ∈ partition_blocks (logs_with_blocks batch) →
  of_block (k, bl) (filter (fun inc => inc_block_id inc = k) incs).
Proof.
  intros H Hin. apply build_incidents_inv in H as (incss & -> & Hall).
  apply list_elem_of_lookup in Hin as [i Hi].
  destruct (Forall2_lookup_l _ _ _ _ _ Hall Hi) as (incs_k & Hj & Hof).
  erewrite filter_concat_block; [done| |by eapply Forall2_impl; [done|];
    intros b l Hbl; by apply of_block_keys in Hbl as [_ ?]|done|done].
  by destruct (partition_blocks_inv (logs_with_blocks batch)) as [? _].
Qed.

(** *** A negative window *)

Lemma clusters_from_singletons (w a : Z) (f : LogRecord → Z) (cur rest : list LogRecord) :
  w < 0 → StronglySorted (fun x y => f x ≤ f y) rest → Forall (fun r => a ≤ f r) rest →
  clusters_from w f a cur rest = (a, cur) :: ((fun r => (f r, [r])) <$> rest).
Proof.
  intros Hw Hs. revert a cur. induction Hs as [|r rest Hs IH Hall]; intros a cur Ha; [done|].
  apply Forall_cons in Ha as [Hr Ha]. cbn.
  destruct (Z.leb_spec (f r - a) w); [lia|]. f_equal. by apply IH.
Qed.

(** *** Grouping the members of the incidents again *)

Lemma blocks_append_fresh (k : string) (r : LogRecord)
    (bs : list (string * list LogRecord)) :
  k ∉ bs.*1 → blocks_append k r bs = bs ++ [(k, [r])].
Proof.
  induction bs as [|[k' ls] bs IH]; intros Hk; [done|].
  rewrite fmap_cons in Hk. apply not_elem_of_cons in Hk as [Hne Hk]. cbn in Hne.
  cbn [blocks_append]. destruct (String.eqb_spec k' k) as [->|_]; [done|].
  by rewrite IH.
Qed.

Lemma blocks_append_last (k : string) (r : LogRecord)
    (bs : list (string * list LogRecord)) (cur : list LogRecord) :
  k ∉ bs.*1 → blocks_append k r (bs ++ [(k, cur)]) = bs ++ [(k, cur ++ [r])].
Proof.
  induction bs as [|[k' ls] bs IH]; intros Hk.
  - cbn. by rewrite String.eqb_refl.
  - rewrite fmap_cons in Hk. apply not_elem_of_cons in Hk as [Hne Hk]. cbn in Hne.
    cbn [blocks_append app]. destruct (String.eqb_spec k' k) as [->|_]; [done|].
    by rewrite IH.
Qed.

Lemma fold_blocks_last (k : string) (bl cur : list LogRecord)
    (bs : list (string * list LogRecord)) :
  Forall (same_block k) bl → k ∉ bs.*1 →
  fold_left (fun blocks log => blocks_append (block_key log) log blocks) bl
            (bs ++ [(k, cur)])
  = bs ++ [(k, cur ++ bl)].
Proof.
  intros Hall Hk. revert cur.
  induction Hall as [|r bl Hr _ IH]; intros cur; [by rewrite app_nil_r|].
  cbn. rewrite Hr, blocks_append_last by done. rewrite IH.
  by rewrite <- app_assoc.
Qed.

Lemma fold_blocks_group (k : string) (bl : list LogRecord)
    (bs : list (string * list LogRecord)) :
  bl ≠ [] → Forall (same_block k) bl → k ∉ bs.*1 →
  fold_left (fun blocks log => blocks_append (block_key log) log blocks) bl bs
  = bs ++ [(k, bl)].
Proof.
  intros Hne Hall Hk. destruct bl as [|r bl]; [done|].
  apply Forall_cons in Hall as [Hr Hall]. cbn. rewrite Hr.
  rewrite blocks_append_fresh by done. by rewrite fold_blocks_last.
Qed.

Lemma partition_blocks_groups (bs : list (string * list LogRecord)) :
  NoDup bs.*1 →
  Forall (fun b => b.2 ≠ [] ∧ Forall (same_block b.1) b.2) bs →
  partition_blocks (concat bs.*2) = bs.
Proof.
  induction bs as [|[k bl] bs IH] using rev_ind; intros Hnd Hall; [done|].
  rewrite fmap_app in Hnd. apply NoDup_app in Hnd as (Hnd & Hfresh & _).
  apply Forall_app in Hall as [Hall Hb]. apply Forall_singleton in Hb as [Hne Hk].
  rewrite fmap_app, concat_app. cbn. rewrite app_nil_r.
  unfold partition_blocks. rewrite fold_left_app.
  fold (partition_blocks (concat bs.*2)). rewrite IH by done.
  apply fold_blocks_group; [done|done|].
  intros Hin. apply (Hfresh k Hin). cbn. left.
Qed.

Lemma sort_by_timestamp_idem (l : list LogRecord) :
  sort_by_timestamp (sort_by_timestamp l) = sort_by_timestamp l.
Proof.
  symmetry. apply sort_by_timestamp_unique; [apply sort_by_timestamp_sorted|done].
Qed.

Lemma cluster_blocks_sorted (bs : list (string * list LogRecord)) (g : GroupState) :
  cluster_blocks fromisoformat isoformat self g
    ((fun b => (b.1, sort_by_timestamp b.2)) <$> bs)
  = cluster_blocks fromisoformat isoformat self g bs.
Proof.
  revert g. induction bs as [|[k bl] bs IH]; intros g; [done|].
  cbn [fmap list_fmap cluster_blocks fst snd].
  assert (cluster_block fromisoformat isoformat self g (k, sort_by_timestamp bl)
          = cluster_block fromisoformat isoformat self g (k, bl)) as ->.
  { unfold cluster_block. by rewrite sort_by_timestamp_idem. }
  destruct (cluster_block _ _ _ _ _); [|done]. cbn. apply IH.
Qed.

Lemma filter_all {A : Type} (P : A → Prop) `{!∀ x, Decision (P x)} (l : list A) :
  Forall P l → filter P l = l.
Proof.
  induction 1 as [|x l Hx _ IH]; [done|]. by rewrite filter_cons_True, IH.
Qed.

Lemma build_incidents_regroup (batch : list LogRecord) (incs : list Incident) :
  build_incidents fromisoformat isoformat self batch = Ok incs →
  logs_with_blocks (concat (logs <$> incs)) = concat (logs <$> incs)
  ∧ build_incidents fromisoformat isoformat self (concat (logs <$> incs)) = Ok incs.
Proof.
  intros H.
  assert (Hkeyed : logs_with_blocks (concat (logs <$> incs)) = concat (logs <$> incs)).
  { apply filter_all. rewrite (build_incidents_perm _ _ H).
    apply Forall_forall. intros r Hr.
    by apply list_elem_of_filter in Hr as [? _]. }
  split; [done|].
  unfold build_incidents. rewrite Hkeyed.
  rewrite (build_incidents_concat _ _ H).
  set (bs := partition_blocks (logs_with_blocks batch)).
  destruct (partition_blocks_inv (logs_with_blocks batch)) as (Hnd & Hblk & _).
  fold bs in Hnd, Hblk.
  assert (Hgroups : partition_blocks (concat (sort_by_timestamp <$> bs.*2))
                    = (fun b => (b.1, sort_by_timestamp b.2)) <$> bs).
  { rewrite <- (partition_blocks_groups ((fun b => (b.1, sort_by_timestamp b.2)) <$> bs)).
    - f_equal. f_equal. rewrite <- !list_fmap_compose. done.
    - rewrite <- list_fmap_compose. done.
    - apply Forall_fmap, Forall_forall. intros [k bl] Hin.
      change (sort_by_timestamp bl ≠ []
              ∧ Forall (same_block k) (sort_by_timestamp bl)).
      destruct (Hblk _ _ Hin) as [Hbl Hne]. split.
      + intros Hnil. apply Hne, Permutation_nil_r.
        by rewrite <- (sort_by_timestamp_perm bl), Hnil.
      + rewrite sort_by_timestamp_perm, Hbl. apply Forall_forall.
        intros r Hr. by apply list_elem_of_filter in Hr as [? _]. }
  rewrite Hgroups, cluster_blocks_sorted. exact H.
Qed.

End GrouperProofs.

(** * The timestamp format of the parser is chronological *)

(** ** The layout *)

Lemma digit_spec (c : ascii) (v : Z) :
  Iso.digit c = Some v → Z.of_N (N_of_ascii c) = v + 48 ∧ 0 ≤ v ≤ 9.
Proof.
  unfold Iso.digit. destruct (_ && _) eqn:E; [|done]. intros [= <-].
  apply andb_true_iff in E as [E1 E2]. lia.
Qed.

Lemma digits2_spec (a b : ascii) (v : Z) :
  Iso.digits2 a b = Some v →
  ∃ x y, v = 10 * x + y ∧ Z.of_N (N_of_ascii a) = x + 48 ∧ 0 ≤ x ≤ 9
         ∧ Z.of_N (N_of_ascii b) = y + 48 ∧ 0 ≤ y ≤ 9.
Proof.
  unfold Iso.digits2. intros H.
  destruct (Iso.digit a) as [x|] eqn:Ea; [|done].
  destruct (Iso.digit b) as [y|] eqn:Eb; [|done].
  injection H as <-. apply digit_spec in Ea, Eb. exists x, y. tauto.
Qed.

Lemma string_leb_cons (c1 c2 : ascii) (s1 s2 : string) :
  String.leb (String c1 s1) (String c2 s2) = true →
  Z.of_N (N_of_ascii c1) < Z.of_N (N_of_ascii c2)
  ∨ (c1 = c2 ∧ String.leb s1 s2 = true).
Proof.
  unfold String.leb. cbn. unfold Ascii.compare.
  destruct (N.compare_spec (N_of_ascii c1) (N_of_ascii c2)) as [Heq|Hlt|Hgt].
  - intros H. right. split; [|done].
    rewrite <- (ascii_N_embedding c1), <- (ascii_N_embedding c2). by rewrite Heq.
  - intros _. left. lia.
  - discriminate.
Qed.

Lemma digits4_spec (a b c d : ascii) (v : Z) :
  Iso.digits4 a b c d = Some v →
  ∃ x y z w, v = 1000 * x + 100 * y + 10 * z + w
    ∧ Z.of_N (N_of_ascii a) = x + 48 ∧ 0 ≤ x ≤ 9
    ∧ Z.of_N (N_of_ascii b) = y + 48 ∧ 0 ≤ y ≤ 9
    ∧ Z.of_N (N_of_ascii c) = z + 48 ∧ 0 ≤ z ≤ 9
    ∧ Z.of_N (N_of_ascii d) = w + 48 ∧ 0 ≤ w ≤ 9.
Proof.
  unfold Iso.digits4. intros H.
  destruct (Iso.digits2 a b) as [p|] eqn:Ea; [|done].
  destruct (Iso.digits2 c d) as [q|] eqn:Eb; [|done].
  injection H as <-.
  apply digits2_spec in Ea as (x & y & -> & ?), Eb as (z & w & -> & ?).
  exists x, y, z, w. split; [lia|tauto].
Qed.

Ltac read_fields H :=
  repeat match type of H with
  | (Iso.digits4 ?a ?b ?c ?d ≫= _) = Some _ =>
      let E := fresh "E" in
      destruct (Iso.digits4 a b c d) eqn:E; [|discriminate H];
      apply digits4_spec in E as (? & ? & ? & ? & -> & ? & ? & ? & ? & ? & ? & ? & ?);
      cbn [mbind option_bind] in H
  | (Iso.digits2 ?a ?b ≫= _) = Some _ =>
      let E := fresh "E" in
      destruct (Iso.digits2 a b) eqn:E; [|discriminate H];
      apply digits2_spec in E as (? & ? & -> & ? & ? & ? & ?);
      cbn [mbind option_bind] in H
  end.

(** Two strings of the layout compare as the decimal numbers their fields
    spell. *)
Lemma read_leb_composite (s1 s2 : string) (c1 c2 : Iso.Civil) :
  Iso.read s1 = Some c1 → Iso.read s2 = Some c2 →
  String.leb s1 s2 = true → Iso.composite c1 ≤ Iso.composite c2.
Proof.
  unfold Iso.read. intros H1 H2.
  rewrite <- (string_of_list_ascii_of_string s1), <- (string_of_list_ascii_of_string s2).
  destruct (list_ascii_of_string s1) as [|a1 [|a2 [|a3 [|a4 [|a5 [|a6 [|a7 [|a8 [|a9 [|a10 [|a11 [|a12 [|a13 [|a14 [|a15 [|a16 [|a17 [|a18 [|a19 [|? ?]]]]]]]]]]]]]]]]]]]]; try discriminate H1.
  destruct (list_ascii_of_string s2) as [|b1 [|b2 [|b3 [|b4 [|b5 [|b6 [|b7 [|b8 [|b9 [|b10 [|b11 [|b12 [|b13 [|b14 [|b15 [|b16 [|b17 [|b18 [|b19 [|? ?]]]]]]]]]]]]]]]]]]]]; try discriminate H2.
  destruct (_ && _) eqn:Ep1 in H1; [|discriminate H1].
  destruct (_ && _) eqn:Ep2 in H2; [|discriminate H2].
  repeat (apply andb_true_iff in Ep1 as [Ep1 ?]).
  repeat (apply andb_true_iff in Ep2 as [Ep2 ?]).
  repeat match goal with H : Ascii.eqb _ _ = true |- _ => apply Ascii.eqb_eq in H; subst end.
  read_fields H1. read_fields H2.
  injection H1 as <-. injection H2 as <-.
  unfold Iso.composite. cbn [Iso.year Iso.month Iso.day Iso.hour Iso.minute Iso.second].
  cbn [string_of_list_ascii]. intros Hleb.
  repeat (apply string_leb_cons in Hleb as [Hlt | [Heq Hleb]];
          [first [lia | cbn in Hlt; lia]|try subst; try clear Heq]).
  lia.
Qed.

Lemma read_bounds (s : string) (c : Iso.Civil) :
  Iso.read s = Some c →
  0 ≤ Iso.year c ≤ 9999 ∧ 0 ≤ Iso.month c ≤ 99 ∧ 0 ≤ Iso.day c ≤ 99
  ∧ 0 ≤ Iso.hour c ≤ 99 ∧ 0 ≤ Iso.minute c ≤ 99 ∧ 0 ≤ Iso.second c ≤ 99.
Proof.
  unfold Iso.read. intros H1.
  destruct (list_ascii_of_string s) as [|a1 [|a2 [|a3 [|a4 [|a5 [|a6 [|a7 [|a8 [|a9 [|a10 [|a11 [|a12 [|a13 [|a14 [|a15 [|a16 [|a17 [|a18 [|a19 [|? ?]]]]]]]]]]]]]]]]]]]]; try discriminate H1.
  destruct (_ && _) in H1; [|discriminate H1].
  read_fields H1. injection H1 as <-. cbn. lia.
Qed.

(** ** The calendar *)

Lemma days_before_year_mono (y1 y2 : Z) :
  y1 ≤ y2 → Iso.days_before_year y1 ≤ Iso.days_before_year y2.
Proof.
  unfold Iso.days_before_year. intros H.
  Z.to_euclidean_division_equations. lia.
Qed.

Local Arguments Iso.is_leap : simpl never.

Ltac eval_to_nat :=
  repeat match goal with
  | |- context [Z.to_nat ?n] =>
      let v := eval vm_compute in (Z.to_nat n) in change (Z.to_nat n) with v
  end.

Ltac month_cases m :=
  let H := fresh in
  assert (H : m = 1 ∨ m = 2 ∨ m = 3 ∨ m = 4 ∨ m = 5 ∨ m = 6 ∨ m = 7
              ∨ m = 8 ∨ m = 9 ∨ m = 10 ∨ m = 11 ∨ m = 12) by lia;
  repeat destruct H as [H|H]; subst m.

Lemma days_before_month_13 (y : Z) :
  Iso.days_before_month y 13 = 337 + (if Iso.is_leap y then 29 else 28).
Proof.
  unfold Iso.days_before_month. eval_to_nat. cbn. destruct (Iso.is_leap y); lia.
Qed.

Lemma year_length (y : Z) :
  Iso.days_before_year (y + 1)
  = Iso.days_before_year y + Iso.days_before_month y 13.
Proof.
  rewrite days_before_month_13. unfold Iso.days_before_year, Iso.is_leap.
  replace (y + 1 - 1) with y by lia.
  destruct (Z.eqb_spec (y mod 4) 0), (Z.eqb_spec (y mod 100) 0),
           (Z.eqb_spec (y mod 400) 0); cbn;
    Z.to_euclidean_division_equations; lia.
Qed.

Lemma within_year (y m d : Z) :
  1 ≤ m ≤ 12 → 1 ≤ d ≤ Iso.days_in_month y m →
  1 ≤ Iso.days_before_month y m + d ≤ Iso.days_before_month y 13.
Proof.
  intros Hm. rewrite days_before_month_13. month_cases m;
    unfold Iso.days_before_month; eval_to_nat; cbn; destruct (Iso.is_leap y); lia.
Qed.

Lemma same_year_lt (y m1 d1 m2 d2 : Z) :
  1 ≤ m1 → m1 < m2 → m2 ≤ 12 → 1 ≤ d1 ≤ Iso.days_in_month y m1 → 1 ≤ d2 →
  Iso.days_before_month y m1 + d1 < Iso.days_before_month y m2 + d2.
Proof.
  intros H1 H12 H2. month_cases m1; month_cases m2; try lia;
    unfold Iso.days_before_month; eval_to_nat; cbn; destruct (Iso.is_leap y); lia.
Qed.

Lemma valid_spec (c : Iso.Civil) :
  Iso.valid c = true →
  1 ≤ Iso.year c ∧ 1 ≤ Iso.month c ≤ 12
  ∧ 1 ≤ Iso.day c ≤ Iso.days_in_month (Iso.year c) (Iso.month c)
  ∧ Iso.hour c ≤ 23 ∧ Iso.minute c ≤ 59 ∧ Iso.second c ≤ 59.
Proof.
  unfold Iso.valid. rewrite !andb_true_iff, !Z.leb_le. tauto.
Qed.

Lemma days_in_month_le (y m : Z) : Iso.days_in_month y m ≤ 31.
Proof.
  unfold Iso.days_in_month.
  repeat match goal with |- context [if ?b then _ else _] => destruct b end; lia.
Qed.

Lemma to_microseconds_mono (c1 c2 : Iso.Civil) :
  Iso.valid c1 = true → Iso.valid c2 = true →
  0 ≤ Iso.hour c1 → 0 ≤ Iso.minute c1 → 0 ≤ Iso.second c1 →
  0 ≤ Iso.hour c2 → 0 ≤ Iso.minute c2 → 0 ≤ Iso.second c2 →
  Iso.composite c1 ≤ Iso.composite c2 →
  Iso.to_microseconds c1 ≤ Iso.to_microseconds c2.
Proof.
  intros V1 V2. apply valid_spec in V1, V2.
  destruct c1 as [y1 m1 d1 h1 n1 s1], c2 as [y2 m2 d2 h2 n2 s2].
  unfold Iso.composite, Iso.to_microseconds, Iso.ymd2ord, Iso.usec_per_day.
  cbn [Iso.year Iso.month Iso.day Iso.hour Iso.minute Iso.second] in *.
  intros ? ? ? ? ? ? HC.
  pose proof (days_in_month_le y1 m1). pose proof (days_in_month_le y2 m2).
  destruct (Z.lt_trichotomy y1 y2) as [Hy|[Hy|Hy]]; [| |lia].
  - pose proof (within_year y1 m1 d1 ltac:(lia) ltac:(lia)).
    pose proof (within_year y2 m2 d2 ltac:(lia) ltac:(lia)).
    pose proof (year_length y1).
    pose proof (days_before_year_mono (y1 + 1) y2 ltac:(lia)). lia.
  - subst y2. destruct (Z.lt_trichotomy m1 m2) as [Hm|[Hm|Hm]]; [| |lia].
    + pose proof (same_year_lt y1 m1 d1 m2 d2 ltac:(lia) Hm ltac:(lia) ltac:(lia) ltac:(lia)).
      lia.
    + subst m2. lia.
Qed.

(** In the format of the parser the order of two timestamp strings is the
    order of the datetimes they denote. *)
Lemma iso_order (s1 s2 : string) (t1 t2 : Z) :
  Iso.fromisoformat s1 = Some t1 → Iso.fromisoformat s2 = Some t2 →
  String.leb s1 s2 = true → t1 ≤ t2.
Proof.
  unfold Iso.fromisoformat. intros H1 H2 Hleb.
  destruct (Iso.read s1) as [c1|] eqn:R1; [|done].
  destruct (Iso.read s2) as [c2|] eqn:R2; [|done]. cbn in H1, H2.
  destruct (Iso.valid c1) eqn:V1; [|done]. destruct (Iso.valid c2) eqn:V2; [|done].
  injection H1 as <-. injection H2 as <-.
  pose proof (read_bounds _ _ R1). pose proof (read_bounds _ _ R2).
  apply to_microseconds_mono; try done; try lia.
  by eapply read_leb_composite.
Qed.

(** Hence every batch whose timestamps are in that format is
    [chronological]. *)
Lemma iso_chronological (l : list LogRecord) :
  chronological Iso.fromisoformat l = true.
Proof.
  unfold chronological. apply forallb_forall. intros r1 _.
  apply forallb_forall. intros r2 _. unfold order_agrees.
  destruct (Iso.fromisoformat (timestamp r1)) as [t1|] eqn:E1; [|done].
  destruct (Iso.fromisoformat (timestamp r2)) as [t2|] eqn:E2; [|done].
  destruct (String.leb _ _) eqn:Hleb; [|done]. cbn.
  apply Z.leb_le. by eapply iso_order.
Qed.

(** * The claims of the specification *)

(** ** The severity scale *)

Lemma level_priority_scale :
  level_priority_get "FATAL" = 4 ∧ level_priority_get "ERROR" = 3
  ∧ level_priority_get "WARN" = 2 ∧ level_priority_get "INFO" = 1
  ∧ level_priority_get "DEBUG" = 0.
Proof. by vm_compute. Qed.

Lemma level_priority_lookup (x : string) :
  level_priority !! x
  = if decide (x = "FATAL") then Some 4
    else if decide (x = "ERROR") then Some 3
    else if decide (x = "WARN") then Some 2
    else if decide (x = "INFO") then Some 1
    else if decide (x = "DEBUG") then Some 0
    else None.
Proof.
  unfold level_priority.
  repeat (case_decide; [subst; by simplify_map_eq|rewrite lookup_insert_ne by done]).
  apply lookup_empty.
Qed.

Lemma level_priority_unknown (x : string) :
  x ∉ ["FATAL"; "ERROR"; "WARN"; "INFO"; "DEBUG"] →
  level_priority !! x = None ∧ level_priority_get x = 0.
Proof.
  intros H. unfold level_priority_get. rewrite level_priority_lookup.
  repeat (case_decide; [subst; exfalso; apply H; set_solver|]). done.
Qed.

Lemma level_priority_range (x : string) : 0 ≤ level_priority_get x ≤ 4.
Proof.
  unfold level_priority_get. rewrite level_priority_lookup.
  repeat (case_decide; [cbn; lia|]). cbn. lia.
Qed.

(** ** The aggregator *)

(** C9. Invoking incident construction with an empty record sequence fails
    fast: whatever the identifier and the key, [_create_incident] raises
    (the [ValueError] of [min] over no timestamps, before anything else is
    computed), so the call returns no incident, neither whole nor partial. *)
Theorem create_incident_empty_raises :
  ∀ (fromisoformat : string → option Z) (isoformat : Z → string)
    (id : Z) (bid : string),
    _create_incident fromisoformat isoformat id bid [] = Raise ValueError.
Proof. intros. reflexivity. Qed.



(** C4, as the code has it. For a non-empty cluster whose timestamps are
    read the aggregator does not fail, and the severity it reports is the
    level of a member whose priority under
    [{FATAL:4, ERROR:3, WARN:2, INFO:1, DEBUG:0}] is the maximum over the
    members. A label outside the scale has priority 0. It never overrides a
    known level of higher priority, nor a known level of equal priority
    that comes before it: when the reported label is outside the scale,
    every member has priority 0 and the label is that of the first
    member. *)
Theorem create_incident_severity_max :
  ∀ (fromisoformat : string → option Z) (isoformat : Z → string)
    (id : Z) (bid : string) (ls : list LogRecord),
    ls ≠ [] →
    timestamps_parse fromisoformat ls = true →
    ∃ inc,
      _create_incident fromisoformat isoformat id bid ls = Ok inc
      ∧ severity inc ∈ level <$> ls
      ∧ (∀ r, r ∈ ls →
           level_priority_get (level r) ≤ level_priority_get (severity inc))
      ∧ (level_priority_get "FATAL" = 4 ∧ level_priority_get "ERROR" = 3
         ∧ level_priority_get "WARN" = 2 ∧ level_priority_get "INFO" = 1
         ∧ level_priority_get "DEBUG" = 0)
      ∧ (∀ x, x ∉ ["FATAL"; "ERROR"; "WARN"; "INFO"; "DEBUG"] →
           level_priority_get x = 0)
      ∧ (level_priority !! severity inc = None →
           (∀ r, r ∈ ls → level_priority_get (level r) = 0)
           ∧ head (level <$> ls) = Some (severity inc)).
Proof.
  intros fromisoformat isoformat id bid ls Hne Hp.
  apply timestamps_parse_Forall in Hp.
  destruct (create_incident_Ok fromisoformat isoformat id bid ls Hne Hp) as [inc H].
  exists inc. split; [done|].
  destruct (create_incident_severity _ _ _ _ _ _ H) as (i & r & Hi & Hsev & Hmax & Hfirst).
  rewrite Hsev. split.
  { apply list_elem_of_fmap. exists r. split; [done|]. by eapply list_elem_of_lookup_2. }
  split; [done|]. split; [apply level_priority_scale|]. split.
  { intros x Hx. by apply level_priority_unknown. }
  intros Hnone.
  assert (H0 : level_priority_get (level r) = 0)
    by (unfold level_priority_get; by rewrite Hnone).
  assert (Hall : ∀ r', r' ∈ ls → level_priority_get (level r') = 0).
  { intros r' Hr'. pose proof (Hmax r' Hr').
    pose proof (level_priority_range (level r')). lia. }
  split; [done|].
  destruct i as [|i].
  - destruct ls as [|r0 ls']; [done|]. cbn in *. by injection Hi as ->.
  - destruct ls as [|r0 ls']; [done|].
    specialize (Hfirst 0%nat r0 ltac:(lia) eq_refl).
    specialize (Hall r0 ltac:(left)). lia.
Qed.

Lemma create_incident_severity_max_scenario :
  scenario ≠ [] ∧ timestamps_parse Iso.fromisoformat scenario = true
  ∧ ∃ inc, _create_incident Iso.fromisoformat Iso.isoformat 1 "blk_A" scenario = Ok inc
      ∧ level_priority_get (severity inc) = 3.
Proof.
  split; [discriminate|]. split; [reflexivity|].
  destruct (create_incident_severity_max Iso.fromisoformat Iso.isoformat 1 "blk_A" scenario)
    as (inc & H & _); [discriminate|reflexivity|].
  exists inc. split; [exact H|].
  vm_compute in H. injection H as <-. reflexivity.
Defined.

(** C4, as stated, fails: [TRACE] is outside the scale, [DEBUG] is a known
    level of equal priority and a member, and [TRACE] is what the
    aggregator reports. *)
Lemma unknown_label_reported_over_debug :
  ∃ inc r,
    _create_incident Iso.fromisoformat Iso.isoformat 1 "blk_A" trace_then_debug = Ok inc
    ∧ severity inc = "TRACE" ∧ level_priority !! "TRACE" = None
    ∧ r ∈ trace_then_debug ∧ level r = "DEBUG"
    ∧ level_priority !! "DEBUG" = Some 0
    ∧ level_priority_get (severity inc) ≤ level_priority_get (level r).
Proof.
  eexists. exists (sample 2 "2008-11-09T20:35:19" "DEBUG" "dfs.DataNode" (Some "blk_A")).
  split; [vm_compute; reflexivity|]. cbn [severity level sample].
  split; [reflexivity|]. split; [by vm_compute|].
  split; [right; left|]. split; [reflexivity|]. split; [by vm_compute|].
  by vm_compute.
Qed.



(** ** The clusterer *)



(** C2. Window conformance. With a window that is not negative, and
    timestamps whose order as strings (the sort key) agrees with their order
    in time (as it does in the format of the parser, [iso_chronological]),
    every incident of a run has a first member, the anchor, whose time is
    the minimum over the members and is what [start_time] renders, and
    every member lies within the window of it. *)
Theorem window_conformance :
  ∀ (fromisoformat : string → option Z) (isoformat : Z → string)
    (self : IncidentGrouper) (batch : list LogRecord)
    (incs : list Incident) (inc : Incident),
    0 ≤ time_window self →
    chronological fromisoformat (logs_with_blocks batch) = true →
    group_incidents fromisoformat isoformat self batch = Ok incs →
    inc ∈ incs →
    ∃ t0 r0,
      head (logs inc) = Some r0
      ∧ fromisoformat (timestamp r0) = Some t0
      ∧ start_time inc = isoformat t0
      ∧ ∀ r, r ∈ logs inc →
          ∃ t, fromisoformat (timestamp r) = Some t
               ∧ t0 ≤ t ∧ t - t0 ≤ time_window self.
Proof.
  intros fromisoformat isoformat self batch incs inc Hw Hchr H Hin.
  apply group_incidents_inv in H as [H _].
  destruct (incident_members _ _ _ _ _ _ H Hin)
    as (bl & a & Hbl & Hp & Hsub & (r0 & tl & Hl & Ha & Htl) & Hc).
  cbn in Hl, Ha, Htl.
  assert (Hmem : ∀ r, r ∈ logs inc →
            r ∈ logs_with_blocks batch ∧ is_Some (fromisoformat (timestamp r))).
  { intros r Hr. by destruct (incident_member_of_batch _ _ _ _ _ _ _ H Hin Hr) as (? & _ & ?). }
  assert (Hsorted : StronglySorted ts_le (logs inc)).
  { eapply StronglySorted_sublist; [done|]. apply sort_by_timestamp_sorted. }
  assert (Hfirst : ∀ r, r ∈ logs inc → a ≤ time_of fromisoformat r).
  { intros r Hr. rewrite Hl in Hr, Hsorted.
    apply elem_of_cons in Hr as [->|Hr]; [lia|].
    apply StronglySorted_inv in Hsorted as [_ Hall].
    rewrite <- Ha. eapply chronological_spec; [done| | | | |].
    - apply Hmem. rewrite Hl. left.
    - apply Hmem. rewrite Hl. by right.
    - apply Hmem. rewrite Hl. left.
    - apply Hmem. rewrite Hl. by right.
    - by eapply Forall_forall in Hall. }
  pose proof (create_incident_inv _ _ _ _ _ _ Hc)
    as (_ & _ & mn & mx & sev & Hmn & _ & _ & Hinc).
  apply py_min_spec in Hmn as [Hmn1 Hmn2].
  assert (mn = a) as ->.
  { apply list_elem_of_fmap in Hmn1 as (r & -> & Hr).
    pose proof (Hfirst r Hr).
    assert (time_of fromisoformat r ≤ a); [|lia].
    apply Hmn2. apply list_elem_of_fmap. exists r0. split; [done|].
    rewrite Hl. left. }
  assert (Hr0 : fromisoformat (timestamp r0) = Some a).
  { destruct (Hmem r0) as [_ [t Ht]]; [rewrite Hl; left|].
    unfold time_of in Ha. rewrite Ht in Ha |- *. cbn in Ha. by subst. }
  exists a, r0. split; [by rewrite Hl|]. split; [done|].
  split; [by rewrite Hinc|].
  intros r Hr. destruct (Hmem r Hr) as [_ [t Ht]].
  exists t. split; [done|].
  pose proof (Hfirst r Hr) as Hge. unfold time_of in Hge. rewrite Ht in Hge.
  cbn in Hge. split; [done|].
  rewrite Hl in Hr. apply elem_of_cons in Hr as [->|Hr].
  - rewrite Hr0 in Ht. injection Ht as <-. lia.
  - eapply Forall_forall in Htl; [|done]. unfold time_of in Htl.
    rewrite Ht in Htl. cbn in Htl. done.
Qed.

Lemma window_conformance_mixed_batch :
  0 ≤ time_window (__init__ 5)
  ∧ chronological Iso.fromisoformat (logs_with_blocks mixed_batch) = true
  ∧ ∃ incs inc,
      group_incidents Iso.fromisoformat Iso.isoformat (__init__ 5) mixed_batch = Ok incs
      ∧ incs !! 1%nat = Some inc
      ∧ ∃ t0 r0, head (logs inc) = Some r0
          ∧ Iso.fromisoformat (timestamp r0) = Some t0
          ∧ start_time inc = Iso.isoformat t0
          ∧ start_time inc = "2008-11-09T20:35:18".
Proof.
  split; [by vm_compute|]. split; [reflexivity|].
  eexists. eexists. split; [vm_compute; reflexivity|]. split; [reflexivity|].
  destruct (window_conformance Iso.fromisoformat Iso.isoformat (__init__ 5) mixed_batch
              _ _ ltac:(by vm_compute) ltac:(reflexivity)
              ltac:(vm_compute; reflexivity) ltac:(right; left))
    as (t0 & r0 & Hhd & Ht0 & Hstart & _).
  exists t0, r0. split; [exact Hhd|]. split; [exact Ht0|]. split; [exact Hstart|].
  reflexivity.
Defined.

(** C2, as stated, fails in two ways. The grouper sorts a block by the
    timestamp strings (line 53) and a space sorts before [T]: of three
    records of one key at 00:00:00 (written with [T]), 00:10:00 and
    00:12:00 (written with a space), the one of 00:10:00 becomes the
    anchor, the one of 00:00:00 joins the incident since it lies -600 s
    from the anchor, and the incident reports [start_time] 00:00:00; its
    second member lies 720 s after it, with a window of 300 s. And with a
    negative window the only member of an incident lies 0 s after its
    [start_time], which is more than the window. *)
Lemma mixed_separators_exceed_window :
  (∃ incs inc r t t0,
     0 ≤ time_window (__init__ 5)
     ∧ timestamps_parse fromisoformat_any_separator
         (logs_with_blocks separators_batch) = true
     ∧ group_incidents fromisoformat_any_separator Iso.isoformat (__init__ 5)
         separators_batch = Ok incs
     ∧ inc ∈ incs ∧ logs inc !! 1%nat = Some r
     ∧ fromisoformat_any_separator (timestamp r) = Some t
     ∧ fromisoformat_any_separator (start_time inc) = Some t0
     ∧ t - t0 = 720000000
     ∧ time_window (__init__ 5) < t - t0)
  ∧ (∃ incs inc r t t0,
       chronological Iso.fromisoformat (logs_with_blocks scenario) = true
       ∧ group_incidents Iso.fromisoformat Iso.isoformat (__init__ (-1))
           scenario = Ok incs
       ∧ inc ∈ incs ∧ logs inc = [r]
       ∧ Iso.fromisoformat (timestamp r) = Some t
       ∧ Iso.fromisoformat (start_time inc) = Some t0
       ∧ t - t0 = 0
       ∧ time_window (__init__ (-1)) < t - t0).
Proof.
  split.
  - eexists _, _, _, _, _. split; [by vm_compute|].
    split; [vm_compute; reflexivity|]. split; [vm_compute; reflexivity|].
    split; [left|]. split; [reflexivity|].
    split; [vm_compute; reflexivity|]. split; [vm_compute; reflexivity|].
    split; [reflexivity|]. by vm_compute.
  - eexists _, _, _, _, _. split; [vm_compute; reflexivity|].
    split; [vm_compute; reflexivity|].
    split; [left|]. split; [reflexivity|].
    split; [vm_compute; reflexivity|]. split; [vm_compute; reflexivity|].
    split; [reflexivity|]. by vm_compute.
Qed.

(** ** The partitioner *)

Lemma has_block_id_spec (r : LogRecord) :
  has_block_id r = true ↔ ∃ k, block_id r = Some k ∧ k ≠ "".
Proof.
  unfold has_block_id. destruct (block_id r) as [k|].
  - destruct (String.eqb_spec k "") as [->|Hne]; cbn.
    + split; [done|]. by intros (k & [= <-] & ?).
    + split; [by eauto|done].
  - split; [done|]. by intros (k & ? & _).
Qed.

Lemma logs_with_blocks_spec (batch : list LogRecord) (r : LogRecord) :
  r ∈ logs_with_blocks batch ↔ r ∈ batch ∧ ∃ k, block_id r = Some k ∧ k ≠ "".
Proof.
  unfold logs_with_blocks. rewrite list_elem_of_filter, has_block_id_spec. tauto.
Qed.



(** ** Order inside an incident *)



(** ** The statistics reporter *)

Lemma severity_distribution_lookup (severities : list string) (lbl : string) :
  severity_distribution severities !! lbl
  = if decide (lbl ∈ severities) then Some (py_count lbl severities) else None.
Proof.
  unfold severity_distribution.
  assert (Hinj : ∀ y y' : string,
            y ∈ (list_to_set severities : gset string) →
            y' ∈ (list_to_set severities : gset string) →
            (y, py_count y severities).1 = (y', py_count y' severities).1 → y = y')
    by (by intros y y' _ _).
  case_decide as Hin.
  - apply (lookup_set_to_map (fun lvl => (lvl, py_count lvl severities))); [done|].
    exists lbl. split; [by apply elem_of_list_to_set|done].
  - destruct (set_to_map _ _ !! lbl) as [n|] eqn:E; [|done].
    apply (lookup_set_to_map (fun lvl => (lvl, py_count lvl severities))) in E
      as (y & Hy & [= -> _]); [|done].
    by apply elem_of_list_to_set in Hy.
Qed.

Lemma py_count_fmap {A : Type} (f : A → string) (x : string) (l : list A) :
  py_count x (f <$> l) = Z.of_nat (length (filter (fun a => f a = x) l)).
Proof.
  unfold py_count. f_equal. induction l as [|a l IH]; [done|].
  rewrite fmap_cons, !filter_cons. case_decide; cbn; by rewrite IH.
Qed.

Lemma sumZ_fmap {A : Type} (f : A → Z) (l : list A) :
  sumZ (f <$> l) = foldr (fun a acc => f a + acc) 0 l.
Proof.
  rewrite sumZ_foldr. induction l as [|x l IH]; [done|]. cbn. by rewrite IH.
Qed.

Lemma sumQ_fmap {A : Type} (f : A → Q) (l : list A) :
  (sumQ (f <$> l) == foldr (fun a acc => f a + acc)%Q 0%Q l)%Q.
Proof.
  rewrite sumQ_foldr. induction l as [|x l IH]; [done|]. cbn. by rewrite IH.
Qed.

Lemma py_div_length_pos (a : Q) (n : nat) :
  n ≠ 0%nat →
  py_div a (inject_Z (Z.of_nat n)) = Ok (a / inject_Z (Z.of_nat n))%Q.
Proof. intros Hn. rewrite py_div_length. by destruct n. Qed.

(** C7. For a non-empty collection of incidents the reporter returns a
    dictionary in which [total_incidents] is the number of incidents,
    [total_logs] the sum of their [num_logs], [avg_logs_per_incident] the
    quotient of the two, [min_logs_per_incident] and
    [max_logs_per_incident] the least and the greatest [num_logs],
    [avg_duration_seconds] the mean of [duration_seconds], and
    [severity_distribution] the dictionary that maps every severity label
    some incident reports to the number of incidents that report it (and
    holds no other label). Averages are exact rationals. *)
Theorem incident_stats_consistent :
  ∀ incs : list Incident,
    incs ≠ [] →
    ∃ stats avg_logs avg_duration min_logs max_logs distribution,
      get_incident_stats incs = Ok stats
      ∧ stats !! "total_incidents" = Some (VInt (Z.of_nat (length incs)))
      ∧ stats !! "total_logs"
        = Some (VInt (foldr (fun inc acc => num_logs inc + acc) 0 incs))
      ∧ stats !! "avg_logs_per_incident" = Some (VFloat avg_logs)
      ∧ (avg_logs
         == inject_Z (foldr (fun inc acc => (num_logs inc + acc)%Z) 0%Z incs)
            / inject_Z (Z.of_nat (length incs)))%Q
      ∧ stats !! "min_logs_per_incident" = Some (VInt min_logs)
      ∧ (∃ inc, inc ∈ incs ∧ num_logs inc = min_logs)
      ∧ (∀ inc, inc ∈ incs → min_logs ≤ num_logs inc)
      ∧ stats !! "max_logs_per_incident" = Some (VInt max_logs)
      ∧ (∃ inc, inc ∈ incs ∧ num_logs inc = max_logs)
      ∧ (∀ inc, inc ∈ incs → num_logs inc ≤ max_logs)
      ∧ stats !! "avg_duration_seconds" = Some (VFloat avg_duration)
      ∧ (avg_duration
         == foldr (fun inc acc => duration_seconds inc + acc)%Q 0%Q incs
            / inject_Z (Z.of_nat (length incs)))%Q
      ∧ stats !! "severity_distribution" = Some (VDict distribution)
      ∧ (∀ lbl,
           distribution !! lbl
           = if decide (lbl ∈ severity <$> incs)
             then Some (Z.of_nat (length (filter (fun inc => severity inc = lbl) incs)))
             else None).
Proof.
  intros incs Hne. unfold get_incident_stats.
  destruct incs as [|inc0 incs']; [done|].
  set (incs := inc0 :: incs').
  assert (Hlen : length incs ≠ 0%nat) by done.
  assert (Hnl : num_logs <$> incs ≠ []) by done.
  clearbody incs. clear Hne.
  rewrite length_fmap, !py_div_length_pos by done.
  destruct (py_min_is_Ok (num_logs <$> incs) Hnl) as [mn Hmn].
  destruct (py_max_is_Ok (num_logs <$> incs) Hnl) as [mx Hmx].
  rewrite Hmn, Hmx. cbn [mbind result_bind].
  apply py_min_spec in Hmn as [Hmn1 Hmn2]. apply py_max_spec in Hmx as [Hmx1 Hmx2].
  pose proof (sumZ_fmap num_logs incs) as Hsum.
  pose proof (sumQ_fmap duration_seconds incs) as HsumQ.
  eexists _, _, _, mn, mx, _.
  split; [reflexivity|].
  split; [by simplify_map_eq|]. split; [rewrite <- Hsum; by simplify_map_eq|].
  split; [by simplify_map_eq|]. split; [by rewrite Hsum|].
  split; [by simplify_map_eq|]. split.
  { apply list_elem_of_fmap in Hmn1 as (inc & -> & Hinc). by exists inc. }
  split. { intros inc Hinc. apply Hmn2, list_elem_of_fmap. by exists inc. }
  split; [by simplify_map_eq|]. split.
  { apply list_elem_of_fmap in Hmx1 as (inc & -> & Hinc). by exists inc. }
  split. { intros inc Hinc. apply Hmx2, list_elem_of_fmap. by exists inc. }
  split; [by simplify_map_eq|]. split; [by rewrite HsumQ|].
  split; [by simplify_map_eq|].
  intros lbl. rewrite severity_distribution_lookup. by rewrite py_count_fmap.
Qed.

Lemma incident_stats_consistent_scenario :
  scenario_incidents ≠ []
  ∧ ∃ stats distribution,
      get_incident_stats scenario_incidents = Ok stats
      ∧ stats !! "total_incidents" = Some (VInt 2)
      ∧ stats !! "total_logs" = Some (VInt 3)
      ∧ stats !! "severity_distribution" = Some (VDict distribution)
      ∧ distribution !! "ERROR" = Some 1
      ∧ distribution !! "INFO" = Some 1
      ∧ distribution !! "WARN" = None.
Proof.
  split; [discriminate|].
  destruct (incident_stats_consistent scenario_incidents)
    as (stats & avg_logs & avg_duration & min_logs & max_logs & distribution
        & H & Hn & Hlogs & _ & _ & _ & _ & _ & _ & _ & _ & _ & _ & Hd & Hdist);
    [discriminate|].
  exists stats, distribution. split; [exact H|]. split; [exact Hn|].
  split; [exact Hlogs|]. split; [exact Hd|].
  rewrite !Hdist. split; [reflexivity|]. split; reflexivity.
Defined.

Lemma get_incident_stats_total (inc : Incident) (incs : list Incident) :
  ∃ stats,
    get_incident_stats (inc :: incs) = Ok stats
    ∧ stats !! "total_incidents" = Some (VInt (Z.of_nat (length (inc :: incs)))).
Proof.
  unfold get_incident_stats.
  rewrite length_fmap, !py_div_length_pos by done.
  destruct (py_min_is_Ok (num_logs <$> inc :: incs)) as [mn ->]; [done|].
  destruct (py_max_is_Ok (num_logs <$> inc :: incs)) as [mx ->]; [done|].
  eexists. split; [reflexivity|]. by simplify_map_eq.
Qed.

(** C5, as the code has it. Given zero incidents the statistics reporter
    completes without a failure and without a division: it returns the
    empty dictionary, which has no entry at all, [total_incidents]
    included; absence is reported by the dictionary being empty. For no
    collection of incidents does the reporter raise. *)
Theorem incident_stats_empty :
  ∀ incs : list Incident,
    ∃ stats,
      get_incident_stats incs = Ok stats
      ∧ (stats = ∅ ↔ incs = [])
      ∧ (stats !! "total_incidents"
         = match incs with
           | [] => None
           | _ :: _ => Some (VInt (Z.of_nat (length incs)))
           end).
Proof.
  intros [|inc incs].
  - exists ∅. split; [reflexivity|]. split; [done|]. apply lookup_empty.
  - destruct (get_incident_stats_total inc incs) as (stats & H & Hn).
    exists stats. split; [done|]. split; [|done]. split; [|done].
    intros ->. by rewrite lookup_empty in Hn.
Qed.

(** C5, as stated, fails: the report for zero incidents is the empty
    dictionary and shows no [total_incidents] at all, let alone
    [total_incidents = 0]. *)
Lemma empty_stats_show_no_total :
  get_incident_stats [] = Ok ∅
  ∧ ¬ ∃ stats,
        get_incident_stats [] = Ok stats
        ∧ stats !! "total_incidents" = Some (VInt 0).
Proof.
  split; [reflexivity|]. intros (stats & [= <-] & H). by rewrite lookup_empty in H.
Qed.

(** The summary printed at line 83 divides the number of keyed records by
    the number of incidents. Lines 36-80 handle a batch without any keyed
    record, the empty batch included, and build no incident; the division
    then raises. *)
Lemma group_incidents_empty_batch :
  ∀ (fromisoformat : string → option Z) (isoformat : Z → string)
    (self : IncidentGrouper),
    build_incidents fromisoformat isoformat self [] = Ok []
    ∧ group_incidents fromisoformat isoformat self [] = Raise ZeroDivisionError.
Proof. intros. split; reflexivity. Qed.

(** * Further properties of the grouper *)

(** Incident identifiers count the incidents in the order in which they are
    created, from 1, across all keys (lines 49, 72-73, 79-80): the incident
    at position [i] of the returned list has identifier [i + 1]. *)
Theorem incident_ids_in_creation_order :
  ∀ (fromisoformat : string → option Z) (isoformat : Z → string)
    (self : IncidentGrouper) (batch : list LogRecord) (incs : list Incident),
    group_incidents fromisoformat isoformat self batch = Ok incs →
    ∀ (i : nat) inc, incs !! i = Some inc → incident_id inc = 1 + Z.of_nat i.
Proof.
  intros fromisoformat isoformat self batch incs H i inc Hi.
  apply group_incidents_inv in H as [H _]. unfold build_incidents in H.
  inv_bind H. subst incs.
  apply cluster_blocks_ids in Hx as (incs & -> & Hids). cbn in Hi.
  by apply (Hids i inc).
Qed.

Lemma incident_ids_in_creation_order_mixed_batch :
  ∃ incs,
    group_incidents Iso.fromisoformat Iso.isoformat (__init__ 5) mixed_batch = Ok incs
    ∧ inc_block_id <$> incs = ["blk_B"; "blk_A"; "blk_A"]
    ∧ ∀ (i : nat) inc, incs !! i = Some inc → incident_id inc = 1 + Z.of_nat i.
Proof.
  eexists. split; [vm_compute; reflexivity|]. split; [reflexivity|].
  exact (incident_ids_in_creation_order Iso.fromisoformat Iso.isoformat (__init__ 5)
           mixed_batch _ ltac:(vm_compute; reflexivity)).
Defined.

Lemma group_incidents_Ok_keyed (fromisoformat : string → option Z)
    (isoformat : Z → string) (self : IncidentGrouper) (batch : list LogRecord)
    (incs : list Incident) :
  group_incidents fromisoformat isoformat self batch = Ok incs →
  timestamps_parse fromisoformat (logs_with_blocks batch) = true
  ∧ logs_with_blocks batch ≠ [] ∧ incs ≠ [].
Proof.
  intros H. apply group_incidents_inv in H as [H Hne].
  pose proof (build_incidents_perm _ _ _ _ _ H) as Hperm.
  split; [|split; [|done]].
  - apply timestamps_parse_Forall. rewrite <- Hperm.
    apply Forall_forall. intros r Hr.
    apply elem_of_concat in Hr as (l & Hr & Hl).
    apply list_elem_of_fmap in Hl as (inc' & -> & Hin).
    destruct (incident_member_of_batch _ _ _ _ _ _ _ H Hin Hr) as (_ & _ & Hp).
    exact Hp.
  - intros Hnil. destruct (build_incidents_count _ _ _ _ _ H) as [_ Hhi].
    rewrite Hnil in Hhi. destruct incs; [done|]. cbn in Hhi. lia.
Qed.

Lemma group_incidents_Raise_cases (fromisoformat : string → option Z)
    (isoformat : Z → string) (self : IncidentGrouper) (batch : list LogRecord)
    (e : exn) :
  group_incidents fromisoformat isoformat self batch = Raise e →
  (e = ValueError
   ∧ timestamps_parse fromisoformat (logs_with_blocks batch) = false)
  ∨ (e = ZeroDivisionError ∧ logs_with_blocks batch = []).
Proof.
  unfold group_incidents.
  destruct (build_incidents fromisoformat isoformat self batch) as [incs|e'] eqn:H.
  - cbn [mbind result_bind]. rewrite py_div_length.
    pose proof (build_incidents_perm _ _ _ _ _ H) as Hperm.
    destruct incs as [|inc incs]; cbn [length mbind result_bind]; [|done].
    intros [= <-]. right. split; [done|].
    cbn in Hperm. by apply Permutation_nil_l in Hperm.
  - apply build_incidents_Raise in H as [-> Hnp]. cbn. intros [= <-].
    left. split; [done|].
    destruct (timestamps_parse _ _) eqn:E; [|done].
    by apply timestamps_parse_Forall in E.
Qed.

(** The outcomes of [group_incidents] (lines 37, 60, 66, 83, 89-91) on a
    batch whose keyed timestamps all have the layout [YYYY-MM-DDTHH:MM:SS]
    of the parser. No such timestamp carries a UTC offset, so every
    [datetime] that is read is naive and the comparisons and subtractions
    of lines 66 and 90-91 raise nothing; there are then exactly three
    outcomes. The call returns incidents, at least one, exactly when some
    record has a key and the timestamp of every keyed record is read; it
    raises [ValueError] exactly when the timestamp of some keyed record is
    not read; and it raises [ZeroDivisionError], at the summary of line 83,
    exactly when no record has a key. The timestamps of records without a
    key are never looked at. *)
Theorem group_incidents_outcome :
  ∀ (fromisoformat : string → option Z) (isoformat : Z → string)
    (self : IncidentGrouper) (batch : list LogRecord),
    parser_layout (logs_with_blocks batch) = true →
    match group_incidents fromisoformat isoformat self batch with
    | Ok incs =>
        timestamps_parse fromisoformat (logs_with_blocks batch) = true
        ∧ logs_with_blocks batch ≠ [] ∧ incs ≠ []
    | Raise ValueError =>
        timestamps_parse fromisoformat (logs_with_blocks batch) = false
    | Raise ZeroDivisionError =>
        logs_with_blocks batch = []
    end.
Proof.
  intros fromisoformat isoformat self batch _.
  destruct (group_incidents fromisoformat isoformat self batch) as [incs|e] eqn:H.
  - by apply group_incidents_Ok_keyed in H.
  - apply group_incidents_Raise_cases in H as [[-> H]|[-> H]]; done.
Qed.

Lemma group_incidents_outcome_mixed_batch :
  parser_layout (logs_with_blocks mixed_batch) = true
  ∧ (∃ incs,
       group_incidents Iso.fromisoformat Iso.isoformat (__init__ 5) mixed_batch
       = Ok incs ∧ length incs = 3%nat)
  ∧ match group_incidents Iso.fromisoformat Iso.isoformat (__init__ 5) mixed_batch with
    | Ok incs =>
        timestamps_parse Iso.fromisoformat (logs_with_blocks mixed_batch) = true
        ∧ logs_with_blocks mixed_batch ≠ [] ∧ incs ≠ []
    | Raise ValueError =>
        timestamps_parse Iso.fromisoformat (logs_with_blocks mixed_batch) = false
    | Raise ZeroDivisionError =>
        logs_with_blocks mixed_batch = []
    end.
Proof.
  split; [vm_compute; reflexivity|].
  split; [eexists; split; [vm_compute; reflexivity|reflexivity]|].
  apply (group_incidents_outcome Iso.fromisoformat Iso.isoformat (__init__ 5)
           mixed_batch).
  vm_compute. reflexivity.
Defined.

(** Every key gets at least one incident and every incident at least one
    record (lines 41-45, 62-80): the number of distinct keys, which line 45
    prints, is at most the number of incidents, which is at most the number
    of keyed records. *)
Theorem incident_count_bounds :
  ∀ (fromisoformat : string → option Z) (isoformat : Z → string)
    (self : IncidentGrouper) (batch : list LogRecord) (incs : list Incident),
    group_incidents fromisoformat isoformat self batch = Ok incs →
    size (list_to_set (block_key <$> logs_with_blocks batch) : gset string)
    = length (partition_blocks (logs_with_blocks batch))
    ∧ (length (partition_blocks (logs_with_blocks batch)) ≤ length incs)%nat
    ∧ (length incs ≤ length (logs_with_blocks batch))%nat
    ∧ (∀ k, k ∈ block_key <$> logs_with_blocks batch →
         ∃ inc, inc ∈ incs ∧ inc_block_id inc = k).
Proof.
  intros fromisoformat isoformat self batch incs H.
  apply group_incidents_inv in H as [H _].
  split; [apply partition_blocks_key_set|].
  destruct (build_incidents_count _ _ _ _ _ H) as [Hlo Hhi].
  split; [done|]. split; [done|].
  intros k (r & -> & Hr)%list_elem_of_fmap.
  rewrite <- (build_incidents_perm _ _ _ _ _ H) in Hr.
  apply elem_of_concat in Hr as (l & Hr & Hl).
  apply list_elem_of_fmap in Hl as (inc & -> & Hin).
  exists inc. split; [done|].
  by destruct (incident_member_of_batch _ _ _ _ _ _ _ H Hin Hr) as (_ & ? & _).
Qed.

Lemma incident_count_bounds_mixed_batch :
  ∃ incs,
    group_incidents Iso.fromisoformat Iso.isoformat (__init__ 5) mixed_batch = Ok incs
    ∧ length (partition_blocks (logs_with_blocks mixed_batch)) = 2%nat
    ∧ length incs = 3%nat
    ∧ length (logs_with_blocks mixed_batch) = 4%nat
    ∧ (length (partition_blocks (logs_with_blocks mixed_batch)) ≤ length incs)%nat.
Proof.
  eexists. split; [vm_compute; reflexivity|].
  split; [reflexivity|]. split; [reflexivity|]. split; [reflexivity|].
  exact (proj1 (proj2 (incident_count_bounds Iso.fromisoformat Iso.isoformat
           (__init__ 5) mixed_batch _ ltac:(vm_compute; reflexivity)))).
Defined.

(** With a window that is not negative and timestamps whose string order
    is their order in time, no incident lasts longer than the window:
    [duration_seconds] lies between 0 and the window in seconds, and
    [start_time], [end_time] render the times of the first member and of a
    member (lines 66, 89-91, 106). *)
Theorem incident_duration_within_window :
  ∀ (fromisoformat : string → option Z) (isoformat : Z → string)
    (self : IncidentGrouper) (batch : list LogRecord)
    (incs : list Incident) (inc : Incident),
    0 ≤ time_window self →
    chronological fromisoformat (logs_with_blocks batch) = true →
    group_incidents fromisoformat isoformat self batch = Ok incs →
    inc ∈ incs →
    (0 <= duration_seconds inc)%Q
    ∧ (duration_seconds inc <= total_seconds (time_window self))%Q
    ∧ ∃ first last,
        head (logs inc) = Some first ∧ last ∈ logs inc
        ∧ start_time inc = isoformat (time_of fromisoformat first)
        ∧ end_time inc = isoformat (time_of fromisoformat last)
        ∧ duration_seconds inc
          = total_seconds (time_of fromisoformat last - time_of fromisoformat first).
Proof.
  intros fromisoformat isoformat self batch incs inc Hw Hchr H Hin.
  apply group_incidents_inv in H as [H _].
  destruct (incident_anchor _ _ _ _ _ _ Hchr H Hin)
    as (r0 & tl & mx & Hl & Hs & He & Hd & Hmx & Hrange & Htl).
  apply list_elem_of_fmap in Hmx as (rl & -> & Hrl).
  pose proof (Hrange rl Hrl) as [Hge _].
  assert (Hle : time_of fromisoformat rl - time_of fromisoformat r0 ≤ time_window self).
  { rewrite Hl in Hrl. apply elem_of_cons in Hrl as [->|Hrl]; [lia|].
    by eapply Forall_forall in Htl. }
  rewrite Hd. unfold total_seconds, Qle. cbn.
  split; [lia|]. split; [lia|].
  exists r0, rl. rewrite Hl at 1. done.
Qed.

Lemma incident_duration_within_window_scenario :
  0 ≤ time_window (__init__ 5)
  ∧ chronological Iso.fromisoformat (logs_with_blocks scenario) = true
  ∧ ∃ incs inc,
      group_incidents Iso.fromisoformat Iso.isoformat (__init__ 5) scenario = Ok incs
      ∧ incs !! 0%nat = Some inc
      ∧ (duration_seconds inc == 180)%Q
      ∧ (duration_seconds inc <= total_seconds (time_window (__init__ 5)))%Q.
Proof.
  split; [by vm_compute|]. split; [reflexivity|].
  eexists. eexists. split; [vm_compute; reflexivity|]. split; [reflexivity|].
  split; [reflexivity|].
  exact (proj1 (proj2 (incident_duration_within_window Iso.fromisoformat
           Iso.isoformat (__init__ 5) scenario _ _ ltac:(by vm_compute)
           ltac:(reflexivity) ltac:(vm_compute; reflexivity) ltac:(left)))).
Defined.

(** ** The reporter applied to the incidents of a grouping *)

Lemma sumZ_bounds (l : list Z) (lo hi : Z) :
  (∀ x, x ∈ l → lo ≤ x ≤ hi) →
  lo * Z.of_nat (length l) ≤ foldr Z.add 0 l ≤ hi * Z.of_nat (length l).
Proof.
  induction l as [|x l IH]; intros H; [cbn; lia|].
  cbn [foldr length]. specialize (H x (list_elem_of_here _ _)) as Hx.
  assert (lo * Z.of_nat (length l) ≤ foldr Z.add 0 l ≤ hi * Z.of_nat (length l)).
  { apply IH. intros y Hy. apply H. by right. }
  lia.
Qed.

Lemma foldr_fmap_sum {A : Type} (f : A → Z) (l : list A) :
  foldr (fun a acc => f a + acc) 0 l = foldr Z.add 0 (f <$> l).
Proof. induction l as [|a l IH]; [done|]. cbn. by rewrite IH. Qed.

Lemma sumQ_nonneg {A : Type} (f : A → Q) (l : list A) :
  (∀ a, a ∈ l → (0 <= f a)%Q) →
  (0 <= foldr (fun a acc => f a + acc)%Q 0%Q l)%Q.
Proof.
  induction l as [|a l IH]; intros H; [cbn; apply Qle_refl|].
  cbn [foldr]. apply (Qle_trans _ (0 + 0)%Q); [done|].
  apply Qplus_le_compat; [apply H; left|]. apply IH. intros b Hb. apply H. by right.
Qed.

Lemma Qdiv_length_bounds (s lo hi : Z) (n : nat) :
  n ≠ 0%nat →
  lo * Z.of_nat n ≤ s ≤ hi * Z.of_nat n →
  (inject_Z lo <= inject_Z s / inject_Z (Z.of_nat n))%Q
  ∧ (inject_Z s / inject_Z (Z.of_nat n) <= inject_Z hi)%Q.
Proof.
  intros Hn [Hlo Hhi].
  assert (Hpos : (0 < inject_Z (Z.of_nat n))%Q).
  { unfold Qlt. cbn. lia. }
  split.
  - apply Qle_shift_div_l; [done|]. rewrite <- inject_Z_mult.
    rewrite <- Zle_Qle. lia.
  - apply Qle_shift_div_r; [done|]. rewrite <- inject_Z_mult.
    rewrite <- Zle_Qle. lia.
Qed.

Lemma get_incident_stats_entries (incs : list Incident) :
  incs ≠ [] →
  ∃ mn mx avg avgd stats,
    get_incident_stats incs = Ok stats
    ∧ py_min (num_logs <$> incs) = Ok mn
    ∧ py_max (num_logs <$> incs) = Ok mx
    ∧ avg = (inject_Z (sumZ (num_logs <$> incs))
             / inject_Z (Z.of_nat (length incs)))%Q
    ∧ avgd = (sumQ (duration_seconds <$> incs)
              / inject_Z (Z.of_nat (length incs)))%Q
    ∧ stats !! "total_incidents" = Some (VInt (Z.of_nat (length incs)))
    ∧ stats !! "total_logs" = Some (VInt (sumZ (num_logs <$> incs)))
    ∧ stats !! "avg_logs_per_incident" = Some (VFloat avg)
    ∧ stats !! "min_logs_per_incident" = Some (VInt mn)
    ∧ stats !! "max_logs_per_incident" = Some (VInt mx)
    ∧ stats !! "avg_duration_seconds" = Some (VFloat avgd).
Proof.
  intros Hne. unfold get_incident_stats.
  destruct incs as [|inc0 incs']; [done|].
  set (incs := inc0 :: incs').
  assert (Hlen : length incs ≠ 0%nat) by done.
  assert (Hnl : num_logs <$> incs ≠ []) by done.
  clearbody incs. clear Hne.
  rewrite length_fmap, !py_div_length_pos by done.
  destruct (py_min_is_Ok (num_logs <$> incs) Hnl) as [mn Hmn].
  destruct (py_max_is_Ok (num_logs <$> incs) Hnl) as [mx Hmx].
  rewrite Hmn, Hmx. cbn [mbind result_bind].
  eexists mn, mx, _, _, _.
  split; [reflexivity|]. split; [done|]. split; [done|].
  split; [reflexivity|]. split; [reflexivity|].
  repeat split; by simplify_map_eq.
Qed.

(** The reporter's average lies between its extremes (lines 130-133): for
    a non-empty list of incidents, whatever their [num_logs],
    [min_logs_per_incident] <= [avg_logs_per_incident] <=
    [max_logs_per_incident], and [total_logs] lies between
    [total_incidents] times the least and times the greatest. *)
Theorem stats_average_between_extremes :
  ∀ incs : list Incident,
    incs ≠ [] →
    ∃ stats total avg mn mx,
      get_incident_stats incs = Ok stats
      ∧ stats !! "total_logs" = Some (VInt total)
      ∧ stats !! "avg_logs_per_incident" = Some (VFloat avg)
      ∧ stats !! "min_logs_per_incident" = Some (VInt mn)
      ∧ stats !! "max_logs_per_incident" = Some (VInt mx)
      ∧ (inject_Z mn <= avg)%Q ∧ (avg <= inject_Z mx)%Q
      ∧ mn * Z.of_nat (length incs) ≤ total ≤ mx * Z.of_nat (length incs).
Proof.
  intros incs Hne.
  destruct (get_incident_stats_entries incs Hne)
    as (mn & mx & avg & avgd & stats & Hs & Hmn & Hmx & -> & _
        & _ & Htl & Havg & Hmin & Hmax & _).
  apply py_min_spec in Hmn as [_ Hmn]. apply py_max_spec in Hmx as [_ Hmx].
  assert (Hb : mn * Z.of_nat (length incs) ≤ sumZ (num_logs <$> incs)
               ≤ mx * Z.of_nat (length incs)).
  { rewrite sumZ_fmap, foldr_fmap_sum, <- (length_fmap num_logs incs).
    apply sumZ_bounds. intros x Hx. split; [by apply Hmn|by apply Hmx]. }
  assert (Hlen : length incs ≠ 0%nat) by by destruct incs.
  destruct (Qdiv_length_bounds _ _ _ _ Hlen Hb) as [Hlo Hhi].
  eexists stats, (sumZ (num_logs <$> incs)), _, mn, mx.
  repeat (split; [done|]). done.
Qed.

Lemma stats_average_between_extremes_scenario :
  scenario_incidents ≠ []
  ∧ ∃ stats total avg mn mx,
      get_incident_stats scenario_incidents = Ok stats
      ∧ stats !! "total_logs" = Some (VInt total)
      ∧ stats !! "avg_logs_per_incident" = Some (VFloat avg)
      ∧ stats !! "min_logs_per_incident" = Some (VInt mn)
      ∧ stats !! "max_logs_per_incident" = Some (VInt mx)
      ∧ (inject_Z mn <= avg)%Q ∧ (avg <= inject_Z mx)%Q
      ∧ mn * Z.of_nat (length scenario_incidents) ≤ total
        ≤ mx * Z.of_nat (length scenario_incidents).
Proof.
  split; [done|]. apply (stats_average_between_extremes scenario_incidents). done.
Defined.

(** The reporter applied to the result of [group_incidents] (lines 82-83,
    107, 124-134): [total_logs] is the number of records that have a key,
    so every keyed record is counted once; [avg_logs_per_incident] is the
    quotient the grouper prints at line 83; every incident has at least one
    record, so [min_logs_per_incident] is at least 1; and no duration is
    negative, so neither is [avg_duration_seconds]. *)
Theorem stats_of_grouping :
  ∀ (fromisoformat : string → option Z) (isoformat : Z → string)
    (self : IncidentGrouper) (batch : list LogRecord) (incs : list Incident),
    group_incidents fromisoformat isoformat self batch = Ok incs →
    ∃ stats avg mn avgd,
      get_incident_stats incs = Ok stats
      ∧ stats !! "total_logs"
        = Some (VInt (Z.of_nat (length (logs_with_blocks batch))))
      ∧ stats !! "avg_logs_per_incident" = Some (VFloat avg)
      ∧ py_div (inject_Z (Z.of_nat (length (logs_with_blocks batch))))
               (inject_Z (Z.of_nat (length incs))) = Ok avg
      ∧ stats !! "min_logs_per_incident" = Some (VInt mn)
      ∧ 1 ≤ mn
      ∧ stats !! "avg_duration_seconds" = Some (VFloat avgd)
      ∧ (0 <= avgd)%Q.
Proof.
  intros fromisoformat isoformat self batch incs H.
  apply group_incidents_inv in H as [H Hne].
  destruct (get_incident_stats_entries incs Hne)
    as (mn & mx & avg & avgd & stats & Hs & Hmn & Hmx & -> & ->
        & _ & Htl & Havg & Hmin & _ & Hdur).
  assert (Hlen : length incs ≠ 0%nat) by by destruct incs.
  assert (Hsum : sumZ (num_logs <$> incs)
                 = Z.of_nat (length (logs_with_blocks batch))).
  { rewrite sumZ_fmap. by eapply build_incidents_total_logs. }
  rewrite Hsum in *.
  eexists stats, _, mn, _. split; [done|]. split; [done|]. split; [done|].
  split; [by apply py_div_length_pos|]. split; [done|]. split.
  { apply py_min_spec in Hmn as [(inc & -> & Hin)%list_elem_of_fmap _].
    destruct (incident_num_logs _ _ _ _ _ _ H Hin) as [-> Hl].
    destruct (logs inc); [done|]. cbn. lia. }
  split; [done|].
  apply Qle_shift_div_l; [unfold Qlt; cbn; lia|].
  rewrite Qmult_0_l, sumQ_fmap. apply sumQ_nonneg. intros inc Hin.
  pose proof (incident_created _ _ _ _ _ _ H Hin) as Hc.
  apply create_incident_inv in Hc as (_ & _ & mn' & mx' & sev & Hmn' & Hmx' & _ & ->).
  apply py_min_spec in Hmn' as [Hmn' _]. apply py_max_spec in Hmx' as [_ Hmx'].
  specialize (Hmx' _ Hmn'). unfold total_seconds, Qle. cbn. lia.
Qed.

Lemma stats_of_grouping_mixed_batch :
  length mixed_batch = 6%nat
  ∧ length (logs_with_blocks mixed_batch) = 4%nat
  ∧ ∃ incs,
      group_incidents Iso.fromisoformat Iso.isoformat (__init__ 5) mixed_batch = Ok incs
      ∧ ∃ stats avg mn avgd,
          get_incident_stats incs = Ok stats
          ∧ stats !! "total_logs"
            = Some (VInt (Z.of_nat (length (logs_with_blocks mixed_batch))))
          ∧ stats !! "avg_logs_per_incident" = Some (VFloat avg)
          ∧ py_div (inject_Z (Z.of_nat (length (logs_with_blocks mixed_batch))))
                   (inject_Z (Z.of_nat (length incs))) = Ok avg
          ∧ stats !! "min_logs_per_incident" = Some (VInt mn)
          ∧ 1 ≤ mn
          ∧ stats !! "avg_duration_seconds" = Some (VFloat avgd)
          ∧ (0 <= avgd)%Q.
Proof.
  split; [reflexivity|]. split; [reflexivity|].
  eexists. split; [vm_compute; reflexivity|].
  apply (stats_of_grouping Iso.fromisoformat Iso.isoformat (__init__ 5) mixed_batch).
  vm_compute. reflexivity.
Defined.

(** ** One incident for a key whose records lie within the window *)

(** If the records of a key lie pairwise within the window of each other,
    the key yields exactly one incident, and its members are all the keyed
    records of that key in the order of the sort (lines 51-80). No
    assumption on the order of the timestamp strings is needed. *)
Theorem key_within_window_single_incident :
  ∀ (fromisoformat : string → option Z) (isoformat : Z → string)
    (self : IncidentGrouper) (batch : list LogRecord) (incs : list Incident)
    (k : string),
    group_incidents fromisoformat isoformat self batch = Ok incs →
    k ∈ block_key <$> logs_with_blocks batch →
    (∀ r1 r2, r1 ∈ logs_with_blocks batch → r2 ∈ logs_with_blocks batch →
       block_key r1 = k → block_key r2 = k →
       time_of fromisoformat r2 - time_of fromisoformat r1 ≤ time_window self) →
    ∃ inc,
      filter (fun inc => inc_block_id inc = k) incs = [inc]
      ∧ logs inc
        = sort_by_timestamp (filter (same_block k) (logs_with_blocks batch)).
Proof.
  intros fromisoformat isoformat self batch incs k H Hk Hw.
  apply group_incidents_inv in H as [H _].
  destruct (partition_blocks_inv (logs_with_blocks batch)) as (_ & Hblk & Hcov).
  apply list_elem_of_fmap in Hk as (r & -> & Hr).
  apply Hcov, list_elem_of_fmap in Hr as ([k bl] & Hkeq & Hin). cbn in Hkeq.
  rewrite Hkeq in *. clear Hkeq r.
  destruct (Hblk _ _ Hin) as [Hbl Hne].
  destruct (incidents_of_key _ _ _ _ _ _ _ H Hin) as [_ [id Hc]].
  cbn [fst snd] in Hc. rewrite <- Hbl.
  assert (Hmem : ∀ r, r ∈ sort_by_timestamp bl →
                  r ∈ logs_with_blocks batch ∧ block_key r = k).
  { intros r Hr. rewrite sort_by_timestamp_perm, Hbl in Hr.
    by apply list_elem_of_filter in Hr as [? ?]. }
  destruct (sort_by_timestamp bl) as [|r rest] eqn:Hsort.
  { exfalso. apply Hne, Permutation_nil_r.
    by rewrite <- (sort_by_timestamp_perm bl), Hsort. }
  cbn [temporal_clusters] in Hc.
  rewrite clusters_from_within in Hc.
  - apply creates_logs in Hc. cbn in Hc.
    destruct (filter _ incs) as [|inc [|inc' rest']]; try done.
    exists inc. split; [done|]. by injection Hc.
  - apply Forall_forall. intros r' Hr'.
    destruct (Hmem r (list_elem_of_here _ _)) as [? ?].
    destruct (Hmem r') as [? ?]; [by right|]. by apply Hw.
Qed.

Lemma key_within_window_single_incident_mixed_batch :
  ∃ incs inc,
    group_incidents Iso.fromisoformat Iso.isoformat (__init__ 10) mixed_batch = Ok incs
    ∧ "blk_A" ∈ block_key <$> logs_with_blocks mixed_batch
    ∧ line_number <$> filter (same_block "blk_A") (logs_with_blocks mixed_batch)
      = [2; 4; 5]
    ∧ filter (fun inc => inc_block_id inc = "blk_A") incs = [inc]
    ∧ logs inc
      = sort_by_timestamp (filter (same_block "blk_A") (logs_with_blocks mixed_batch))
    ∧ length (logs inc) = 3%nat.
Proof.
  eexists.
  destruct (key_within_window_single_incident Iso.fromisoformat Iso.isoformat
              (__init__ 10) mixed_batch _ "blk_A" ltac:(vm_compute; reflexivity))
    as (inc & Hf & Hl).
  - vm_compute. right. left.
  - intros r1 r2 H1 H2 Hk1 Hk2.
    assert (Hcases : ∀ r, r ∈ logs_with_blocks mixed_batch → block_key r = "blk_A" →
                      63361859718000000 ≤ time_of Iso.fromisoformat r
                      ≤ 63361860060000000).
    { intros r Hr Hk. vm_compute in Hr.
      repeat (apply elem_of_cons in Hr as [->|Hr];
              [vm_compute in Hk; try discriminate Hk; by vm_compute|]).
      by apply elem_of_nil in Hr. }
    pose proof (Hcases r1 H1 Hk1). pose proof (Hcases r2 H2 Hk2).
    assert (time_window (__init__ 10) = 600000000) as -> by reflexivity. lia.
  - exists inc. split; [vm_compute; reflexivity|]. split; [vm_compute; right; left|].
    split; [vm_compute; reflexivity|]. split; [done|]. split; [done|].
    rewrite Hl. vm_compute. reflexivity.
Defined.

(** ** A negative window *)

(** [IncidentGrouper(time_window_minutes)] accepts a negative number
    (line 24). With timestamps whose string order is their order in time,
    the test of line 66 then never holds, so every incident has exactly one
    record and there are as many incidents as keyed records. *)
Theorem negative_window_one_record_per_incident :
  ∀ (fromisoformat : string → option Z) (isoformat : Z → string)
    (self : IncidentGrouper) (batch : list LogRecord) (incs : list Incident),
    time_window self < 0 →
    chronological fromisoformat (logs_with_blocks batch) = true →
    group_incidents fromisoformat isoformat self batch = Ok incs →
    length incs = length (logs_with_blocks batch)
    ∧ ∀ inc, inc ∈ incs → ∃ r, logs inc = [r] ∧ num_logs inc = 1.
Proof.
  intros fromisoformat isoformat self batch incs Hw Hchr H.
  apply group_incidents_inv in H as [H _].
  assert (Hone : ∀ inc, inc ∈ incs → ∃ r, logs inc = [r] ∧ num_logs inc = 1).
  { intros inc Hin.
    destruct (incident_origin _ _ _ _ _ _ H Hin) as (k & bl & a & Hb & Hp & Hcl & _).
    destruct (incident_num_logs _ _ _ _ _ _ H Hin) as [Hn _].
    apply partition_blocks_subset in Hb as [Hbl _].
    assert (Hmem : ∀ r, r ∈ sort_by_timestamp bl →
                    r ∈ logs_with_blocks batch
                    ∧ is_Some (fromisoformat (timestamp r))).
    { intros r Hr. rewrite sort_by_timestamp_perm in Hr. split.
      - rewrite Hbl in Hr. by apply list_elem_of_filter in Hr as [_ ?].
      - by eapply Forall_forall in Hp. }
    assert (Hsorted : StronglySorted
                        (fun x y => time_of fromisoformat x ≤ time_of fromisoformat y)
                        (sort_by_timestamp bl)).
    { eapply StronglySorted_impl_elem; [|apply sort_by_timestamp_sorted].
      intros x y Hx Hy Hle.
      destruct (Hmem x Hx), (Hmem y Hy). by eapply chronological_spec. }
    destruct (sort_by_timestamp bl) as [|r rest]; [by apply elem_of_nil in Hcl|].
    cbn [temporal_clusters] in Hcl.
    apply StronglySorted_inv in Hsorted as [Hs Hall].
    rewrite clusters_from_singletons in Hcl; [|done|done|done].
    apply elem_of_cons in Hcl as [Hcl|Hcl].
    - injection Hcl as _ Hl. exists r. rewrite Hn, Hl. done.
    - apply list_elem_of_fmap in Hcl as (r' & Hcl & _).
      injection Hcl as _ Hl. exists r'. rewrite Hn, Hl. done. }
  split; [|done].
  apply Nat2Z.inj. rewrite <- (build_incidents_total_logs _ _ _ _ _ H).
  clear H. induction incs as [|inc incs IH]; [done|].
  cbn [foldr length]. destruct (Hone inc) as (r & _ & ->); [left|].
  rewrite <- IH; [lia|]. intros inc' Hin'. apply Hone. by right.
Qed.

Lemma negative_window_one_record_per_incident_scenario :
  time_window (__init__ (-1)) < 0
  ∧ chronological Iso.fromisoformat (logs_with_blocks scenario) = true
  ∧ ∃ incs,
      group_incidents Iso.fromisoformat Iso.isoformat (__init__ (-1)) scenario = Ok incs
      ∧ length incs = length (logs_with_blocks scenario)
      ∧ ∀ inc, inc ∈ incs → ∃ r, logs inc = [r] ∧ num_logs inc = 1.
Proof.
  split; [by vm_compute|]. split; [reflexivity|].
  eexists. split; [vm_compute; reflexivity|].
  exact (negative_window_one_record_per_incident Iso.fromisoformat Iso.isoformat
           (__init__ (-1)) scenario _ ltac:(by vm_compute) ltac:(reflexivity)
           ltac:(vm_compute; reflexivity)).
Defined.

(** ** Grouping again *)

(** The grouping of a batch is a fixed point: the members of the incidents,
    laid end to end, all have a key, and grouping them again with the same
    window returns the same incidents, identifiers included. *)
Theorem regrouping_members_returns_incidents :
  ∀ (fromisoformat : string → option Z) (isoformat : Z → string)
    (self : IncidentGrouper) (batch : list LogRecord) (incs : list Incident),
    group_incidents fromisoformat isoformat self batch = Ok incs →
    logs_with_blocks (concat (logs <$> incs)) = concat (logs <$> incs)
    ∧ group_incidents fromisoformat isoformat self (concat (logs <$> incs))
      = Ok incs.
Proof.
  intros fromisoformat isoformat self batch incs H.
  apply group_incidents_inv in H as [H Hne].
  destruct (build_incidents_regroup _ _ _ _ _ H) as [Hflat Hb].
  split; [done|]. apply group_incidents_build; [done|].
  rewrite Hflat. intros Hnil.
  destruct (build_incidents_count _ _ _ _ _ Hb) as [_ Hhi].
  rewrite Hflat, Hnil in Hhi. destruct incs; [done|]. cbn in Hhi. lia.
Qed.

Lemma regrouping_members_returns_incidents_mixed_batch :
  ∃ incs,
    group_incidents Iso.fromisoformat Iso.isoformat (__init__ 5) mixed_batch = Ok incs
    ∧ length incs = 3%nat
    ∧ group_incidents Iso.fromisoformat Iso.isoformat (__init__ 5)
        (concat (logs <$> incs)) = Ok incs.
Proof.
  eexists. split; [vm_compute; reflexivity|]. split; [reflexivity|].
  exact (proj2 (regrouping_members_returns_incidents Iso.fromisoformat Iso.isoformat
           (__init__ 5) mixed_batch _ ltac:(vm_compute; reflexivity))).
Defined.

(** ** The severity distribution *)

Lemma foldr_add_perm (l1 l2 : list Z) :
  l1 ≡ₚ l2 → foldr Z.add 0 l1 = foldr Z.add 0 l2.
Proof. induction 1; cbn; lia. Qed.

Lemma indicator_sum (a : string) (ks : list string) :
  NoDup ks → a ∈ ks →
  foldr (fun k acc => (if decide (a = k) then 1 else 0) + acc) 0 ks = 1.
Proof.
  induction 1 as [|k ks Hk Hnd IH]; [by intros ?%elem_of_nil|].
  intros Hin. cbn [foldr]. destruct (decide (a = k)) as [->|Hne].
  - assert (foldr (fun k0 acc => (if decide (k = k0) then 1 else 0) + acc) 0 ks = 0)
      as ->; [|lia].
    clear IH Hnd Hin. induction ks as [|k' ks IH]; [done|]. cbn [foldr].
    destruct (decide (k = k')) as [->|]; [exfalso; apply Hk; left|].
    rewrite IH; [lia|]. intros ?. apply Hk. by right.
  - apply elem_of_cons in Hin as [?|Hin]; [done|]. rewrite IH by done. lia.
Qed.

Lemma py_count_cons (k a : string) (l : list string) :
  py_count k (a :: l) = (if decide (a = k) then 1 else 0) + py_count k l.
Proof.
  unfold py_count. rewrite filter_cons. destruct (decide (a = k)); cbn [length]; lia.
Qed.

Lemma py_count_sum (ks l : list string) :
  NoDup ks → (∀ x, x ∈ l → x ∈ ks) →
  foldr (fun k acc => py_count k l + acc) 0 ks = Z.of_nat (length l).
Proof.
  intros Hnd. induction l as [|a l IH]; intros Hin.
  - clear. induction ks as [|k ks IH]; [done|]. cbn [foldr]. by rewrite IH.
  - assert (Hsplit : ∀ ks',
      foldr (fun k acc => py_count k (a :: l) + acc) 0 ks'
      = foldr (fun k acc => (if decide (a = k) then 1 else 0) + acc) 0 ks'
        + foldr (fun k acc => py_count k l + acc) 0 ks').
    { induction ks' as [|k ks' IH']; [done|]. cbn [foldr].
      rewrite IH', py_count_cons. lia. }
    rewrite Hsplit, indicator_sum, IH; [cbn [length]; lia| |done|].
    + intros x Hx. apply Hin. by right.
    + apply Hin. left.
Qed.

Lemma py_count_pos (k : string) (l : list string) : k ∈ l → 1 ≤ py_count k l.
Proof.
  intros Hin. unfold py_count.
  assert (Hk : k ∈ filter (fun y => y = k) l) by by apply list_elem_of_filter.
  destruct (filter _ l); [by apply elem_of_nil in Hk|]. cbn [length]. lia.
Qed.

Lemma severity_distribution_total (severities : list string) :
  sumZ ((map_to_list (severity_distribution severities)).*2)
  = Z.of_nat (length severities).
Proof.
  unfold severity_distribution, set_to_map.
  set (ks := elements (list_to_set severities : gset string)).
  assert (Hnd : NoDup ks) by apply NoDup_elements.
  assert (Hin : ∀ x, x ∈ severities → x ∈ ks).
  { intros x Hx. apply elem_of_elements, elem_of_list_to_set, Hx. }
  rewrite sumZ_foldr.
  rewrite (foldr_add_perm _ ((fun lvl => py_count lvl severities) <$> ks)).
  - rewrite <- (py_count_sum ks severities Hnd Hin).
    clear. induction ks as [|k ks IH]; [done|]. cbn. by rewrite IH.
  - rewrite map_to_list_to_map.
    + by rewrite <- list_fmap_compose.
    + rewrite <- list_fmap_compose.
      assert ((fst ∘ (fun lvl => (lvl, py_count lvl severities))) <$> ks = ks) as ->;
        [|done].
      clear. induction ks as [|k ks IH]; [done|]. cbn. by rewrite IH.
Qed.

Lemma get_incident_stats_distribution (incs : list Incident) :
  incs ≠ [] →
  ∃ stats,
    get_incident_stats incs = Ok stats
    ∧ stats !! "severity_distribution"
      = Some (VDict (severity_distribution (severity <$> incs))).
Proof.
  intros Hne. unfold get_incident_stats.
  destruct incs as [|inc0 incs']; [done|].
  set (incs := inc0 :: incs').
  assert (Hlen : length incs ≠ 0%nat) by done.
  assert (Hnl : num_logs <$> incs ≠ []) by done.
  clearbody incs. clear Hne.
  rewrite length_fmap, !py_div_length_pos by done.
  destruct (py_min_is_Ok (num_logs <$> incs) Hnl) as [mn Hmn].
  destruct (py_max_is_Ok (num_logs <$> incs) Hnl) as [mx Hmx].
  rewrite Hmn, Hmx. cbn [mbind result_bind].
  eexists. split; [reflexivity|]. by simplify_map_eq.
Qed.

(** The severity distribution counts every incident once (lines 126,
    135-138): for a non-empty list of incidents, the counts of the
    dictionary add up to [total_incidents], and every label it holds has a
    count of at least 1. *)
Theorem severity_distribution_counts_every_incident :
  ∀ incs : list Incident,
    incs ≠ [] →
    ∃ stats distribution,
      get_incident_stats incs = Ok stats
      ∧ stats !! "severity_distribution" = Some (VDict distribution)
      ∧ stats !! "total_incidents"
        = Some (VInt (sumZ ((map_to_list distribution).*2)))
      ∧ ∀ lbl n, distribution !! lbl = Some n → 1 ≤ n.
Proof.
  intros incs Hne.
  destruct (get_incident_stats_distribution incs Hne) as (stats & Hs & Hd).
  destruct (get_incident_stats_entries incs Hne)
    as (mn & mx & avg & avgd & stats' & Hs' & _ & _ & _ & _ & Hti & _).
  rewrite Hs in Hs'. injection Hs' as <-.
  exists stats, (severity_distribution (severity <$> incs)).
  split; [done|]. split; [done|]. split.
  - by rewrite severity_distribution_total, length_fmap.
  - intros lbl n Hl. rewrite severity_distribution_lookup in Hl.
    case_decide as Hin; [|done]. injection Hl as <-. by apply py_count_pos.
Qed.

Lemma severity_distribution_counts_every_incident_scenario :
  scenario_incidents ≠ []
  ∧ ∃ stats distribution,
      get_incident_stats scenario_incidents = Ok stats
      ∧ stats !! "severity_distribution" = Some (VDict distribution)
      ∧ stats !! "total_incidents"
        = Some (VInt (sumZ ((map_to_list distribution).*2)))
      ∧ ∀ lbl n, distribution !! lbl = Some n → 1 ≤ n.
Proof.
  split; [done|].
  apply (severity_distribution_counts_every_incident scenario_incidents). done.
Defined.

(** * The parser: [src/hdfs_parser.py] *)

Section ParserProofs.
Import HDFSLogParser.

(** ** Strings *)

Lemma append_cons (x : ascii) (a b : string) :
  String x a +:+ b = String x (a +:+ b).
Proof. reflexivity. Qed.

Lemma append_nil_l (b : string) : "" +:+ b = b.
Proof. reflexivity. Qed.

Lemma append_assoc (a b c : string) : (a +:+ b) +:+ c = a +:+ (b +:+ c).
Proof. induction a as [|x a IH]; [done|]. by rewrite !append_cons, IH. Qed.

Lemma append_nil_r (a : string) : a +:+ "" = a.
Proof. induction a as [|x a IH]; [done|]. by rewrite append_cons, IH. Qed.

Lemma all_chars_app (p : ascii → bool) (a b : string) :
  all_chars p (a +:+ b) = all_chars p a && all_chars p b.
Proof.
  induction a as [|x a IH]; [done|]. rewrite append_cons. cbn [all_chars].
  rewrite IH. by rewrite andb_assoc.
Qed.

Lemma is_empty_true (s : string) : is_empty s = true ↔ s = "".
Proof. by destruct s. Qed.

Lemma span_spec (p : ascii → bool) (s a b : string) :
  span p s = (a, b) →
  s = a +:+ b ∧ all_chars p a = true ∧ stops p b = true.
Proof.
  revert a b. induction s as [|c s IH]; intros a b H; cbn in H.
  - by injection H as <- <-.
  - destruct (p c) eqn:Hc.
    + destruct (span p s) as [a' b'] eqn:Hs. injection H as <- <-.
      destruct (IH _ _ eq_refl) as (-> & Ha & Hb). cbn [all_chars].
      by rewrite Hc, Ha.
    + injection H as <- <-. cbn. by rewrite Hc.
Qed.

Lemma span_app (p : ascii → bool) (a b : string) :
  all_chars p a = true → stops p b = true → span p (a +:+ b) = (a, b).
Proof.
  intros Ha Hb. induction a as [|c a IH].
  - rewrite append_nil_l. destruct b as [|c b]; [done|]. cbn in Hb. cbn.
    by destruct (p c).
  - cbn in Ha. apply andb_true_iff in Ha as [Hc Ha].
    rewrite append_cons. cbn [span]. by rewrite Hc, IH.
Qed.

Lemma plus_spec (p : ascii → bool) (s a b : string) :
  plus p s = Some (a, b) →
  s = a +:+ b ∧ run_of p a = true ∧ stops p b = true.
Proof.
  unfold plus, run_of. destruct (span p s) as [a' b'] eqn:Hs.
  destruct (is_empty a') eqn:He; [done|]. intros [= <- <-].
  destruct (span_spec _ _ _ _ Hs) as (-> & Ha & Hb). by rewrite He, Ha.
Qed.

Lemma plus_app (p : ascii → bool) (a b : string) :
  run_of p a = true → stops p b = true → plus p (a +:+ b) = Some (a, b).
Proof.
  unfold run_of, plus. intros [He Ha]%andb_true_iff Hb.
  rewrite span_app by done. by destruct (is_empty a).
Qed.

Lemma digits6_spec (s d rest : string) :
  digits6 s = Some (d, rest) → s = d +:+ rest ∧ six_digits d = true.
Proof.
  unfold digits6, six_digits.
  destruct s as [|a [|b [|c [|e [|f [|g s]]]]]]; try done.
  destruct (is_digit a) eqn:Ha, (is_digit b) eqn:Hb, (is_digit c) eqn:Hc,
    (is_digit e) eqn:He, (is_digit f) eqn:Hf, (is_digit g) eqn:Hg; try done.
  intros [= <- <-]. split; [done|]. cbn. by rewrite Ha, Hb, Hc, He, Hf, Hg.
Qed.

Lemma digits6_app (d rest : string) :
  six_digits d = true → digits6 (d +:+ rest) = Some (d, rest).
Proof.
  unfold six_digits. intros [Hl Hd]%andb_true_iff.
  destruct d as [|a [|b [|c [|e [|f [|g [|h d]]]]]]]; try done.
  cbn in Hd. rewrite !append_cons, append_nil_l. unfold digits6.
  destruct (is_digit a), (is_digit b), (is_digit c), (is_digit e),
    (is_digit f), (is_digit g); done.
Qed.

Lemma run_of_stops (p q : ascii → bool) (a b : string) :
  (∀ c, p c = true → q c = false) → run_of p a = true → stops q (a +:+ b) = true.
Proof.
  unfold run_of. intros Hpq [He Ha]%andb_true_iff.
  destruct a as [|c a]; [done|]. cbn in Ha. apply andb_true_iff in Ha as [Hc _].
  rewrite append_cons. cbn. by rewrite (Hpq c Hc).
Qed.

(** ** The classes exclude what follows them in the pattern *)

Lemma code_range (c : ascii) : 0 ≤ code c < 256.
Proof.
  unfold code. pose proof (N_ascii_bounded c). lia.
Qed.

Ltac classes :=
  unfold is_component, is_word, is_space, is_digit, is_any, between;
  repeat rewrite ?orb_true_iff, ?orb_false_iff, ?andb_true_iff, ?andb_false_iff,
                 ?negb_true_iff, ?negb_false_iff;
  rewrite ?Z.leb_le, ?Z.leb_gt, ?Z.eqb_eq, ?Z.eqb_neq; lia.

Lemma digit_not_space (c : ascii) : is_digit c = true → is_space c = false.
Proof. classes. Qed.

Lemma space_not_digit (c : ascii) : is_space c = true → is_digit c = false.
Proof. classes. Qed.

Lemma digit_is_word (c : ascii) : is_digit c = true → is_word c = true.
Proof. unfold is_word. by intros ->. Qed.

Lemma word_not_space (c : ascii) : is_word c = true → is_space c = false.
Proof. classes. Qed.

Lemma space_not_word (c : ascii) : is_space c = true → is_word c = false.
Proof. classes. Qed.

Lemma component_not_space (c : ascii) : is_component c = true → is_space c = false.
Proof. classes. Qed.

Lemma space_not_component (c : ascii) : is_space c = true → is_component c = false.
Proof. classes. Qed.

Lemma six_digits_run (d : string) : six_digits d = true → run_of is_digit d = true.
Proof.
  unfold six_digits, run_of. intros [Hl Hd]%andb_true_iff.
  rewrite Hd. by destruct d.
Qed.

(** ** The pattern accepts exactly the lines of the format *)

Ltac bind_pair H E :=
  match type of H with
  | (?m ≫= _) = Some _ =>
      destruct m as [[? ?]|] eqn:E; [|discriminate H];
      cbn [mbind option_bind] in H
  end.

Lemma pattern_match_sound (line : string) (g : Groups) :
  pattern_match line = Some g →
  ∃ w1 w2 w3 w4 w5,
    line = assemble g w1 w2 w3 w4 w5 ∧ well_formed g w1 w2 w3 w4 w5 = true.
Proof.
  unfold pattern_match. intros H.
  bind_pair H E1. bind_pair H E2. bind_pair H E3. bind_pair H E4.
  bind_pair H E5. bind_pair H E6. bind_pair H E7. bind_pair H E8.
  bind_pair H E9.
  destruct (colon _) as [after|] eqn:E10; [|discriminate H].
  cbn [mbind option_bind] in H. bind_pair H E11.
  destruct (_ && _) eqn:E12; [|discriminate H]. injection H as <-.
  apply digits6_spec in E1 as [-> D1], E3 as [-> D3].
  apply plus_spec in E2 as (-> & R2 & _), E4 as (-> & R4 & _),
    E5 as (-> & R5 & _), E6 as (-> & R6 & _), E7 as (-> & R7 & _),
    E8 as (-> & R8 & _), E9 as (-> & R9 & _), E11 as (-> & R11 & S11).
  unfold colon in E10.
  match type of E10 with
  | match ?x with _ => _ end = _ => destruct x as [|c x'] eqn:Ex; [done|]
  end.
  destruct (Ascii.eqb_spec c ":") as [->|Hc].
  2:{ destruct c as [[] [] [] [] [] [] [] []]; try done. }
  injection E10 as ->.
  eexists _, _, _, _, _. split; [reflexivity|].
  unfold well_formed. cbn [date_str time_str g_thread_id g_level g_component g_message].
  unfold run_of at 4. by rewrite D1, D3, R2, R4, R5, R6, R7, R8, R9, R11, S11, E12.
Qed.

Lemma pattern_match_complete (g : Groups) (w1 w2 w3 w4 w5 : string) :
  well_formed g w1 w2 w3 w4 w5 = true →
  pattern_match (assemble g w1 w2 w3 w4 w5) = Some g.
Proof.
  unfold well_formed, assemble. destruct g as [date time thread lvl comp msg].
  cbn [date_str time_str g_thread_id g_level g_component g_message].
  rewrite !andb_true_iff.
  intros (((((((((((D1 & D2) & Rt) & Rl) & Rc) & Rm) & Sm) & W1) & W2) & W3) & W4) & W5).
  unfold pattern_match.
  rewrite digits6_app by done. cbn [mbind option_bind].
  rewrite plus_app; [|done|]. 2:{ eapply run_of_stops; [apply digit_not_space|].
                                  by apply six_digits_run. }
  cbn [mbind option_bind]. rewrite digits6_app by done. cbn [mbind option_bind].
  rewrite plus_app; [|done|by eapply run_of_stops; [apply digit_not_space|]].
  cbn [mbind option_bind].
  rewrite plus_app; [|done|by eapply run_of_stops; [apply space_not_digit|]].
  cbn [mbind option_bind].
  rewrite plus_app; [|done|by eapply run_of_stops; [apply word_not_space|]].
  cbn [mbind option_bind].
  rewrite plus_app; [|done|by eapply run_of_stops; [apply space_not_word|]].
  cbn [mbind option_bind].
  rewrite plus_app; [|done|by eapply run_of_stops; [apply component_not_space|]].
  cbn [mbind option_bind].
  rewrite plus_app; [|done|reflexivity].
  cbn [mbind option_bind]. rewrite append_cons, append_nil_l. cbn [colon].
  cbn [mbind option_bind].
  rewrite plus_app; [|done|done]. cbn [mbind option_bind].
  unfold run_of in Rm. by rewrite Rm.
Qed.

(** ** [strip] *)

Lemma lstrip_space_app (w s : string) :
  all_chars is_space w = true → lstrip (w +:+ s) = lstrip s.
Proof.
  induction w as [|c w IH]; [done|]. cbn [all_chars].
  intros [Hc Hw]%andb_true_iff. rewrite append_cons. cbn [lstrip].
  rewrite Hc. by apply IH.
Qed.

Lemma rstrip_space (w : string) : all_chars is_space w = true → rstrip w = "".
Proof.
  induction w as [|c w IH]; [done|]. cbn [all_chars].
  intros [Hc Hw]%andb_true_iff. cbn [rstrip]. by rewrite IH, Hc.
Qed.

Lemma rstrip_app_space (s w : string) :
  all_chars is_space w = true → rstrip (s +:+ w) = rstrip s.
Proof.
  intros Hw. induction s as [|c s IH].
  - rewrite append_nil_l. by apply rstrip_space.
  - rewrite append_cons. cbn [rstrip]. by rewrite IH.
Qed.

Lemma rstrip_cons (c : ascii) (s : string) :
  rstrip (String c s)
  = match rstrip s with
    | EmptyString => if is_space c then EmptyString else String c EmptyString
    | t => String c t
    end.
Proof. reflexivity. Qed.

Lemma rstrip_idem (s : string) : rstrip (rstrip s) = rstrip s.
Proof.
  induction s as [|c s IH]; [done|]. rewrite rstrip_cons.
  destruct (rstrip s) as [|c' t] eqn:E.
  - destruct (is_space c) eqn:Hc; [done|]. cbn. by rewrite Hc.
  - rewrite rstrip_cons. by rewrite IH.
Qed.

Lemma rstrip_head (c : ascii) (s : string) :
  is_space c = false → ∃ t, rstrip (String c s) = String c t.
Proof.
  intros Hc. cbn [rstrip]. destruct (rstrip s); rewrite ?Hc; eauto.
Qed.

Lemma lstrip_stops (s : string) : stops is_space (lstrip s) = true.
Proof.
  induction s as [|c s IH]; [done|]. cbn [lstrip].
  destruct (is_space c) eqn:Hc; [done|]. cbn. by rewrite Hc.
Qed.

Lemma lstrip_fixed (s : string) : stops is_space s = true → lstrip s = s.
Proof.
  destruct s as [|c s]; [done|]. cbn. by intros ->%negb_true_iff.
Qed.

Lemma strip_stops (s : string) : stops is_space (strip s) = true.
Proof.
  unfold strip. pose proof (lstrip_stops s) as H.
  destruct (lstrip s) as [|c t]; [done|]. cbn in H. apply negb_true_iff in H.
  destruct (rstrip_head c t H) as [t' ->]. cbn. by rewrite H.
Qed.

Lemma strip_idem (s : string) : strip (strip s) = strip s.
Proof.
  unfold strip at 1. rewrite lstrip_fixed by apply strip_stops.
  unfold strip. apply rstrip_idem.
Qed.

Lemma strip_surrounded (w1 w2 s : string) :
  all_chars is_space w1 = true → all_chars is_space w2 = true →
  strip (w1 +:+ s +:+ w2) = strip s.
Proof.
  intros H1 H2. unfold strip. rewrite lstrip_space_app by done.
  induction s as [|c s IH].
  - rewrite append_nil_l, <- (append_nil_r w2), lstrip_space_app by done. done.
  - rewrite append_cons. cbn [lstrip]. destruct (is_space c); [done|].
    rewrite <- append_cons. by apply rstrip_app_space.
Qed.

(** ** [parse_line] *)

Lemma parse_line_inv (line : string) (n : Z) (r : LogRecord) :
  parse_line line n = Some r →
  ∃ g, pattern_match (strip line) = Some g
    ∧ r = {| line_number := n;
             timestamp := timestamp_of (date_str g) (time_str g);
             thread_id := g_thread_id g;
             level := g_level g;
             component := g_component g;
             message := g_message g;
             block_id := block_search (g_message g);
             raw_line := strip line |}.
Proof.
  unfold parse_line. destruct (is_empty (strip line)); [done|].
  destruct (pattern_match (strip line)) as [g|]; [|done].
  intros [= <-]. by exists g.
Qed.

Lemma parse_line_matched (line : string) (n : Z) (g : Groups) :
  pattern_match (strip line) = Some g →
  parse_line line n
  = Some {| line_number := n;
            timestamp := timestamp_of (date_str g) (time_str g);
            thread_id := g_thread_id g;
            level := g_level g;
            component := g_component g;
            message := g_message g;
            block_id := block_search (g_message g);
            raw_line := strip line |}.
Proof.
  intros H. unfold parse_line. rewrite H.
  destruct (is_empty (strip line)) eqn:E; [|done].
  apply is_empty_true in E. by rewrite E in H.
Qed.

(** ** Timestamps *)

Lemma is_digit_value (c : ascii) :
  is_digit c = true → ∃ v, Iso.digit c = Some v ∧ 0 ≤ v ≤ 9.
Proof.
  unfold is_digit, between, code, Iso.digit. intros H. rewrite H.
  apply andb_true_iff in H as [H1 H2]. eexists. split; [done|]. lia.
Qed.

Lemma digit_of_char (n : Z) :
  0 ≤ n → Iso.digit (Iso.digit_char n) = Some (n mod 10).
Proof.
  intros Hn. unfold Iso.digit, Iso.digit_char.
  rewrite N_ascii_embedding by (pose proof (Z.mod_pos_bound n 10); lia).
  rewrite Z2N.id by (pose proof (Z.mod_pos_bound n 10); lia).
  pose proof (Z.mod_pos_bound n 10 ltac:(lia)).
  destruct (Z.leb_spec 48 (48 + n mod 10)); [|lia].
  destruct (Z.leb_spec (48 + n mod 10) 57); [|lia].
  cbn. f_equal. lia.
Qed.

Lemma digits2_pad (v : Z) :
  0 ≤ v ≤ 99 → Iso.digits2 (Iso.digit_char (v / 10)) (Iso.digit_char v) = Some v.
Proof.
  intros Hv. unfold Iso.digits2.
  rewrite !digit_of_char by (try apply Z.div_pos; lia).
  cbn. f_equal. rewrite (Z.mod_small (v / 10)); [|split; [apply Z.div_pos; lia|]].
  - pose proof (Z.div_mod v 10). lia.
  - apply Z.div_lt_upper_bound; lia.
Qed.

Lemma digits4_pad (v : Z) :
  0 ≤ v ≤ 9999 →
  Iso.digits4 (Iso.digit_char (v / 10 / 10 / 10)) (Iso.digit_char (v / 10 / 10))
              (Iso.digit_char (v / 10)) (Iso.digit_char v) = Some v.
Proof.
  intros Hv. unfold Iso.digits4.
  assert (H100 : 0 ≤ v / 10 / 10 ≤ 99).
  { split; [repeat apply Z.div_pos; lia|].
    rewrite Z.div_div by lia. apply Z.lt_succ_r.
    apply Z.div_lt_upper_bound; lia. }
  rewrite (digits2_pad (v / 10 / 10)) by done. cbn [mbind option_bind].
  unfold Iso.digits2. rewrite !digit_of_char by (try apply Z.div_pos; lia).
  cbn. f_equal. rewrite Z.div_div by lia.
  change (10 * 10) with 100.
  pose proof (Z.div_mod v 100 ltac:(lia)).
  pose proof (Z.div_mod v 10 ltac:(lia)).
  pose proof (Z.mod_pos_bound v 100 ltac:(lia)).
  pose proof (Z.mod_pos_bound v 10 ltac:(lia)).
  pose proof (Z.div_mod (v / 10) 10 ltac:(lia)).
  pose proof (Z.mod_pos_bound (v / 10) 10 ltac:(lia)).
  assert (v / 100 = v / 10 / 10) by (rewrite Z.div_div by lia; done).
  lia.
Qed.

Lemma read_isoformat (c : Iso.Civil) :
  0 ≤ Iso.year c ≤ 9999 → 0 ≤ Iso.month c ≤ 99 → 0 ≤ Iso.day c ≤ 99 →
  0 ≤ Iso.hour c ≤ 99 → 0 ≤ Iso.minute c ≤ 99 → 0 ≤ Iso.second c ≤ 99 →
  Iso.read (isoformat c) = Some c.
Proof.
  intros Hy Hmo Hd Hh Hmi Hs. destruct c as [y mo d h mi se]. cbn in *.
  unfold isoformat, Iso.read. cbn [Iso.pad Iso.year Iso.month Iso.day Iso.hour
    Iso.minute Iso.second list_ascii_of_string].
  change (Ascii.eqb "-" "-") with true. change (Ascii.eqb "T" "T") with true.
  change (Ascii.eqb ":" ":") with true. cbn [andb].
  rewrite digits4_pad by done. cbn [mbind option_bind].
  rewrite !digits2_pad by done. done.
Qed.

Lemma isoformat_length (c : Iso.Civil) : String.length (isoformat c) = 19%nat.
Proof. reflexivity. Qed.

Lemma is_leap_century (y : Z) :
  69 ≤ y ≤ 99 → Iso.is_leap (1900 + y) = Iso.is_leap (2000 + y).
Proof.
  intros Hy. unfold Iso.is_leap.
  assert ((1900 + y) mod 4 = y mod 4) as ->
    by (Z.to_euclidean_division_equations; lia).
  assert ((2000 + y) mod 4 = y mod 4) as ->
    by (Z.to_euclidean_division_equations; lia).
  assert ((1900 + y) mod 100 = y) as ->
    by (Z.to_euclidean_division_equations; lia).
  assert ((2000 + y) mod 100 = y) as ->
    by (Z.to_euclidean_division_equations; lia).
  destruct (Z.eqb_spec y 0); [lia|]. done.
Qed.

Lemma valid_century (y mo d h mi se : Z) :
  69 ≤ y ≤ 99 →
  Iso.valid (Iso.mkCivil (2000 + y) mo d h mi se)
  = Iso.valid (Iso.mkCivil (1900 + y) mo d h mi se).
Proof.
  intros Hy. unfold Iso.valid, Iso.days_in_month.
  cbn [Iso.year Iso.month Iso.day Iso.hour Iso.minute Iso.second].
  rewrite (is_leap_century y) by done.
  destruct (Z.leb_spec 1 (2000 + y)); [|lia].
  destruct (Z.leb_spec 1 (1900 + y)); [|lia]. done.
Qed.

Lemma timestamp_of_cases (date time : string) :
  six_digits date = true → six_digits time = true →
  String.length (timestamp_of date time) = 19%nat
  ∧ match strptime date time with
    | Some c =>
        timestamp_of date time = isoformat c
        ∧ 1969 ≤ Iso.year c ≤ 2068 ∧ Iso.valid c = true
        ∧ Iso.read (isoformat c) = Some c
    | None =>
        timestamp_of date time = fallback_timestamp date time
        ∧ ∃ c', Iso.read (fallback_timestamp date time) = Some c'
                ∧ Iso.valid c' = false
    end.
Proof.
  unfold six_digits. intros [L1 D1]%andb_true_iff [L2 D2]%andb_true_iff.
  destruct date as [|y1 [|y2 [|m1 [|m2 [|d1 [|d2 [|? ?]]]]]]]; try done.
  destruct time as [|h1 [|h2 [|n1 [|n2 [|s1 [|s2 [|? ?]]]]]]]; try done.
  clear L1 L2. cbn [all_chars] in D1, D2.
  rewrite !andb_true_iff in D1, D2.
  destruct D1 as (Hy1 & Hy2 & Hm1 & Hm2 & Hd1 & Hd2 & _).
  destruct D2 as (Hh1 & Hh2 & Hn1 & Hn2 & Hs1 & Hs2 & _).
  apply is_digit_value in Hy1 as (vy1 & Ey1 & ?), Hy2 as (vy2 & Ey2 & ?),
    Hm1 as (vm1 & Em1 & ?), Hm2 as (vm2 & Em2 & ?),
    Hd1 as (vd1 & Ed1 & ?), Hd2 as (vd2 & Ed2 & ?),
    Hh1 as (vh1 & Eh1 & ?), Hh2 as (vh2 & Eh2 & ?),
    Hn1 as (vn1 & En1 & ?), Hn2 as (vn2 & En2 & ?),
    Hs1 as (vs1 & Es1 & ?), Hs2 as (vs2 & Es2 & ?).
  unfold timestamp_of, strptime. cbn [list_ascii_of_string].
  unfold Iso.digits2.
  rewrite Ey1, Ey2, Em1, Em2, Ed1, Ed2, Eh1, Eh2, En1, En2, Es1, Es2.
  cbn [mbind option_bind].
  set (y := 10 * vy1 + vy2). set (mo := 10 * vm1 + vm2). set (d := 10 * vd1 + vd2).
  set (h := 10 * vh1 + vh2). set (mi := 10 * vn1 + vn2). set (se := 10 * vs1 + vs2).
  set (year := if y <=? 68 then 2000 + y else 1900 + y).
  assert (Hyear : 1969 ≤ year ≤ 2068).
  { subst year y. destruct (Z.leb_spec (10 * vy1 + vy2) 68); lia. }
  destruct (Iso.valid (Iso.mkCivil year mo d h mi se)) eqn:V.
  - split; [apply isoformat_length|]. split; [done|]. split; [by cbn|].
    split; [done|]. apply read_isoformat; cbn; lia.
  - split; [reflexivity|]. split; [done|].
    exists (Iso.mkCivil (2000 + y) mo d h mi se). split.
    + unfold Iso.read.
      change (list_ascii_of_string (fallback_timestamp _ _))
        with ["2"; "0"; y1; y2; "-"; m1; m2; "-"; d1; d2; "T";
              h1; h2; ":"; n1; n2; ":"; s1; s2]%char.
      cbv beta iota.
      change (Ascii.eqb "-" "-") with true. change (Ascii.eqb "T" "T") with true.
      change (Ascii.eqb ":" ":") with true. cbn [andb].
      unfold Iso.digits4, Iso.digits2.
      rewrite Ey1, Ey2, Em1, Em2, Ed1, Ed2, Eh1, Eh2, En1, En2, Es1, Es2.
      change (Iso.digit "2") with (Some 2). change (Iso.digit "0") with (Some 0).
      cbn [mbind option_bind].
      fold y mo d h mi se.
      by replace (100 * (10 * 2 + 0) + y) with (2000 + y) by lia.
    + subst year. destruct (Z.leb_spec y 68); [done|].
      rewrite valid_century; [done|]. subst y. lia.
Qed.

Lemma timestamp_of_read (date time : string) :
  six_digits date = true → six_digits time = true →
  String.length (timestamp_of date time) = 19%nat
  ∧ Iso.fromisoformat (timestamp_of date time)
    = Iso.to_microseconds <$> strptime date time
  ∧ ∀ c, strptime date time = Some c →
         1969 ≤ Iso.year c ≤ 2068 ∧ Iso.valid c = true.
Proof.
  intros D1 D2. destruct (timestamp_of_cases date time D1 D2) as [Hlen Hc].
  split; [done|]. unfold Iso.fromisoformat.
  destruct (strptime date time) as [c|].
  - destruct Hc as (-> & Hy & Hv & Hr). rewrite Hr. cbn. rewrite Hv.
    split; [done|]. by intros ? [= <-].
  - destruct Hc as (-> & c' & Hr & Hv). rewrite Hr. cbn. by rewrite Hv.
Qed.

Lemma parse_line_groups (line : string) (n : Z) (r : LogRecord) :
  parse_line line n = Some r →
  ∃ g, pattern_match (strip line) = Some g
    ∧ six_digits (date_str g) = true ∧ six_digits (time_str g) = true
    ∧ timestamp r = timestamp_of (date_str g) (time_str g)
    ∧ message r = g_message g
    ∧ block_id r = block_search (g_message g)
    ∧ line_number r = n.
Proof.
  intros H. apply parse_line_inv in H as (g & Hg & ->). exists g.
  destruct (pattern_match_sound _ _ Hg) as (w1 & w2 & w3 & w4 & w5 & _ & Hwf).
  unfold well_formed in Hwf. rewrite !andb_true_iff in Hwf.
  by destruct Hwf as (((((((((((D1 & D2) & _) & _) & _) & _) & _) & _) & _) & _) & _) & _).
Qed.

(** ** Block identifiers *)

Ltac ascii_cases c := destruct c as [[] [] [] [] [] [] [] []].

Lemma block_at_eq (s : string) :
  block_at s
  = match s with
    | String c1 (String c2 (String c3 (String c4 rest))) =>
        if Ascii.eqb c1 "b" && Ascii.eqb c2 "l" && Ascii.eqb c3 "k"
           && Ascii.eqb c4 "_"
        then
          match rest with
          | EmptyString => None
          | String c5 rest' =>
              if Ascii.eqb c5 "-"
              then let '(ds, _) := span is_digit rest' in
                   if is_empty ds then None else Some ("blk_-" +:+ ds)
              else let '(ds, _) := span is_digit rest in
                   if is_empty ds then None else Some ("blk_" +:+ ds)
          end
        else None
    | _ => None
    end.
Proof.
  destruct s as [|c1 s]; [done|].
  ascii_cases c1; try (by destruct s as [|? [|? [|? ?]]]).
  destruct s as [|c2 s]; [done|].
  ascii_cases c2; try (by destruct s as [|? [|? ?]]).
  destruct s as [|c3 s]; [done|].
  ascii_cases c3; try (by destruct s as [|? ?]).
  destruct s as [|c4 s]; [done|].
  ascii_cases c4; try done.
  destruct s as [|c5 s]; [done|].
  ascii_cases c5; reflexivity.
Qed.

Lemma block_at_spec (s b : string) :
  block_at s = Some b →
  ∃ sign ds post,
    s = b +:+ post ∧ b = "blk_" +:+ sign +:+ ds
    ∧ (sign = "" ∨ sign = "-")
    ∧ run_of is_digit ds = true ∧ stops is_digit post = true.
Proof.
  rewrite block_at_eq.
  destruct s as [|c1 [|c2 [|c3 [|c4 rest]]]]; try done.
  destruct (Ascii.eqb_spec c1 "b") as [->|]; [|done].
  destruct (Ascii.eqb_spec c2 "l") as [->|]; [|done].
  destruct (Ascii.eqb_spec c3 "k") as [->|]; [|done].
  destruct (Ascii.eqb_spec c4 "_") as [->|]; [|done]. cbn [andb].
  destruct rest as [|c5 rest']; [done|].
  destruct (Ascii.eqb_spec c5 "-") as [->|_].
  - destruct (span is_digit rest') as [ds post] eqn:Hs.
    destruct (is_empty ds) eqn:He; [done|]. intros [= <-].
    apply span_spec in Hs as (-> & Hd & Hp).
    exists "-", ds, post. unfold run_of. rewrite He, Hd.
    split; [|by auto]. by rewrite !append_cons, append_nil_l.
  - destruct (span is_digit (String c5 rest')) as [ds post] eqn:Hs.
    destruct (is_empty ds) eqn:He; [done|]. intros [= <-].
    apply span_spec in Hs as (Hs & Hd & Hp).
    exists "", ds, post. unfold run_of. rewrite He, Hd, Hs.
    split; [|by auto]. by rewrite !append_cons, !append_nil_l.
Qed.

Lemma block_at_complete (sign post : string) (c : ascii) :
  sign = "" ∨ sign = "-" → is_digit c = true →
  is_Some (block_at ("blk_" +:+ sign +:+ String c post)).
Proof.
  intros Hsign Hc. rewrite block_at_eq.
  assert (Hne : ∀ t, is_empty (String c t) = false) by done.
  destruct Hsign as [->| ->]; rewrite !append_cons, !append_nil_l; cbn [Ascii.eqb andb].
  - change (("b" =? "b")%char && ("l" =? "l")%char && ("k" =? "k")%char
            && ("_" =? "_")%char) with true. cbv beta iota.
    destruct (Ascii.eqb_spec c "-") as [->|_]; [done|].
    cbn [span]. rewrite Hc. destruct (span is_digit post). by cbn.
  - change (("b" =? "b")%char && ("l" =? "l")%char && ("k" =? "k")%char
            && ("_" =? "_")%char) with true. cbv beta iota.
    change (("-" =? "-")%char) with true. cbv beta iota.
    cbn [span]. rewrite Hc. destruct (span is_digit post). by cbn.
Qed.

Lemma block_search_cons (c : ascii) (s : string) :
  block_search (String c s)
  = match block_at (String c s) with
    | Some b => Some b
    | None => block_search s
    end.
Proof. reflexivity. Qed.

Lemma block_search_spec (s b : string) :
  block_search s = Some b →
  ∃ pre post,
    s = pre +:+ b +:+ post ∧ block_at (b +:+ post) = Some b
    ∧ ∀ p1 p2, pre = p1 +:+ p2 → p2 ≠ "" → block_at (p2 +:+ b +:+ post) = None.
Proof.
  induction s as [|c s IH].
  - cbn. done.
  - rewrite block_search_cons. destruct (block_at (String c s)) as [b'|] eqn:E.
    + intros [= ->]. destruct (block_at_spec _ _ E) as (sign & ds & post & Hs & _).
      exists "", post. rewrite append_nil_l, <- Hs. split; [done|]. split; [done|].
      intros p1 p2 Hp Hne. destruct p1; [|done]. by rewrite append_nil_l in Hp.
    + intros H. destruct (IH H) as (pre & post & -> & Hat & Hleft).
      exists (String c pre), post. rewrite append_cons. split; [done|]. split; [done|].
      intros p1 p2 Hp Hne. destruct p1 as [|c' p1].
      * rewrite append_nil_l in Hp. subst p2. by rewrite append_cons.
      * rewrite append_cons in Hp. injection Hp as <- ->.
        by apply (Hleft p1 p2).
Qed.

Lemma block_search_none (s : string) :
  block_search s = None → ∀ pre rest, s = pre +:+ rest → block_at rest = None.
Proof.
  induction s as [|c s IH]; intros H pre rest Hs.
  - destruct pre; [|done]. rewrite append_nil_l in Hs. by subst rest.
  - rewrite block_search_cons in H.
    destruct (block_at (String c s)) eqn:E; [done|].
    destruct pre as [|c' pre].
    + rewrite append_nil_l in Hs. by subst rest.
    + rewrite append_cons in Hs. injection Hs as _ ->. by eapply IH.
Qed.

(** ** [parse_file] *)

Lemma records_from_0 (n : Z) (ls : list string) : records_from n ls 0 = [].
Proof. unfold records_from. by rewrite take_0. Qed.

Lemma records_from_nil (n : Z) (k : nat) : records_from n [] k = [].
Proof. unfold records_from. by rewrite take_nil. Qed.

Lemma records_from_cons (n : Z) (l : string) (ls : list string) (k : nat) :
  records_from n (l :: ls) (S k)
  = match parse_line l n with Some r => [r] | None => [] end
    ++ records_from (n + 1) ls k.
Proof.
  unfold records_from. rewrite firstn_cons, imap_cons.
  cbn [omap list_omap]. change (Z.of_nat 0 + n) with n.
  assert (imap ((fun i line => parse_line line (Z.of_nat i + n)) ∘ S) (take k ls)
          = imap (fun i line => parse_line line (Z.of_nat i + (n + 1))) (take k ls))
    as ->.
  { apply imap_ext. intros i x _. cbn. f_equal. lia. }
  by destruct (parse_line l n).
Qed.

Lemma handled_from_cons (max_lines : option Z) (n : Z) (l : string)
    (ls : list string) :
  over_limit max_lines n = false →
  handled_from max_lines n (l :: ls) = S (handled_from max_lines (n + 1) ls).
Proof.
  unfold over_limit, handled_from. destruct max_lines as [m|]; [|done].
  destruct (Z.eqb_spec m 0); [done|]. cbn [negb andb length].
  intros H%Z.ltb_ge.
  replace (m - n + 1) with (Z.succ (m - (n + 1) + 1)) by lia.
  rewrite Z2Nat.inj_succ by lia. done.
Qed.

Lemma handled_from_over (max_lines : option Z) (n : Z) (ls : list string) :
  over_limit max_lines n = true → handled_from max_lines n ls = 0%nat.
Proof.
  unfold over_limit, handled_from. destruct max_lines as [m|]; [|done].
  destruct (Z.eqb_spec m 0); [done|]. cbn [negb andb].
  intros H%Z.ltb_lt. lia.
Qed.

Lemma handled_from_le (max_lines : option Z) (n : Z) (ls : list string) :
  (handled_from max_lines n ls ≤ length ls)%nat.
Proof.
  unfold handled_from. destruct max_lines as [m|]; [|done].
  destruct (m =? 0); lia.
Qed.

Lemma parse_loop_spec (max_lines : option Z) (ls : list string) (n : Z)
    (st : FileState) :
  let k := handled_from max_lines n ls in
  let st' := parse_loop max_lines ls n st in
  parsed_logs st' = parsed_logs st ++ records_from n ls k
  ∧ failed_count st'
    = failed_count st + Z.of_nat k - Z.of_nat (length (records_from n ls k))
  ∧ line_num st'
    = match ls with
      | [] => line_num st
      | _ :: _ =>
          Some (if (k <? length ls)%nat then n + Z.of_nat k
                else n + Z.of_nat k - 1)
      end.
Proof.
  revert n st. induction ls as [|l ls IH]; intros n st; cbn zeta.
  - cbn [parse_loop]. rewrite records_from_nil, app_nil_r.
    assert (handled_from max_lines n [] = 0%nat) as ->.
    { pose proof (handled_from_le max_lines n []) as H. cbn in H. lia. }
    cbn. split; [done|]. split; [lia|done].
  - cbn [parse_loop]. destruct (over_limit max_lines n) eqn:Hov.
    + rewrite handled_from_over by done. rewrite records_from_0, app_nil_r.
      cbn. split; [done|]. split; [lia|]. f_equal. lia.
    + rewrite handled_from_cons by done. rewrite records_from_cons.
      pose proof (handled_from_le max_lines (n + 1) ls) as Hle.
      set (k := handled_from max_lines (n + 1) ls) in *.
      assert (Hnum : match ls with
                     | [] => Some n
                     | _ :: _ => Some (if (k <? length ls)%nat
                                       then n + 1 + Z.of_nat k
                                       else n + 1 + Z.of_nat k - 1)
                     end
                     = Some (if (S k <? length (l :: ls))%nat
                             then n + Z.of_nat (S k)
                             else n + Z.of_nat (S k) - 1)).
      { destruct ls as [|l' ls'].
        - cbn in Hle. assert (k = 0%nat) as -> by lia. cbn. f_equal. lia.
        - cbn [length] in *. f_equal.
          destruct (Nat.ltb_spec k (S (length ls'))),
            (Nat.ltb_spec (S k) (S (S (length ls')))); lia. }
      destruct (parse_line l n) as [r|] eqn:Hr.
      * destruct (IH (n + 1) {| parsed_logs := parsed_logs st ++ [r];
                                failed_count := failed_count st;
                                line_num := Some n |}) as (H1 & H2 & H3).
        fold k in H1, H2, H3. cbn [parsed_logs failed_count line_num] in H1, H2, H3.
        rewrite H1, H2, H3, Hnum. rewrite <- app_assoc. cbn [app length].
        split; [done|]. split; [lia|done].
      * destruct (IH (n + 1) {| parsed_logs := parsed_logs st;
                                failed_count := failed_count st + 1;
                                line_num := Some n |}) as (H1 & H2 & H3).
        fold k in H1, H2, H3. cbn [parsed_logs failed_count line_num] in H1, H2, H3.
        rewrite H1, H2, H3, Hnum. cbn [app length].
        split; [done|]. split; [lia|done].
Qed.

Lemma handled_from_1 (max_lines : option Z) (ls : list string) :
  handled_from max_lines 1 ls = lines_handled max_lines ls.
Proof.
  unfold handled_from, lines_handled. destruct max_lines as [m|]; [|done].
  by replace (m - 1 + 1) with m by lia.
Qed.

Lemma records_from_1 (ls : list string) (k : nat) :
  records_from 1 ls k = records_of ls k.
Proof. reflexivity. Qed.

Lemma run_spec (lines : list string) (max_lines : option Z) :
  let k := lines_handled max_lines lines in
  parsed_logs (run lines max_lines) = records_of lines k
  ∧ failed_count (run lines max_lines)
    = Z.of_nat k - Z.of_nat (length (records_of lines k))
  ∧ line_num (run lines max_lines)
    = match lines with
      | [] => None
      | _ :: _ => Some (if (k <? length lines)%nat then Z.of_nat k + 1
                        else Z.of_nat k)
      end.
Proof.
  cbn zeta. unfold run.
  destruct (parse_loop_spec max_lines lines 1
              {| parsed_logs := []; failed_count := 0; line_num := None |})
    as (H1 & H2 & H3).
  rewrite handled_from_1, records_from_1 in *.
  cbn [parsed_logs failed_count line_num] in *. rewrite H1, H2, H3.
  split; [done|]. split; [lia|]. destruct lines; [done|]. f_equal.
  destruct (_ <? _)%nat; lia.
Qed.

Lemma records_from_length (n : Z) (ls : list string) (k : nat) :
  (length (records_from n ls k) ≤ k)%nat.
Proof.
  revert n k. induction ls as [|l ls IH]; intros n k.
  - rewrite records_from_nil. cbn. lia.
  - destruct k as [|k]; [by rewrite records_from_0|].
    rewrite records_from_cons, length_app. specialize (IH (n + 1) k).
    destruct (parse_line l n); cbn; lia.
Qed.

Lemma records_from_elem (n : Z) (ls : list string) (k : nat) (r : LogRecord) :
  r ∈ records_from n ls k →
  ∃ i line, (i < k)%nat ∧ ls !! i = Some line
    ∧ line_number r = n + Z.of_nat i ∧ parse_line line (line_number r) = Some r.
Proof.
  revert n k. induction ls as [|l ls IH]; intros n k.
  - rewrite records_from_nil. by intros ?%elem_of_nil.
  - destruct k as [|k]; [rewrite records_from_0; by intros ?%elem_of_nil|].
    rewrite records_from_cons. intros [Hr|Hr]%elem_of_app.
    + destruct (parse_line l n) as [r'|] eqn:E; [|by apply elem_of_nil in Hr].
      apply list_elem_of_singleton in Hr as ->.
      pose proof (parse_line_inv _ _ _ E) as (g & _ & Heq).
      assert (Hn : line_number r' = n) by by rewrite Heq.
      exists 0%nat, l. rewrite Hn. split; [lia|]. split; [done|].
      split; [lia|done].
    + destruct (IH _ _ Hr) as (i & line & Hi & Hl & Hn & Hp).
      exists (S i), line. split; [lia|]. split; [done|]. split; [lia|done].
Qed.

Lemma records_from_sorted (n : Z) (ls : list string) (k : nat) :
  StronglySorted (fun a b => line_number a < line_number b) (records_from n ls k).
Proof.
  revert n k. induction ls as [|l ls IH]; intros n k.
  - rewrite records_from_nil. constructor.
  - destruct k as [|k]; [rewrite records_from_0; constructor|].
    rewrite records_from_cons.
    destruct (parse_line l n) as [r|] eqn:E; [|apply IH].
    cbn [app]. constructor; [apply IH|].
    apply Forall_forall. intros r' Hr'.
    destruct (records_from_elem _ _ _ _ Hr') as (i & _ & _ & _ & Hn & _).
    pose proof (parse_line_inv _ _ _ E) as (g & _ & Heq).
    assert (line_number r = n) by by rewrite Heq. lia.
Qed.

Lemma records_from_prefix (n : Z) (ls : list string) (k1 k2 : nat) :
  (k1 ≤ k2)%nat → records_from n ls k1 `prefix_of` records_from n ls k2.
Proof.
  revert n k1 k2. induction ls as [|l ls IH]; intros n k1 k2 Hk.
  - by rewrite !records_from_nil.
  - destruct k1 as [|k1]; [rewrite records_from_0; apply prefix_nil|].
    destruct k2 as [|k2]; [lia|]. rewrite !records_from_cons.
    apply prefix_app, IH. lia.
Qed.

Lemma sorted_line_numbers_NoDup (l : list LogRecord) :
  StronglySorted (fun a b => line_number a < line_number b) l → NoDup l.
Proof.
  induction 1 as [|r l Hs IH Hall]; constructor; [|done].
  intros Hin. eapply Forall_forall in Hall; [|done]. lia.
Qed.

(** ** From the parser to the grouper *)

Lemma parsed_key_nonempty (line : string) (n : Z) (r : LogRecord) :
  parse_line line n = Some r →
  has_block_id r = true ↔ is_Some (block_id r).
Proof.
  intros H. apply parse_line_groups in H as (g & _ & _ & _ & _ & _ & Hb & _).
  unfold has_block_id. rewrite Hb.
  destruct (block_search (g_message g)) as [b|] eqn:E.
  - destruct (block_search_spec _ _ E) as (pre & post & _ & Hat & _).
    destruct (block_at_spec _ _ Hat) as (sign & ds & post' & _ & -> & _).
    split; [by eauto|done].
  - split; [done|]. by intros [? ?].
Qed.

Lemma filter_iff_elem {A : Type} (P Q : A → Prop)
    `{∀ x, Decision (P x)} `{∀ x, Decision (Q x)} (l : list A) :
  (∀ x, x ∈ l → P x ↔ Q x) → filter P l = filter Q l.
Proof.
  induction l as [|a l IH]; intros HPQ; [done|].
  rewrite !filter_cons. rewrite IH by (intros x Hx; apply HPQ; by right).
  destruct (decide (P a)) as [Hp|Hp], (decide (Q a)) as [Hq|Hq]; try done.
  - exfalso. apply Hq, HPQ; [left|done].
  - exfalso. apply Hp, HPQ; [left|done].
Qed.

Lemma parsed_logs_with_blocks (lines : list string) (k : nat) :
  logs_with_blocks (records_of lines k)
  = filter (fun r => is_Some (block_id r)) (records_of lines k).
Proof.
  unfold logs_with_blocks. apply filter_iff_elem.
  intros r Hr. rewrite <- records_from_1 in Hr.
  destruct (records_from_elem _ _ _ _ Hr) as (i & line & _ & _ & _ & Hp).
  by eapply parsed_key_nonempty.
Qed.

End ParserProofs.

(** Surrounding white space does not matter to [parse_line] (line 43):
    a line between two runs of white space, such as the line feed that the
    iteration of a file leaves at its end, parses as the line itself. *)
Theorem parse_line_ignores_surrounding_space :
  ∀ (w1 w2 line : string) (n : Z),
    HDFSLogParser.all_chars HDFSLogParser.is_space w1 = true →
    HDFSLogParser.all_chars HDFSLogParser.is_space w2 = true →
    HDFSLogParser.parse_line (w1 +:+ line +:+ w2) n
    = HDFSLogParser.parse_line line n.
Proof.
  intros w1 w2 line n H1 H2. unfold HDFSLogParser.parse_line.
  by rewrite strip_surrounded.
Qed.

Lemma parse_line_ignores_surrounding_space_sample :
  HDFSLogParser.parse_line
    ("  " +:+ "081109 203518 143 INFO dfs.DataNode: Receiving block blk_1" +:+ line_feed) 1
  = HDFSLogParser.parse_line
      "081109 203518 143 INFO dfs.DataNode: Receiving block blk_1" 1
  ∧ is_Some (HDFSLogParser.parse_line
      "081109 203518 143 INFO dfs.DataNode: Receiving block blk_1" 1).
Proof.
  split; [|eexists; vm_compute; reflexivity].
  apply parse_line_ignores_surrounding_space; vm_compute; reflexivity.
Defined.

(** The field [raw_line] is the stripped line, and parsing it again gives
    the same record: [parse_line] is idempotent on what it keeps of its
    input (lines 43, 72). *)
Theorem parse_line_raw_line_round_trip :
  ∀ (line : string) (n : Z) (r : LogRecord),
    HDFSLogParser.parse_line line n = Some r →
    line_number r = n
    ∧ raw_line r = HDFSLogParser.strip line
    ∧ HDFSLogParser.strip (raw_line r) = raw_line r
    ∧ HDFSLogParser.parse_line (raw_line r) n = Some r.
Proof.
  intros line n r H. pose proof H as Hr.
  apply parse_line_inv in H as (g & Hg & ->). cbn [line_number raw_line].
  split; [done|]. split; [done|]. split; [apply strip_idem|].
  unfold HDFSLogParser.parse_line in *. by rewrite strip_idem.
Qed.

Lemma parse_line_raw_line_round_trip_sample :
  ∃ r,
    HDFSLogParser.parse_line
      ("081109 203518 143 INFO dfs.DataNode: Receiving block blk_1" +:+ line_feed) 1
    = Some r
    ∧ raw_line r = "081109 203518 143 INFO dfs.DataNode: Receiving block blk_1"
    ∧ HDFSLogParser.parse_line (raw_line r) 1 = Some r.
Proof.
  eexists. split; [vm_compute; reflexivity|]. split; [vm_compute; reflexivity|].
  refine (proj2 (proj2 (proj2 (parse_line_raw_line_round_trip
    ("081109 203518 143 INFO dfs.DataNode: Receiving block blk_1" +:+ line_feed)
    1 _ _)))).
  vm_compute. reflexivity.
Defined.

(** [parse_line] accepts exactly the lines of the format
    [DATE TIME THREAD_ID LEVEL COMPONENT: MESSAGE] of the docstring
    (lines 25-27, 43-52, 64-73). It returns a record iff the stripped line
    is a date and a time of six digits each, a thread id of digits, a
    level of word characters, a component of word characters, dots and
    dollar signs followed by a colon, and a message without a line feed
    that is not empty, these parts being separated by white space; and the
    record then holds these parts. Any word is accepted as a level. *)
Theorem parse_line_format :
  ∀ (line : string) (n : Z) (r : LogRecord),
    HDFSLogParser.parse_line line n = Some r
    ↔ ∃ g w1 w2 w3 w4 w5,
        HDFSLogParser.strip line = assemble g w1 w2 w3 w4 w5
        ∧ well_formed g w1 w2 w3 w4 w5 = true
        ∧ line_number r = n
        ∧ timestamp r
          = HDFSLogParser.timestamp_of (HDFSLogParser.date_str g)
                                       (HDFSLogParser.time_str g)
        ∧ thread_id r = HDFSLogParser.g_thread_id g
        ∧ level r = HDFSLogParser.g_level g
        ∧ component r = HDFSLogParser.g_component g
        ∧ message r = HDFSLogParser.g_message g
        ∧ block_id r = HDFSLogParser.block_search (HDFSLogParser.g_message g)
        ∧ raw_line r = HDFSLogParser.strip line.
Proof.
  intros line n r. split.
  - intros H. apply parse_line_inv in H as (g & Hg & ->).
    apply pattern_match_sound in Hg as (w1 & w2 & w3 & w4 & w5 & Hl & Hwf).
    by exists g, w1, w2, w3, w4, w5.
  - intros (g & w1 & w2 & w3 & w4 & w5 & Hl & Hwf & H1 & H2 & H3 & H4 & H5 & H6 & H7 & H8).
    rewrite (parse_line_matched line n g).
    + destruct r. cbn in *. by subst.
    + rewrite Hl. by apply pattern_match_complete.
Qed.



(** The block identifier of a record and the filter of the grouper
    (parser lines 62-64, grouper line 37). When the message holds [blk_],
    an optional minus sign and a digit, [block_id] is the leftmost such
    occurrence with all the digits that follow, which is never the empty
    string, so the record passes the filter of [group_incidents] and its
    key is that identifier; otherwise [block_id] is [None] and the filter
    drops the record. *)
Theorem parse_line_block_id :
  ∀ (line : string) (n : Z) (r : LogRecord),
    HDFSLogParser.parse_line line n = Some r →
    match block_id r with
    | Some b =>
        has_block_id r = true ∧ block_key r = b
        ∧ ∃ pre sign ds post,
            message r = pre +:+ b +:+ post
            ∧ b = "blk_" +:+ sign +:+ ds
            ∧ (sign = "" ∨ sign = "-")
            ∧ run_of HDFSLogParser.is_digit ds = true
            ∧ stops HDFSLogParser.is_digit post = true
            ∧ ∀ p1 p2, pre = p1 +:+ p2 → p2 ≠ "" →
                HDFSLogParser.block_at (p2 +:+ b +:+ post) = None
    | None =>
        has_block_id r = false
        ∧ ∀ pre sign c post,
            sign = "" ∨ sign = "-" → HDFSLogParser.is_digit c = true →
            message r ≠ pre +:+ "blk_" +:+ sign +:+ String c post
    end.
Proof.
  intros line n r H.
  apply parse_line_groups in H as (g & _ & _ & _ & _ & Hm & Hb & _).
  unfold has_block_id, block_key. rewrite Hb, Hm.
  destruct (HDFSLogParser.block_search (HDFSLogParser.g_message g)) as [b|] eqn:E.
  - destruct (block_search_spec _ _ E) as (pre & post & Hs & Hat & Hleft).
    destruct (block_at_spec _ _ Hat) as (sign & ds & post' & Hs' & Hshape & Hsign & Hds & Hpost).
    assert (post' = post) as ->.
    { clear -Hs'. induction b as [|c b IH]; [by rewrite !append_nil_l in Hs'|].
      rewrite !append_cons in Hs'. injection Hs' as Hs'. by apply IH. }
    split; [by rewrite Hshape|]. split; [done|].
    by exists pre, sign, ds, post.
  - split; [done|]. intros pre sign c post Hsign Hc Hmsg.
    pose proof (block_search_none _ E pre _ Hmsg) as Hnone.
    destruct (block_at_complete sign post c Hsign Hc) as [b Hb'].
    by rewrite Hb' in Hnone.
Qed.

Lemma parse_line_block_id_sample :
  ∃ r,
    HDFSLogParser.parse_line
      "081109 203518 143 INFO dfs.DataNode: lost blk_- then blk_-16089x blk_2" 1
    = Some r
    ∧ block_id r = Some "blk_-16089"
    ∧ match block_id r with
      | Some b =>
          has_block_id r = true ∧ block_key r = b
          ∧ ∃ pre sign ds post,
              message r = pre +:+ b +:+ post
              ∧ b = "blk_" +:+ sign +:+ ds
              ∧ (sign = "" ∨ sign = "-")
              ∧ run_of HDFSLogParser.is_digit ds = true
              ∧ stops HDFSLogParser.is_digit post = true
              ∧ ∀ p1 p2, pre = p1 +:+ p2 → p2 ≠ "" →
                  HDFSLogParser.block_at (p2 +:+ b +:+ post) = None
      | None =>
          has_block_id r = false
          ∧ ∀ pre sign c post,
              sign = "" ∨ sign = "-" → HDFSLogParser.is_digit c = true →
              message r ≠ pre +:+ "blk_" +:+ sign +:+ String c post
      end.
Proof.
  eexists. split; [vm_compute; reflexivity|]. split; [vm_compute; reflexivity|].
  apply (parse_line_block_id
           "081109 203518 143 INFO dfs.DataNode: lost blk_- then blk_-16089x blk_2" 1).
  vm_compute. reflexivity.
Defined.

(** What [parse_file] returns (lines 88-106). On a file without lines the
    summary reads [line_num] before it is assigned, and the call raises
    [UnboundLocalError]. Otherwise it returns, in the order of the file,
    the records of the lines that parse among the lines it handles, each
    with the number of its line counted from 1: all the lines when
    [max_lines] is [None] or 0, the first [max_lines] when it is positive,
    and none when it is negative. *)
Theorem parse_file_result :
  ∀ (lines : list string) (max_lines : option Z),
    HDFSLogParser.parse_file lines max_lines
    = match lines with
      | [] => HDFSLogParser.UnboundLocalError
      | _ :: _ =>
          HDFSLogParser.Returns (records_of lines (lines_handled max_lines lines))
      end.
Proof.
  intros lines max_lines. unfold HDFSLogParser.parse_file.
  destruct (run_spec lines max_lines) as (H1 & _ & H3).
  rewrite H3, H1. by destruct lines.
Qed.

(** The figures of the summary (lines 100-104). The lines that parsed and
    the lines that failed add up to the lines handled; but the figure
    printed as the total is the last value of [line_num], which is one
    more than the lines handled when [max_lines] stops the loop before the
    end of the file, and the success rate is taken over that figure. *)
Theorem parse_summary_figures :
  ∀ (lines : list string) (max_lines : option Z) (s : HDFSLogParser.Summary),
    HDFSLogParser.parse_summary lines max_lines = HDFSLogParser.Returns s →
    let k := lines_handled max_lines lines in
    HDFSLogParser.successfully_parsed s
    = Z.of_nat (length (records_of lines k))
    ∧ HDFSLogParser.successfully_parsed s + HDFSLogParser.failed_to_parse s
      = Z.of_nat k
    ∧ HDFSLogParser.total_lines_processed s
      = (if (k <? length lines)%nat then Z.of_nat k + 1 else Z.of_nat k)
    ∧ 1 ≤ HDFSLogParser.total_lines_processed s
    ∧ (HDFSLogParser.success_rate s
       == inject_Z (HDFSLogParser.successfully_parsed s)
          / inject_Z (HDFSLogParser.total_lines_processed s) * 100)%Q.
Proof.
  intros lines max_lines s. unfold HDFSLogParser.parse_summary. cbn zeta.
  destruct (run_spec lines max_lines) as (H1 & H2 & H3).
  rewrite H3, H1, H2. destruct lines as [|l lines]; [done|].
  intros [= <-]. cbn [HDFSLogParser.successfully_parsed
    HDFSLogParser.failed_to_parse HDFSLogParser.total_lines_processed
    HDFSLogParser.success_rate].
  split; [done|]. split; [lia|]. split; [done|]. split; [|apply Qeq_refl].
  assert (lines_handled max_lines (l :: lines) ≤ length (l :: lines))%nat.
  { rewrite <- handled_from_1. apply handled_from_le. }
  cbn [length] in *.
  destruct (Nat.ltb_spec (lines_handled max_lines (l :: lines)) (S (length lines)));
    lia.
Qed.

Lemma parse_summary_figures_sample :
  ∃ s,
    HDFSLogParser.parse_summary SAMPLE_LOGS (Some 4) = HDFSLogParser.Returns s
    ∧ HDFSLogParser.total_lines_processed s = 5
    ∧ HDFSLogParser.successfully_parsed s + HDFSLogParser.failed_to_parse s = 4
    ∧ HDFSLogParser.successfully_parsed s
      + HDFSLogParser.failed_to_parse s
      = Z.of_nat (lines_handled (Some 4) SAMPLE_LOGS).
Proof.
  eexists. split; [vm_compute; reflexivity|]. split; [vm_compute; reflexivity|].
  split; [vm_compute; reflexivity|].
  refine (proj1 (proj2 (parse_summary_figures SAMPLE_LOGS (Some 4) _ _))).
  vm_compute. reflexivity.
Defined.

(** Every record that [parse_file] returns is the record of the line whose
    number it carries, and the numbers increase strictly along the result
    (lines 90-95): no two records of a result are equal. *)
Theorem parse_file_line_numbers :
  ∀ (lines : list string) (max_lines : option Z) (parsed : list LogRecord),
    HDFSLogParser.parse_file lines max_lines = HDFSLogParser.Returns parsed →
    (∀ r, r ∈ parsed →
       ∃ i line,
         (i < lines_handled max_lines lines)%nat
         ∧ lines !! i = Some line
         ∧ line_number r = Z.of_nat i + 1
         ∧ HDFSLogParser.parse_line line (line_number r) = Some r)
    ∧ StronglySorted (fun a b => line_number a < line_number b) parsed
    ∧ NoDup parsed.
Proof.
  intros lines max_lines parsed. unfold HDFSLogParser.parse_file.
  destruct (run_spec lines max_lines) as (H1 & _ & H3).
  rewrite H3, H1. destruct lines as [|l lines]; [done|]. intros [= <-].
  rewrite <- records_from_1. split; [|split].
  - intros r Hr. destruct (records_from_elem _ _ _ _ Hr) as (i & line & ? & ? & ? & ?).
    exists i, line. split; [done|]. split; [done|]. split; [lia|done].
  - apply records_from_sorted.
  - apply sorted_line_numbers_NoDup, records_from_sorted.
Qed.

Lemma parse_file_line_numbers_sample :
  ∃ parsed,
    HDFSLogParser.parse_file SAMPLE_LOGS None = HDFSLogParser.Returns parsed
    ∧ length parsed = 15%nat
    ∧ NoDup parsed.
Proof.
  eexists. split; [vm_compute; reflexivity|]. split; [reflexivity|].
  refine (proj2 (proj2 (parse_file_line_numbers SAMPLE_LOGS None _ _))).
  vm_compute. reflexivity.
Defined.

(** A limit only cuts the result short: what [parse_file] returns with
    [max_lines] is a prefix of what it returns without a limit (lines
    91-92). *)
Theorem parse_file_limit_prefix :
  ∀ (lines : list string) (max_lines : option Z) (limited all : list LogRecord),
    HDFSLogParser.parse_file lines max_lines = HDFSLogParser.Returns limited →
    HDFSLogParser.parse_file lines None = HDFSLogParser.Returns all →
    limited `prefix_of` all.
Proof.
  intros lines max_lines limited all. unfold HDFSLogParser.parse_file.
  destruct (run_spec lines max_lines) as (H1 & _ & H3).
  destruct (run_spec lines None) as (H1' & _ & H3').
  rewrite H3, H1, H3', H1'. destruct lines as [|l lines]; [done|].
  intros [= <-] [= <-]. rewrite <- !records_from_1.
  apply records_from_prefix. rewrite <- !handled_from_1.
  apply handled_from_le.
Qed.

Lemma parse_file_limit_prefix_sample :
  ∃ limited all,
    HDFSLogParser.parse_file SAMPLE_LOGS (Some 4) = HDFSLogParser.Returns limited
    ∧ HDFSLogParser.parse_file SAMPLE_LOGS None = HDFSLogParser.Returns all
    ∧ length limited = 4%nat ∧ length all = 15%nat
    ∧ limited `prefix_of` all.
Proof.
  eexists. eexists. split; [vm_compute; reflexivity|].
  split; [vm_compute; reflexivity|]. split; [reflexivity|]. split; [reflexivity|].
  apply (parse_file_limit_prefix SAMPLE_LOGS (Some 4)); vm_compute; reflexivity.
Defined.

(** The grouper applied to what [parse_file] returns, as [test_parser.py]
    does (lines 46-47 and 73-74 there). Either the grouper returns
    incidents, and then some record has a block identifier, the date and
    time of every line with a block identifier are real, and the members
    of the incidents are the records with a block identifier, each in
    exactly one incident; or it raises [ValueError], and then some line
    with a block identifier carries a date or a time that [strptime]
    rejects; or it raises [ZeroDivisionError], and then no line that
    parses names a block. *)
Theorem parsed_file_grouping :
  ∀ (self : IncidentGrouper) (lines : list string) (max_lines : option Z)
    (parsed : list LogRecord),
    HDFSLogParser.parse_file lines max_lines = HDFSLogParser.Returns parsed →
    match group_incidents Iso.fromisoformat Iso.isoformat self parsed with
    | Ok incs =>
        incs ≠ []
        ∧ concat (logs <$> incs) ≡ₚ filter (fun r => is_Some (block_id r)) parsed
        ∧ NoDup (concat (logs <$> incs))
        ∧ ∀ r, r ∈ parsed → is_Some (block_id r) →
               is_Some (Iso.fromisoformat (timestamp r))
    | Raise ValueError =>
        ∃ r i line g,
          r ∈ parsed ∧ is_Some (block_id r)
          ∧ lines !! i = Some line ∧ line_number r = Z.of_nat i + 1
          ∧ HDFSLogParser.pattern_match (HDFSLogParser.strip line) = Some g
          ∧ HDFSLogParser.strptime (HDFSLogParser.date_str g)
                                   (HDFSLogParser.time_str g) = None
    | Raise ZeroDivisionError =>
        ∀ r, r ∈ parsed → block_id r = None
    end.
Proof.
  intros self lines max_lines parsed Hfile.
  assert (Hparsed : parsed = records_of lines (lines_handled max_lines lines)).
  { unfold HDFSLogParser.parse_file in Hfile.
    destruct (run_spec lines max_lines) as (H1 & _ & H3).
    rewrite H3, H1 in Hfile. destruct lines; [done|]. by injection Hfile. }
  assert (Hnd : NoDup parsed).
  { rewrite Hparsed, <- records_from_1.
    apply sorted_line_numbers_NoDup, records_from_sorted. }
  pose proof (parsed_logs_with_blocks lines (lines_handled max_lines lines)) as Hlwb.
  rewrite <- Hparsed in Hlwb.
  destruct (group_incidents Iso.fromisoformat Iso.isoformat self parsed)
    as [incs|e] eqn:H.
  - pose proof (group_incidents_Ok_keyed _ _ _ _ _ H) as (Htp & _ & Hne).
    apply group_incidents_inv in H as [H _].
    pose proof (build_incidents_perm _ _ _ _ _ H) as Hperm.
    rewrite Hlwb in Hperm, Htp.
    split; [done|]. split; [done|]. split.
    + rewrite Hperm. by apply NoDup_filter.
    + intros r Hr Hb. apply timestamps_parse_Forall in Htp.
      eapply Forall_forall in Htp; [done|]. by apply list_elem_of_filter.
  - apply group_incidents_Raise_cases in H as [[-> H]|[-> H]].
    + rewrite Hlwb in H.
      assert (Hex : Exists (fun r => ¬ is_Some (Iso.fromisoformat (timestamp r)))
                      (filter (fun r => is_Some (block_id r)) parsed)).
      { apply not_Forall_Exists; [apply _|]. intros Hall.
        apply timestamps_parse_Forall in Hall. congruence. }
      apply Exists_exists in Hex as (r & Hr & Hnone).
      apply list_elem_of_filter in Hr as [Hb Hr].
      pose proof Hr as Hr'. rewrite Hparsed, <- records_from_1 in Hr'.
      destruct (records_from_elem _ _ _ _ Hr') as (i & line & _ & Hl & Hn & Hp).
      destruct (parse_line_groups _ _ _ Hp) as (g & Hg & D1 & D2 & Hts & _).
      destruct (timestamp_of_read _ _ D1 D2) as (_ & Hread & _).
      exists r, i, line, g. split; [done|]. split; [done|]. split; [done|].
      split; [lia|]. split; [done|].
      destruct (HDFSLogParser.strptime _ _) eqn:E; [|done].
      exfalso. apply Hnone. rewrite Hts, Hread. by eexists.
    + rewrite Hlwb in H. intros r Hr.
      destruct (block_id r) as [b|] eqn:Hb; [|done].
      assert (Hin : r ∈ filter (fun r => is_Some (block_id r)) parsed).
      { apply list_elem_of_filter. split; [by rewrite Hb|done]. }
      rewrite H in Hin. by apply elem_of_nil in Hin.
Qed.

Lemma parsed_file_grouping_sample :
  ∃ parsed,
    HDFSLogParser.parse_file SAMPLE_LOGS None = HDFSLogParser.Returns parsed
    ∧ (num_logs <$> default []
         (match group_incidents Iso.fromisoformat Iso.isoformat (__init__ 5) parsed with
          | Ok incs => Some incs
          | Raise _ => None
          end)) = [8; 4; 1; 2]
    ∧ match group_incidents Iso.fromisoformat Iso.isoformat (__init__ 5) parsed with
      | Ok incs =>
          incs ≠ []
          ∧ concat (logs <$> incs) ≡ₚ filter (fun r => is_Some (block_id r)) parsed
          ∧ NoDup (concat (logs <$> incs))
          ∧ ∀ r, r ∈ parsed → is_Some (block_id r) →
                 is_Some (Iso.fromisoformat (timestamp r))
      | Raise ValueError =>
          ∃ r i line g,
            r ∈ parsed ∧ is_Some (block_id r)
            ∧ SAMPLE_LOGS !! i = Some line ∧ line_number r = Z.of_nat i + 1
            ∧ HDFSLogParser.pattern_match (HDFSLogParser.strip line) = Some g
            ∧ HDFSLogParser.strptime (HDFSLogParser.date_str g)
                                     (HDFSLogParser.time_str g) = None
      | Raise ZeroDivisionError =>
          ∀ r, r ∈ parsed → block_id r = None
      end.
Proof.
  eexists. split; [vm_compute; reflexivity|]. split; [vm_compute; reflexivity|].
  apply (parsed_file_grouping (__init__ 5) SAMPLE_LOGS None).
  vm_compute. reflexivity.
Defined.
